(** * Variable Mover: a shallow embedding of [code.js]

    The plugin moves design variables from one collection to another
    through a host API ([figma.*]).  The pure helpers are plain functions;
    the host document is an explicit state, and every host call may raise,
    so effectful code lives in a small state-and-exception monad. *)

From stdpp Require Import base strings gmap list pretty.
From Stdlib Require Import ZArith Lia.

Local Open Scope string_scope.
Local Open Scope list_scope.
Local Open Scope nat_scope.

(** ** JavaScript objects used as ordered dictionaries

    [idMapping] and [valuesByMode] are plain objects with string keys.
    [Object.keys] and [for ... in] enumerate the keys in insertion order
    (the keys used here, variable and mode identities such as
    [VariableID:1:2] or [1:0], are never array indices), and assigning to an
    existing key keeps its position. *)

Module JsObject.
Section Obj.
Context {V : Type}.

Fixpoint get (o : list (string * V)) (k : string) : option V :=
  match o with
  | [] => None
  | (k', v) :: o' => if decide (k' = k) then Some v else get o' k
  end.

Fixpoint set (o : list (string * V)) (k : string) (v : V) : list (string * V) :=
  match o with
  | [] => [(k, v)]
  | (k', v') :: o' =>
      if decide (k' = k) then (k, v) :: o' else (k', v') :: set o' k v
  end.

Definition keys (o : list (string * V)) : list string := map fst o.
End Obj.
End JsObject.

(** ** Data model *)

(** A value stored for one mode.  Numbers and colour channels are opaque
    payloads here: the plugin copies them and never computes with them. *)
Inductive Value :=
| VBoolean (b : bool)
| VNumber (n : Z)
| VString (s : string)
| VColor (r g b a : Z)
| VariableAlias (id : string).

Record Mode := mkMode { modeId : string; mode_name : string }.

Record VariableCollection := mkCollection {
  coll_id : string;
  coll_name : string;
  modes : list Mode;
  variableIds : list string
}.

(** A design variable ([Variable] in the plugin API; the name is taken in
    Rocq) as the host hands it out. *)
Record DesignVariable := mkVariable {
  id : string;
  name : string;
  resolvedType : string;
  description : string;
  hiddenFromPublishing : bool;
  scopes : list string;
  codeSyntax : list (string * string);
  valuesByMode : list (string * Value);
  variableCollectionId : string
}.

(** ** Pure helpers *)

(** [findDuplicateNames]: one pass over [sourceVariables], pushing each
    variable on [duplicates] or on [canMove]. *)
Record Partition := mkPartition {
  duplicates : list DesignVariable;
  canMove : list DesignVariable
}.

Definition findDuplicateNames_step (destinationNames : gset string)
    (acc : Partition) (variable : DesignVariable) : Partition :=
  if decide (name variable ∈ destinationNames)
  then mkPartition (duplicates acc ++ [variable]) (canMove acc)
  else mkPartition (duplicates acc) (canMove acc ++ [variable]).

Definition findDuplicateNames (sourceVariables : list DesignVariable)
    (destinationNames : gset string) : Partition :=
  fold_left (findDuplicateNames_step destinationNames) sourceVariables
    (mkPartition [] []).

(** [getDisplayTypeName] *)
Definition getDisplayTypeName (figmaType : string) : string :=
  if decide (figmaType = "FLOAT") then "NUMBER" else figmaType.

(** ** Scene nodes and their bindings *)

(** One entry of a [fills], [strokes] or [effects] list: an opaque payload
    and the variable bound to its colour, if any. *)
Record Paint := mkPaint { paint_payload : string; boundColor : option string }.

(** The value of [node.fills] (or [strokes], [effects]): the property may be
    missing from the node, be [figma.mixed], or be an array. *)
Inductive ListProperty :=
| Absent
| Mixed
| Items (l : list Paint).

(** One entry of [node.boundVariables]: a single alias, an array whose items
    are aliases or empty, or some other object without an [id]. *)
Inductive BoundValue :=
| BoundAlias (id : string)
| BoundArray (items : list (option string))
| BoundOther.

Record SceneNode := mkNode {
  node_name : string;
  hasSetBoundVariable : bool;
  boundVariables : option (list (string * BoundValue));
  fills : ListProperty;
  strokes : ListProperty;
  effects : ListProperty
}.

(** A binding record as [findAllVariableBindings] builds it. *)
Record Binding := mkBinding {
  node : string;
  property : string;
  variableId : string;
  bindingIndex : option nat;
  isArrayBinding : bool
}.

(** ** Messages to the UI *)

Record CollectionSummary := mkSummary {
  sum_id : string; sum_name : string; variableCount : nat; sum_modes : list Mode
}.

Record PreviewRow := mkRow {
  row_id : string; row_name : string; row_type : string; row_description : string
}.

Inductive UiMessage :=
| CollectionsList (collections : list CollectionSummary)
| VariablesPreview (variables : list PreviewRow) (count : nat)
| DuplicatesCheckResult (duplicates canMove : list PreviewRow)
    (duplicateCount canMoveCount : nat)
| MoveError (message : string)
| MoveComplete (successCount errorCount skippedCount
    rebindSuccessCount rebindErrorCount deletedCount : nat)
    (destinationName : string).

(** ** The host *)

(** Every call the plugin issues against the host that may raise. *)
Inductive HostCall :=
| GetLocalVariableCollections
| GetVariableCollectionById (collectionId : string)
| GetVariableById (variableId : string)
| CreateVariable (name collectionId resolvedType : string)
| SetDescription (variableId description : string)
| SetHiddenFromPublishing (variableId : string) (hidden : bool)
| SetScopes (variableId : string) (scopes : list string)
| SetVariableCodeSyntax (variableId platform syntax : string)
| CreateVariableAlias (variableId : string)
| SetValueForMode (variableId modeId : string) (value : Value)
| Remove (variableId : string)
| LoadPage (page : nat)
| FindAll (page : nat)
| SetBoundVariable (node property variableId : string)
| SetBoundVariableForPaint (paint : Paint) (variableId : string)
| SetBoundVariableForEffect (effect : Paint) (variableId : string)
| SetListProperty (node property : string) (items : list Paint).

(** The document: what the plugin can read and mutate. *)
Record Document := mkDocument {
  variables : gmap string DesignVariable;
  collections : gmap string VariableCollection;
  collectionOrder : list string;
  pages : list (list string);
  nodes : gmap string SceneNode
}.

Inductive Level := LevelLog | LevelWarn | LevelError.

(** The host: the document, which calls raise, the arrays the plugin holds
    (by reference), and what the plugin has emitted so far. *)
Record Host := mkHost {
  document : Document;
  throws : HostCall → bool;
  heap : list (list Paint);
  notifications : list string;
  posted : list UiMessage;
  console : list (Level * list string);
  closed : bool
}.

Definition set_document (f : Document → Document) (h : Host) : Host :=
  mkHost (f (document h)) (throws h) (heap h) (notifications h) (posted h)
    (console h) (closed h).

Definition set_variables
    (f : gmap string DesignVariable → gmap string DesignVariable)
    (d : Document) : Document :=
  mkDocument (f (variables d)) (collections d) (collectionOrder d) (pages d)
    (nodes d).

Definition set_collections
    (f : gmap string VariableCollection → gmap string VariableCollection)
    (d : Document) : Document :=
  mkDocument (variables d) (f (collections d)) (collectionOrder d) (pages d)
    (nodes d).

Definition set_nodes (f : gmap string SceneNode → gmap string SceneNode)
    (d : Document) : Document :=
  mkDocument (variables d) (collections d) (collectionOrder d) (pages d)
    (f (nodes d)).

(** ** The monad of plugin code: host state plus exceptions *)

Inductive Completion (A : Type) :=
| Normal (a : A)
| Thrown (e : string).
Arguments Normal {A} a.
Arguments Thrown {A} e.

Definition Js (A : Type) : Type := Host → Completion A * Host.

#[global] Instance Js_ret : MRet Js := λ A a h, (Normal a, h).

#[global] Instance Js_bind : MBind Js := λ A B f m h,
  match m h with
  | (Normal a, h') => f a h'
  | (Thrown e, h') => (Thrown e, h')
  end.

Definition throw {A} (e : string) : Js A := λ h, (Thrown e, h).

(** [try { m } catch (error) { handler error }] *)
Definition try_catch {A} (m : Js A) (handler : string → Js A) : Js A := λ h,
  match m h with
  | (Normal a, h') => (Normal a, h')
  | (Thrown e, h') => handler e h'
  end.

Definition get_host : Js Host := λ h, (Normal h, h).
Definition modify_host (f : Host → Host) : Js unit := λ h, (Normal tt, f h).

(** A host call raises when the host says so, before any effect. *)
Definition host_call (c : HostCall) : Js unit := λ h,
  if throws h c then (Thrown "host error", h) else (Normal tt, h).

(** [for (const x of l) body], threading the loop's local variables. *)
Fixpoint for_of {A S} (l : list A) (body : S → A → Js S) (s : S) : Js S :=
  match l with
  | [] => mret s
  | x :: l' => s' ← body s x; for_of l' body s'
  end.

(** *** Output channels *)

Definition console_log (args : list string) : Js unit :=
  modify_host (λ h, mkHost (document h) (throws h) (heap h) (notifications h)
    (posted h) (console h ++ [(LevelLog, args)]) (closed h)).
Definition console_warn (args : list string) : Js unit :=
  modify_host (λ h, mkHost (document h) (throws h) (heap h) (notifications h)
    (posted h) (console h ++ [(LevelWarn, args)]) (closed h)).
Definition console_error (args : list string) : Js unit :=
  modify_host (λ h, mkHost (document h) (throws h) (heap h) (notifications h)
    (posted h) (console h ++ [(LevelError, args)]) (closed h)).
Definition notify (message : string) : Js unit :=
  modify_host (λ h, mkHost (document h) (throws h) (heap h)
    (notifications h ++ [message]) (posted h) (console h) (closed h)).
Definition postMessage (m : UiMessage) : Js unit :=
  modify_host (λ h, mkHost (document h) (throws h) (heap h) (notifications h)
    (posted h ++ [m]) (console h) (closed h)).
Definition closePlugin : Js unit :=
  modify_host (λ h, mkHost (document h) (throws h) (heap h) (notifications h)
    (posted h) (console h) true).

(** *** Variables and collections *)

Fixpoint strip_prefix (p s : string) : option string :=
  match p, s with
  | EmptyString, _ => Some s
  | String a p', String b s' =>
      if decide (a = b) then strip_prefix p' s' else None
  | String _ _, EmptyString => None
  end.

(** The identity the host gives a new variable: [VariableID:] followed by
    a suffix that no live variable carries. *)
Definition new_variable_id (used : gset string) : string :=
  "VariableID:" +:+
  fresh (list_to_set (omap (strip_prefix "VariableID:") (elements used))
           : gset string).

Definition getVariableCollectionByIdAsync (collectionId : string)
    : Js (option VariableCollection) :=
  host_call (GetVariableCollectionById collectionId);;
  h ← get_host;
  mret (collections (document h) !! collectionId).

Definition getVariableByIdAsync (variableId : string)
    : Js (option DesignVariable) :=
  host_call (GetVariableById variableId);;
  h ← get_host;
  mret (variables (document h) !! variableId).

Definition add_variableId (newId : string) (c : VariableCollection)
    : VariableCollection :=
  mkCollection (coll_id c) (coll_name c) (modes c) (variableIds c ++ [newId]).

Definition drop_variableId (oldId : string) (c : VariableCollection)
    : VariableCollection :=
  mkCollection (coll_id c) (coll_name c) (modes c)
    (filter (λ i, i ≠ oldId) (variableIds c)).

(** [figma.variables.createVariable(name, collection, resolvedType)]: a new
    variable with the host's defaults and no value set for any mode (a mode
    without a value reads as the type's default).  The result is the new
    variable's handle, its identity. *)
Definition createVariable (name : string) (collection : VariableCollection)
    (resolvedType : string) : Js string :=
  host_call (CreateVariable name (coll_id collection) resolvedType);;
  h ← get_host;
  let newId := new_variable_id (dom (variables (document h))) in
  let shell :=
    mkVariable newId name resolvedType "" false ["ALL_SCOPES"] [] []
      (coll_id collection) in
  modify_host (set_document (λ d,
    set_collections (alter (add_variableId newId) (coll_id collection))
      (set_variables (insert newId shell) d)));;
  mret newId.

Definition update_variable (variableId : string)
    (f : DesignVariable → DesignVariable) : Js unit :=
  modify_host (set_document (set_variables (alter f variableId))).

Definition with_description (s : string) (v : DesignVariable) :=
  mkVariable (id v) (name v) (resolvedType v) s (hiddenFromPublishing v)
    (scopes v) (codeSyntax v) (valuesByMode v) (variableCollectionId v).
Definition with_hiddenFromPublishing (b : bool) (v : DesignVariable) :=
  mkVariable (id v) (name v) (resolvedType v) (description v) b
    (scopes v) (codeSyntax v) (valuesByMode v) (variableCollectionId v).
Definition with_scopes (s : list string) (v : DesignVariable) :=
  mkVariable (id v) (name v) (resolvedType v) (description v)
    (hiddenFromPublishing v) s (codeSyntax v) (valuesByMode v)
    (variableCollectionId v).
Definition with_codeSyntax (platform syntax : string) (v : DesignVariable) :=
  mkVariable (id v) (name v) (resolvedType v) (description v)
    (hiddenFromPublishing v) (scopes v)
    (JsObject.set (codeSyntax v) platform syntax) (valuesByMode v)
    (variableCollectionId v).
Definition with_value (modeId : string) (value : Value) (v : DesignVariable) :=
  mkVariable (id v) (name v) (resolvedType v) (description v)
    (hiddenFromPublishing v) (scopes v) (codeSyntax v)
    (JsObject.set (valuesByMode v) modeId value) (variableCollectionId v).

Definition set_description (variableId description : string) : Js unit :=
  host_call (SetDescription variableId description);;
  update_variable variableId (with_description description).

Definition set_hiddenFromPublishing (variableId : string) (hidden : bool)
    : Js unit :=
  host_call (SetHiddenFromPublishing variableId hidden);;
  update_variable variableId (with_hiddenFromPublishing hidden).

Definition set_scopes (variableId : string) (scopes : list string) : Js unit :=
  host_call (SetScopes variableId scopes);;
  update_variable variableId (with_scopes scopes).

Definition setVariableCodeSyntax (variableId platform syntax : string)
    : Js unit :=
  host_call (SetVariableCodeSyntax variableId platform syntax);;
  update_variable variableId (with_codeSyntax platform syntax).

Definition setValueForMode (variableId modeId : string) (value : Value)
    : Js unit :=
  host_call (SetValueForMode variableId modeId value);;
  update_variable variableId (with_value modeId value).

Definition createVariableAlias (variableId : string) : Js Value :=
  host_call (CreateVariableAlias variableId);;
  mret (VariableAlias variableId).

(** [variable.remove()] *)
Definition remove (variableId : string) : Js unit :=
  host_call (Remove variableId);;
  modify_host (set_document (λ d,
    set_collections (fmap (drop_variableId variableId))
      (set_variables (delete variableId) d))).

(** ** Helpers of the plugin *)

Definition getAllCollections : Js (list CollectionSummary) :=
  host_call GetLocalVariableCollections;;
  h ← get_host;
  let collections :=
    omap (λ c, collections (document h) !! c) (collectionOrder (document h)) in
  mret (map (λ collection,
    mkSummary (coll_id collection) (coll_name collection)
      (length (variableIds collection))
      (map (λ mode, mkMode (modeId mode) (mode_name mode)) (modes collection)))
    collections).

Definition getVariablesInCollection (collectionId : string)
    : Js (list DesignVariable) :=
  collection ← getVariableCollectionByIdAsync collectionId;
  match collection with
  | None => mret []
  | Some collection =>
      for_of (variableIds collection) (λ variables variableId,
        variable ← getVariableByIdAsync variableId;
        match variable with
        | Some variable => mret (variables ++ [variable])
        | None => mret variables
        end) []
  end.

Definition getVariableNamesInCollection (collectionId : string)
    : Js (gset string) :=
  variables ← getVariablesInCollection collectionId;
  mret (foldl (λ names variable, {[name variable]} ∪ names) ∅ variables).

(** [createVariableInCollection]: the shell, with metadata and no values. *)
Definition createVariableInCollection (originalVariable : DesignVariable)
    (destinationCollection : VariableCollection) : Js string :=
  newVariable ← createVariable (name originalVariable) destinationCollection
                  (resolvedType originalVariable);
  (if decide (description originalVariable = "") then mret tt
   else set_description newVariable (description originalVariable));;
  set_hiddenFromPublishing newVariable (hiddenFromPublishing originalVariable);;
  (if decide (0 < length (scopes originalVariable))
   then set_scopes newVariable (scopes originalVariable)
   else mret tt);;
  for_of (JsObject.keys (codeSyntax originalVariable)) (λ _ platform,
    match JsObject.get (codeSyntax originalVariable) platform with
    | Some syntax => setVariableCodeSyntax newVariable platform syntax
    | None => mret tt
    end) tt;;
  mret newVariable.

(** [copyVariableValues]: what the loop does with one original value and
    the destination mode paired with it. *)
Definition copy_value (originalVariable : DesignVariable)
    (newVariable : string) (idMapping : list (string * string))
    (destinationMode : Mode) (originalValue : Value) : Js unit :=
  match originalValue with
  | VariableAlias referencedVariableId =>
      match JsObject.get idMapping referencedVariableId with
      | Some newReferencedVariable =>
          (* the referenced variable is being moved as well *)
          newAlias ← createVariableAlias newReferencedVariable;
          setValueForMode newVariable (modeId destinationMode) newAlias;;
          console_log ["  Updated alias:"; name originalVariable;
                       "→ new reference"]
      | None =>
          (* the referenced variable stays where it is *)
          try_catch
            (referencedVariable ← getVariableByIdAsync referencedVariableId;
             match referencedVariable with
             | Some referencedVariable =>
                 alias ← createVariableAlias (id referencedVariable);
                 setValueForMode newVariable (modeId destinationMode) alias;;
                 console_log ["  Kept alias:"; name originalVariable; "→";
                              name referencedVariable; "(cross-collection)"]
             | None =>
                 console_warn
                   ["  Warning: Referenced variable not found for";
                    name originalVariable]
             end)
            (λ error,
               console_error ["  Error resolving alias for";
                              name originalVariable; error])
      end
  | _ => setValueForMode newVariable (modeId destinationMode) originalValue
  end.

(** One iteration of the loop over the destination modes, at index [i]. *)
Definition copyVariableValues_at (originalVariable : DesignVariable)
    (newVariable : string) (destinationModes : list Mode)
    (idMapping : list (string * string)) (i : nat) : Js unit :=
  let originalValues := valuesByMode originalVariable in
  let originalModeIds := JsObject.keys originalValues in
  match destinationModes !! i, originalModeIds !! i with
  | Some destinationMode, Some originalModeId =>
      match JsObject.get originalValues originalModeId with
      | Some originalValue =>
          copy_value originalVariable newVariable idMapping destinationMode
            originalValue
      | None => mret tt (* not reached: the key was just enumerated *)
      end
  | _, _ => mret tt (* i >= originalModeIds.length: nothing to copy *)
  end.

Definition copyVariableValues (originalVariable : DesignVariable)
    (newVariable : string) (destinationCollection : VariableCollection)
    (idMapping : list (string * string)) : Js unit :=
  let destinationModes := modes destinationCollection in
  for_of (seq 0 (length destinationModes)) (λ _ i,
    copyVariableValues_at originalVariable newVariable destinationModes
      idMapping i) tt.

(** *** Locating and rewriting bindings *)

Definition empty_node : SceneNode := mkNode "" false None Absent Absent Absent.

Definition read_node (n : string) : Js SceneNode :=
  h ← get_host;
  mret (default empty_node (nodes (document h) !! n)).

(** A string is truthy when it is not empty. *)
Definition truthy (s : string) : bool := bool_decide (s ≠ "").

(** The bindings one [boundVariables] entry contributes. *)
Definition bindings_of_entry (targetVariableIds : gset string)
    (node propertyName : string) (binding : BoundValue) : list Binding :=
  match binding with
  | BoundArray items =>
      foldl (λ found '(index, item),
        match item with
        | Some itemId =>
            if truthy itemId && bool_decide (itemId ∈ targetVariableIds)
            then found ++ [mkBinding node propertyName itemId (Some index) true]
            else found
        | None => found
        end) [] (imap pair items)
  | BoundAlias bindingId =>
      if truthy bindingId && bool_decide (bindingId ∈ targetVariableIds)
      then [mkBinding node propertyName bindingId None false]
      else []
  | BoundOther => []
  end.

Definition bindings_of_node (targetVariableIds : gset string)
    (node : string) (n : SceneNode) : list Binding :=
  match boundVariables n with
  | None => []
  | Some boundVars =>
      foldl (λ found '(propertyName, binding),
        found ++ bindings_of_entry targetVariableIds node propertyName binding)
        [] boundVars
  end.

Definition findAllVariableBindings (variableIds : list string)
    : Js (list Binding) :=
  let targetVariableIds : gset string := list_to_set variableIds in
  h ← get_host;
  for_of (imap pair (pages (document h)))
    (λ (allBindings : list Binding) '(p, allNodes),
      host_call (LoadPage p);;
      host_call (FindAll p);;
      for_of allNodes (λ (allBindings : list Binding) node,
        n ← read_node node;
        mret (allBindings ++ bindings_of_node targetVariableIds node n))
        allBindings)
    [].

(** Arrays handed to the plugin are objects on a heap; a reference is the
    position of the array.  Reading [node.fills] hands out a new array
    object, [JSON.parse(JSON.stringify(a))] allocates a copy, and
    [a[i] = v] updates the array [a] itself. *)
Definition set_heap (f : list (list Paint) → list (list Paint)) (h : Host)
    : Host :=
  mkHost (document h) (throws h) (f (heap h)) (notifications h) (posted h)
    (console h) (closed h).

Definition new_array (l : list Paint) : Js nat :=
  h ← get_host;
  modify_host (set_heap (λ hp, hp ++ [l]));;
  mret (length (heap h)).

Definition array_items (r : nat) : Js (list Paint) :=
  h ← get_host;
  mret (default [] (heap h !! r)).

Definition array_assign (r i : nat) (v : Paint) : Js unit :=
  modify_host (set_heap (alter (λ l, <[i:=v]> l) r)).

Definition JSON_clone (r : nat) : Js nat :=
  l ← array_items r;
  new_array l.

(** [a[bindingIndex]]; [a[null]] is [undefined]. *)
Definition array_get (r : nat) (bindingIndex : option nat)
    : Js (option Paint) :=
  l ← array_items r;
  mret (i ← bindingIndex; l !! i).

(** [node.fills]: [None] stands for a value that is not an array. *)
Definition get_list_property (getter : SceneNode → ListProperty)
    (node : string) : Js (option nat) :=
  n ← read_node node;
  match getter n with
  | Items l => r ← new_array l; mret (Some r)
  | Mixed | Absent => mret None
  end.

Definition with_boundVariable (property : string) (b : BoundValue)
    (n : SceneNode) : SceneNode :=
  mkNode (node_name n) (hasSetBoundVariable n)
    (Some (JsObject.set (default [] (boundVariables n)) property b))
    (fills n) (strokes n) (effects n).

Definition with_fills (v : ListProperty) (n : SceneNode) : SceneNode :=
  mkNode (node_name n) (hasSetBoundVariable n) (boundVariables n)
    v (strokes n) (effects n).
Definition with_strokes (v : ListProperty) (n : SceneNode) : SceneNode :=
  mkNode (node_name n) (hasSetBoundVariable n) (boundVariables n)
    (fills n) v (effects n).
Definition with_effects (v : ListProperty) (n : SceneNode) : SceneNode :=
  mkNode (node_name n) (hasSetBoundVariable n) (boundVariables n)
    (fills n) (strokes n) v.

(** [node.fills = a]: the host takes the content of [a] and lists the bound
    colours under the property's name in [boundVariables]. *)
Definition set_list_property (node property : string)
    (setter : ListProperty → SceneNode → SceneNode) (r : nat) : Js unit :=
  l ← array_items r;
  host_call (SetListProperty node property l);;
  modify_host (set_document (set_nodes (alter (λ n,
    with_boundVariable property (BoundArray (map boundColor l))
      (setter (Items l) n)) node))).

(** [node.setBoundVariable(property, newVariable)] *)
Definition setBoundVariable (node property newVariable : string) : Js unit :=
  host_call (SetBoundVariable node property newVariable);;
  modify_host (set_document (set_nodes
    (alter (with_boundVariable property (BoundAlias newVariable)) node))).

(** [figma.variables.setBoundVariableForPaint(paint, 'color', newVariable)]
    returns a new paint; on [undefined] the host raises. *)
Definition setBoundVariableForPaint (paint : option Paint)
    (newVariable : string) : Js Paint :=
  match paint with
  | None => throw "TypeError"
  | Some paint =>
      host_call (SetBoundVariableForPaint paint newVariable);;
      mret (mkPaint (paint_payload paint) (Some newVariable))
  end.

Definition setBoundVariableForEffect (effect : option Paint)
    (newVariable : string) : Js Paint :=
  match effect with
  | None => throw "TypeError"
  | Some effect =>
      host_call (SetBoundVariableForEffect effect newVariable);;
      mret (mkPaint (paint_payload effect) (Some newVariable))
  end.

Definition present (v : ListProperty) : bool :=
  match v with Absent => false | _ => true end.

(** The body shared by the [fills], [strokes] and [effects] blocks of
    [rebindVariable].  In the comparison [bindingIndex >= length] a [null]
    index counts as 0. *)
Definition rebind_in_list (node property : string)
    (getter : SceneNode → ListProperty)
    (setter : ListProperty → SceneNode → SceneNode)
    (bind_item : option Paint → string → Js Paint)
    (newVariable : string) (bindingIndex : option nat) : Js bool :=
  currentItems ← get_list_property getter node;
  match currentItems with
  | None => mret false
  | Some currentItems =>
      items ← array_items currentItems;
      if decide (length items ≤ default 0 bindingIndex) then mret false
      else
        newItems ← JSON_clone currentItems;
        entry ← array_get newItems bindingIndex;
        rebound ← bind_item entry newVariable;
        array_assign newItems (default 0 bindingIndex) rebound;;
        set_list_property node property setter newItems;;
        mret true
  end.

Definition rebindVariable (node property newVariable : string)
    (bindingIndex : option nat) (isArrayBinding : bool) : Js bool :=
  try_catch
    (n ← read_node node;
     if negb isArrayBinding then
       if hasSetBoundVariable n
       then setBoundVariable node property newVariable;; mret true
       else mret false
     else if bool_decide (property = "fills") && present (fills n) then
       rebind_in_list node property fills with_fills
         setBoundVariableForPaint newVariable bindingIndex
     else if bool_decide (property = "strokes") && present (strokes n) then
       rebind_in_list node property strokes with_strokes
         setBoundVariableForPaint newVariable bindingIndex
     else if bool_decide (property = "effects") && present (effects n) then
       rebind_in_list node property effects with_effects
         setBoundVariableForEffect newVariable bindingIndex
     else mret false)
    (λ error,
       console_error ["Failed to rebind variable:"; property; error];;
       mret false).

(** ** The message handler *)

(** A message from the UI: a [type] and the fields that may come with it. *)
Record Message := mkMessage {
  type : string;
  collectionId : option string;
  sourceCollectionId : option string;
  destinationCollectionId : option string;
  selectedVariableIds : option (list string)
}.

(** A message field used as a collection identity: [undefined] and the
    empty string are falsy. *)
Definition truthy_field (field : option string) : option string :=
  match field with
  | Some s => if truthy s then Some s else None
  | None => None
  end.

(** Host lookups want a string; [undefined] makes the host raise. *)
Definition required (field : option string) : Js string :=
  match field with
  | Some s => mret s
  | None => throw "TypeError"
  end.

Definition preview_row (variable : DesignVariable) : PreviewRow :=
  mkRow (id variable) (name variable)
    (getDisplayTypeName (resolvedType variable)) (description variable).

Definition duplicate_row (variable : DesignVariable) : PreviewRow :=
  mkRow (id variable) (name variable)
    (getDisplayTypeName (resolvedType variable)) "".

Definition on_get_collections : Js unit :=
  collections ← getAllCollections;
  postMessage (CollectionsList collections).

Definition on_get_variables_preview (msg : Message) : Js unit :=
  collectionId ← required (collectionId msg);
  variables ← getVariablesInCollection collectionId;
  let preview := map preview_row variables in
  postMessage (VariablesPreview preview (length preview)).

Definition on_check_duplicates (msg : Message) : Js unit :=
  sourceCollectionId ← required (sourceCollectionId msg);
  sourceVariables ← getVariablesInCollection sourceCollectionId;
  destinationCollectionId ← required (destinationCollectionId msg);
  destinationNames ← getVariableNamesInCollection destinationCollectionId;
  let result := findDuplicateNames sourceVariables destinationNames in
  let duplicatesForUI := map duplicate_row (duplicates result) in
  let canMoveForUI := map duplicate_row (canMove result) in
  postMessage (DuplicatesCheckResult duplicatesForUI canMoveForUI
    (length duplicatesForUI) (length canMoveForUI)).

(** *** Phase 1: create the new variables, without values *)

Record Created := mkCreated {
  idMapping : list (string * string);
  createSuccessCount : nat;
  createErrorCount : nat
}.

Definition phase1_step (destinationCollection : VariableCollection)
    (acc : Created) (originalVariable : DesignVariable) : Js Created :=
  try_catch
    (newVariable ← createVariableInCollection originalVariable
                     destinationCollection;
     console_log ["  Created:"; name originalVariable];;
     mret (mkCreated
       (JsObject.set (idMapping acc) (id originalVariable) newVariable)
       (S (createSuccessCount acc)) (createErrorCount acc)))
    (λ error,
       console_error ["  Failed to create:"; name originalVariable; error];;
       mret (mkCreated (idMapping acc) (createSuccessCount acc)
               (S (createErrorCount acc)))).

Definition phase1 (safeToMove : list DesignVariable)
    (destinationCollection : VariableCollection) : Js Created :=
  for_of safeToMove (phase1_step destinationCollection) (mkCreated [] 0 0).

(** *** Phase 2: copy the values *)

Record Copied := mkCopied { valueSuccessCount : nat; valueErrorCount : nat }.

Definition phase2_step (destinationCollection : VariableCollection)
    (idMapping : list (string * string))
    (acc : Copied) (originalVariable : DesignVariable) : Js Copied :=
  match JsObject.get idMapping (id originalVariable) with
  | None =>
      console_error ["  No new variable found for:"; name originalVariable];;
      mret (mkCopied (valueSuccessCount acc) (S (valueErrorCount acc)))
  | Some newVariable =>
      try_catch
        (copyVariableValues originalVariable newVariable
           destinationCollection idMapping;;
         console_log ["  Copied values:"; name originalVariable];;
         mret (mkCopied (S (valueSuccessCount acc)) (valueErrorCount acc)))
        (λ error,
           console_error ["  Failed to copy values:"; name originalVariable;
                          error];;
           mret (mkCopied (valueSuccessCount acc) (S (valueErrorCount acc))))
  end.

Definition phase2 (safeToMove : list DesignVariable)
    (destinationCollection : VariableCollection)
    (idMapping : list (string * string)) : Js Copied :=
  for_of safeToMove (phase2_step destinationCollection idMapping)
    (mkCopied 0 0).

(** *** Phase 3: update the layer bindings *)

Record Rebound := mkRebound {
  rebindSuccessCount : nat;
  rebindErrorCount : nat
}.

Definition phase3_step (idMapping : list (string * string))
    (acc : Rebound) (binding : Binding) : Js Rebound :=
  match JsObject.get idMapping (variableId binding) with
  | None =>
      mret (mkRebound (rebindSuccessCount acc) (S (rebindErrorCount acc)))
  | Some newVariable =>
      success ← rebindVariable (node binding) (property binding) newVariable
                  (bindingIndex binding) (isArrayBinding binding);
      if success : bool then
        n ← read_node (node binding);
        console_log ["  Rebound:"; node_name n; "->"; property binding];;
        mret (mkRebound (S (rebindSuccessCount acc)) (rebindErrorCount acc))
      else
        mret (mkRebound (rebindSuccessCount acc) (S (rebindErrorCount acc)))
  end.

Definition phase3 (idMapping : list (string * string)) : Js Rebound :=
  let oldVariableIds := JsObject.keys idMapping in
  allBindings ← findAllVariableBindings oldVariableIds;
  console_log ["  Found"; pretty (length allBindings); "bindings to update"];;
  for_of allBindings (phase3_step idMapping) (mkRebound 0 0).

(** *** Phase 4: delete the old variables *)

Definition phase4_step (deleteCount : nat) (oldVariableId : string) : Js nat :=
  try_catch
    (oldVariable ← getVariableByIdAsync oldVariableId;
     match oldVariable with
     | Some oldVariable => remove (id oldVariable);; mret (S deleteCount)
     | None => mret deleteCount
     end)
    (λ error,
       console_error ["  Failed to delete variable:"; oldVariableId; error];;
       mret deleteCount).

Definition phase4 (idMapping : list (string * string)) : Js nat :=
  for_of (JsObject.keys idMapping) phase4_step 0.

(** *** The [move-variables] request *)

(** The messages of the validation failures, in the order of the checks. *)
Definition error_missing_collection : string :=
  "Please select both collections before moving.".
Definition error_same_collection : string :=
  "You cannot move variables to the same collection.".
Definition error_empty_selection : string :=
  "Please select at least one variable to move.".
Definition error_collection_not_found : string :=
  "Collection not found. It may have been deleted.".
Definition error_no_valid_variables : string :=
  "The selected variables could not be found.".
Definition error_all_duplicates : string :=
  "All selected variables already exist in the destination.".

(** A failed check: a notification, the error response, and [return]. *)
Definition move_error (notification message : string) : Js unit :=
  notify notification;;
  postMessage (MoveError message).

Definition double_quote : string := String (Ascii.ascii_of_nat 34) EmptyString.

Definition summaryMessage (createSuccessCount skipped : nat)
    (destinationName : string) : string :=
  "Moved " +:+ pretty createSuccessCount +:+ " variable" +:+
  (if decide (createSuccessCount = 1) then "" else "s") +:+
  " to " +:+ double_quote +:+ destinationName +:+ double_quote +:+
  (if decide (0 < skipped) then " (" +:+ pretty skipped +:+ " skipped)"
   else "").

(** What follows the validation, in three stretches: Phases 1 and 2, which
    leave the mapping and the counters of both; Phases 3 and 4; and the
    summary. *)
Definition create_and_copy (selectedVariableIds : list string)
    (duplicates safeToMove : list DesignVariable)
    (destinationCollection : VariableCollection) : Js (Created * Copied) :=
  notify ("Moving " +:+ pretty (length safeToMove) +:+ " variable(s)...");;
  console_log ["PHASE 1: Creating new variables (without values)..."];;
  console_log ["  Selected:"; pretty (length selectedVariableIds)];;
  console_log ["  Moving:"; pretty (length safeToMove)];;
  console_log ["  Skipped (duplicates):"; pretty (length duplicates)];;
  created ← phase1 safeToMove destinationCollection;
  console_log ["PHASE 1 complete:"; pretty (createSuccessCount created);
               "created,"; pretty (createErrorCount created); "failed"];;
  console_log ["PHASE 2: Copying values..."];;
  copied ← phase2 safeToMove destinationCollection (idMapping created);
  console_log ["PHASE 2 complete:"; pretty (valueSuccessCount copied);
               "copied,"; pretty (valueErrorCount copied); "failed"];;
  mret (created, copied).

Definition rebind_and_delete (idMapping : list (string * string))
    : Js (Rebound * nat) :=
  console_log ["PHASE 3: Finding all variable bindings..."];;
  rebound ← phase3 idMapping;
  console_log ["PHASE 3 complete:"; pretty (rebindSuccessCount rebound);
               "rebound,"; pretty (rebindErrorCount rebound); "failed"];;
  console_log ["PHASE 4: Deleting old variables..."];;
  deleteCount ← phase4 idMapping;
  console_log ["PHASE 4 complete:"; pretty deleteCount; "deleted"];;
  mret (rebound, deleteCount).

Definition migrate (selectedVariableIds : list string)
    (duplicates safeToMove : list DesignVariable)
    (destinationCollection : VariableCollection) : Js unit :=
  '(created, copied) ← create_and_copy selectedVariableIds duplicates
                         safeToMove destinationCollection;
  '(rebound, deleteCount) ← rebind_and_delete (idMapping created);
  notify (summaryMessage (createSuccessCount created) (length duplicates)
            (coll_name destinationCollection));;
  postMessage (MoveComplete (createSuccessCount created)
    (createErrorCount created) (length duplicates)
    (rebindSuccessCount rebound) (rebindErrorCount rebound) deleteCount
    (coll_name destinationCollection)).

Definition on_move_variables (msg : Message) : Js unit :=
  let selectedVariableIds := default [] (selectedVariableIds msg) in
  match truthy_field (sourceCollectionId msg),
        truthy_field (destinationCollectionId msg) with
  | Some sourceCollectionId, Some destinationCollectionId =>
      if decide (sourceCollectionId = destinationCollectionId) then
        move_error "Source and destination cannot be the same!"
          error_same_collection
      else if decide (length selectedVariableIds = 0) then
        move_error "No variables selected!" error_empty_selection
      else
        sourceCollection ← getVariableCollectionByIdAsync sourceCollectionId;
        destinationCollection ←
          getVariableCollectionByIdAsync destinationCollectionId;
        match sourceCollection, destinationCollection with
        | Some sourceCollection, Some destinationCollection =>
            let selectedIdsSet : gset string :=
              list_to_set selectedVariableIds in
            allSourceVariables ← getVariablesInCollection sourceCollectionId;
            let variablesToMove :=
              filter (λ variable, id variable ∈ selectedIdsSet)
                allSourceVariables in
            if decide (length variablesToMove = 0) then
              move_error "No valid variables to move!"
                error_no_valid_variables
            else
              destinationNames ←
                getVariableNamesInCollection destinationCollectionId;
              let result :=
                findDuplicateNames variablesToMove destinationNames in
              let safeToMove := canMove result in
              if decide (length safeToMove = 0) then
                move_error "All selected variables have duplicate names!"
                  error_all_duplicates
              else
                migrate selectedVariableIds (duplicates result) safeToMove
                  destinationCollection
        | _, _ =>
            move_error "One of the collections no longer exists!"
              error_collection_not_found
        end
  | _, _ =>
      move_error "Please select both source and destination collections!"
        error_missing_collection
  end.

(** [figma.ui.on('message', ...)]: the [type] selects the block to run. *)
Definition on_message (msg : Message) : Js unit :=
  (if decide (type msg = "get-collections") then on_get_collections
   else mret tt);;
  (if decide (type msg = "get-variables-preview")
   then on_get_variables_preview msg else mret tt);;
  (if decide (type msg = "check-duplicates") then on_check_duplicates msg
   else mret tt);;
  (if decide (type msg = "move-variables") then on_move_variables msg
   else mret tt);;
  (if decide (type msg = "close-plugin") then closePlugin else mret tt).

(** ** Small concrete documents, used to run the definitions *)

Module Sample.

Definition light : Mode := mkMode "1:0" "Light".
Definition dark : Mode := mkMode "1:1" "Dark".
Definition tokens_mode : Mode := mkMode "2:0" "Default".
Definition tokens_mode2 : Mode := mkMode "2:1" "Compact".

(** [color-base] holds literals; [color-alias] aliases it in both modes. *)
Definition color_base : DesignVariable :=
  mkVariable "VariableID:1:1" "color-base" "COLOR" "base colour" false
    ["ALL_SCOPES"] [] [("1:0", VColor 1 0 0 1); ("1:1", VColor 0 0 1 1)]
    "brand".
Definition color_alias : DesignVariable :=
  mkVariable "VariableID:1:2" "color-alias" "COLOR" "" false
    ["ALL_FILLS"] [("WEB", "var(--alias)")]
    [("1:0", VariableAlias "VariableID:1:1");
     ("1:1", VariableAlias "VariableID:1:1")]
    "brand".
Definition spacing : DesignVariable :=
  mkVariable "VariableID:1:3" "spacing" "FLOAT" "" false
    ["ALL_SCOPES"] [] [("1:0", VNumber 8); ("1:1", VNumber 4)] "brand".
Definition tokens_spacing : DesignVariable :=
  mkVariable "VariableID:2:1" "spacing" "FLOAT" "" false
    ["ALL_SCOPES"] [] [("2:0", VNumber 2)] "tokens".

(** [dangling] aliases a variable that is gone; [linked] aliases a variable
    of another collection. *)
Definition dangling : DesignVariable :=
  mkVariable "VariableID:1:4" "dangling" "FLOAT" "" false
    ["ALL_SCOPES"] []
    [("1:0", VariableAlias "VariableID:7:7"); ("1:1", VNumber 3)] "brand".
Definition linked : DesignVariable :=
  mkVariable "VariableID:1:5" "linked" "FLOAT" "" false
    ["ALL_SCOPES"] []
    [("1:0", VariableAlias "VariableID:2:1"); ("1:1", VNumber 5)] "brand".

Definition brand : VariableCollection :=
  mkCollection "brand" "Brand" [light; dark]
    ["VariableID:1:1"; "VariableID:1:2"; "VariableID:1:3"; "VariableID:1:4";
     "VariableID:1:5"].

(** A collection with one mode and one with three. *)
Definition narrow : VariableCollection :=
  mkCollection "narrow" "Narrow" [mkMode "4:0" "Only"] [].
Definition wide : VariableCollection :=
  mkCollection "wide" "Wide"
    [mkMode "3:0" "Small"; mkMode "3:1" "Medium"; mkMode "3:2" "Large"] [].
Definition tokens : VariableCollection :=
  mkCollection "tokens" "Tokens" [tokens_mode; tokens_mode2]
    ["VariableID:2:1"].

Definition card : SceneNode :=
  mkNode "Card" true
    (Some [("fills", BoundArray [Some "VariableID:1:1"; None]);
           ("width", BoundAlias "VariableID:1:3")])
    (Items [mkPaint "solid-a" (Some "VariableID:1:1"); mkPaint "solid-b" None])
    (Items []) Absent.

Definition doc : Document :=
  mkDocument
    (list_to_map [("VariableID:1:1", color_base);
                  ("VariableID:1:2", color_alias);
                  ("VariableID:1:3", spacing);
                  ("VariableID:1:4", dangling);
                  ("VariableID:1:5", linked);
                  ("VariableID:2:1", tokens_spacing)])
    (list_to_map [("brand", brand); ("tokens", tokens); ("narrow", narrow);
                  ("wide", wide)])
    ["brand"; "tokens"; "narrow"; "wide"]
    [["card"]]
    (list_to_map [("card", card)]).

(** A host on which the calls selected by [faults] raise. *)
Definition host (faults : HostCall → bool) : Host :=
  mkHost doc faults [] [] [] [] false.

Definition reliable : HostCall → bool := λ _, false.

Definition move (source destination : string) (selected : list string)
    : Message :=
  mkMessage "move-variables" None (Some source) (Some destination)
    (Some selected).

End Sample.

(** * Vocabulary of the properties *)

(** [m] returns from every host: it never raises. *)
Definition returns {A} (m : Js A) : Prop :=
  ∀ h, ∃ a h', m h = (Normal a, h').

(** [preserves P m]: from any host [h], running [m] ends in a host related
    to [h] by [P], whether [m] returns or raises. *)
Definition preserves {A} (P : Host → Host → Prop) (m : Js A) : Prop :=
  ∀ h, P h (snd (m h)).

(** Plugin output only: the document, the host's behaviour and the heap
    stay as they are. *)
Definition emits_only (h h' : Host) : Prop :=
  document h' = document h ∧ throws h' = throws h ∧ heap h' = heap h.

(** Nothing at all changes. *)
Definition untouched (h h' : Host) : Prop := h' = h.

(** The host's behaviour is fixed. *)
Definition same_throws (h h' : Host) : Prop := throws h' = throws h.

(** The messages of the six checks, in the order of the checks. *)
Definition validation_errors : list string :=
  [error_missing_collection; error_same_collection; error_empty_selection;
   error_collection_not_found; error_no_valid_variables; error_all_duplicates].

(** [m] answers with the error [e]: it returns, posts exactly that error
    response and one notification, and leaves the document alone. *)
Definition rejects (m : Js unit) (h : Host) (e : string) : Prop :=
  ∃ h', m h = (Normal tt, h') ∧
        emits_only h h' ∧
        posted h' = posted h ++ [MoveError e] ∧
        length (notifications h') = S (length (notifications h)).

(** Six requests, one per check; each fails a different check. *)
Module Rejected.
Import Sample.

Definition no_collections : Message :=
  mkMessage "move-variables" None None None None.
Definition same_collection : Message :=
  move "brand" "brand" ["VariableID:1:1"].
Definition nothing_selected : Message := move "brand" "tokens" [].
Definition unknown_collection : Message :=
  move "brand" "gone" ["VariableID:1:1"].
Definition unknown_variable : Message :=
  move "brand" "tokens" ["VariableID:9:9"].
Definition only_duplicates : Message :=
  move "brand" "tokens" ["VariableID:1:3"].

(** The same request as [same_collection] and as [nothing_selected], with
    the [selectedVariableIds] field left out. *)
Definition same_collection_no_selection : Message :=
  mkMessage "move-variables" None (Some "brand") (Some "brand") None.
Definition no_selection : Message :=
  mkMessage "move-variables" None (Some "brand") (Some "tokens") None.

Definition answer (msg : Message) : Completion unit * list UiMessage :=
  let r := on_move_variables msg (host reliable) in
  (fst r, posted (snd r)).

End Rejected.

Definition with_selection (selected : list string) (msg : Message) : Message :=
  mkMessage (type msg) (collectionId msg) (sourceCollectionId msg)
    (destinationCollectionId msg) (Some selected).

Definition the_node (h : Host) (node : string) : SceneNode :=
  default empty_node (nodes (document h) !! node).

Definition log_error (args : list string) (h : Host) : Host :=
  snd (console_error args h).

(** The state in which the new entry is computed: the array read from the
    node and its copy are allocated. *)
Definition cloned (l : list Paint) (h : Host) : Host :=
  set_heap (λ hp, hp ++ [l]) (set_heap (λ hp, hp ++ [l]) h).

(** The host after a successful rebinding of entry [i] of a list property
    whose content was [l]: the array read from the node and its copy, with
    the new entry, are on the heap, and the node holds the copy's content. *)
Definition list_rebound (node property : string)
    (setter : ListProperty → SceneNode → SceneNode)
    (l : list Paint) (i : nat) (rebound : Paint) (h : Host) : Host :=
  set_document (set_nodes (alter (λ n,
      with_boundVariable property
        (BoundArray (map boundColor (<[i:=rebound]> l)))
        (setter (Items (<[i:=rebound]> l)) n)) node))
    (set_heap (λ hp, hp ++ [l; <[i:=rebound]> l]) h).

(** The list property a sequence binding on [property] refers to; any
    other property has none. *)
Definition list_property (property : string) (n : SceneNode) : ListProperty :=
  if decide (property = "fills") then fills n
  else if decide (property = "strokes") then strokes n
  else if decide (property = "effects") then effects n
  else Absent.

Definition list_setter (property : string)
    : ListProperty → SceneNode → SceneNode :=
  if decide (property = "fills") then with_fills
  else if decide (property = "strokes") then with_strokes
  else with_effects.

Definition list_binder (property : string) : option Paint → string → Js Paint :=
  if decide (property = "effects") then setBoundVariableForEffect
  else setBoundVariableForPaint.

(** The host call that binds one entry of [property]. *)
Definition bind_call (property : string) (p : Paint) (newVariable : string)
    : HostCall :=
  if decide (property = "effects")
  then SetBoundVariableForEffect p newVariable
  else SetBoundVariableForPaint p newVariable.

Definition rebind_failed (property error : string) (h : Host) : Host :=
  snd (console_error ["Failed to rebind variable:"; property; error] h).

(** The value the document holds for a variable in a mode, if one is set. *)
Definition value_of (h : Host) (variable mode : string) : option Value :=
  v ← variables (document h) !! variable;
  JsObject.get (valuesByMode v) mode.

Definition erase_values (v : DesignVariable) : DesignVariable :=
  mkVariable (id v) (name v) (resolvedType v) (description v)
    (hiddenFromPublishing v) (scopes v) (codeSyntax v) []
    (variableCollectionId v).

(** Only values of variables (and the console) change: no variable appears
    or disappears or changes otherwise, and the rest of the host stays. *)
Definition values_only (h h' : Host) : Prop :=
  erase_values <$> variables (document h') =
    erase_values <$> variables (document h) ∧
  collections (document h') = collections (document h) ∧
  collectionOrder (document h') = collectionOrder (document h) ∧
  pages (document h') = pages (document h) ∧
  nodes (document h') = nodes (document h) ∧
  throws h' = throws h ∧ heap h' = heap h ∧
  notifications h' = notifications h ∧ posted h' = posted h ∧
  closed h' = closed h.

(** Values are written only where [W] allows. *)
Definition writes_within (W : string → string → Prop) (h h' : Host) : Prop :=
  ∀ variable mode, ¬ W variable mode →
    value_of h' variable mode = value_of h variable mode.

(** The copy as the specification words it: the [i]-th destination mode
    gets the [i]-th entry of the original's mode-value mapping, for as long
    as both exist. *)
Definition copy_positional (originalVariable : DesignVariable)
    (newVariable : string) (destinationCollection : VariableCollection)
    (idMapping : list (string * string)) : Js unit :=
  for_of (zip (modes destinationCollection) (valuesByMode originalVariable))
    (λ _ '(destinationMode, (_, originalValue)),
       copy_value originalVariable newVariable idMapping destinationMode
         originalValue) tt.

(** The host accepts every write to [newVariable] and every alias value. *)
Definition accepts_writes (h : Host) (newVariable : string) : Prop :=
  (∀ m x, throws h (SetValueForMode newVariable m x) = false) ∧
  (∀ r, throws h (CreateVariableAlias r) = false).

(** The value the copy sets for an original value, if it sets one: an alias
    to a variable that is being moved is redirected to the new variable; an
    alias to another variable is kept when that variable resolves; any other
    value is copied as it is. *)
Definition rewritten (idMapping : list (string * string)) (h : Host)
    (originalValue : Value) : option Value :=
  match originalValue with
  | VariableAlias referencedVariableId =>
      match JsObject.get idMapping referencedVariableId with
      | Some newReferencedVariable => Some (VariableAlias newReferencedVariable)
      | None =>
          if throws h (GetVariableById referencedVariableId) then None
          else (λ referencedVariable, VariableAlias (id referencedVariable))
                 <$> variables (document h) !! referencedVariableId
      end
  | _ => Some originalValue
  end.

(** The positions the copy writes: those where both lists have an entry. *)
Definition paired_mode (originalVariable : DesignVariable)
    (destinationCollection : VariableCollection) (m : string) : Prop :=
  ∃ i destinationMode,
    i < length (valuesByMode originalVariable) ∧
    modes destinationCollection !! i = Some destinationMode ∧
    m = modeId destinationMode.

Definition with_valuesByMode (values : list (string * Value))
    (v : DesignVariable) : DesignVariable :=
  mkVariable (id v) (name v) (resolvedType v) (description v)
    (hiddenFromPublishing v) (scopes v) (codeSyntax v) values
    (variableCollectionId v).

(** Every variable is stored under its own identity. *)
Definition well_formed (d : Document) : Prop :=
  ∀ k v, variables d !! k = Some v → id v = k.

(** Variables other than those in [S] are as they were. *)
Definition alters_within (S : string → Prop) (h h' : Host) : Prop :=
  ∀ k, ¬ S k → variables (document h') !! k = variables (document h) !! k.

(** Nodes, pages, heap, the host's behaviour and the messages sent stay;
    variables, collections and the console may change. *)
Definition scene_kept (h h' : Host) : Prop :=
  nodes (document h') = nodes (document h) ∧
  pages (document h') = pages (document h) ∧
  throws h' = throws h ∧ heap h' = heap h ∧
  notifications h' = notifications h ∧ posted h' = posted h ∧
  closed h' = closed h.

(** What Phase 1 fixes of a variable: identity, name, type, values and
    collection; the metadata copied afterwards is left out. *)
Definition erase_metadata (v : DesignVariable) : DesignVariable :=
  mkVariable (id v) (name v) (resolvedType v) "" false [] []
    (valuesByMode v) (variableCollectionId v).

Definition metadata_only (h h' : Host) : Prop :=
  erase_metadata <$> variables (document h') =
  erase_metadata <$> variables (document h).

(** The metadata setters of [createVariableInCollection], run on the new
    variable. *)
Definition copy_metadata (originalVariable : DesignVariable)
    (newVariable : string) : Js string :=
  (if decide (description originalVariable = "") then mret tt
   else set_description newVariable (description originalVariable));;
  set_hiddenFromPublishing newVariable (hiddenFromPublishing originalVariable);;
  (if decide (0 < length (scopes originalVariable))
   then set_scopes newVariable (scopes originalVariable)
   else mret tt);;
  for_of (JsObject.keys (codeSyntax originalVariable)) (λ _ platform,
    match JsObject.get (codeSyntax originalVariable) platform with
    | Some syntax => setVariableCodeSyntax newVariable platform syntax
    | None => mret tt
    end) tt;;
  mret newVariable.

(** Every normal result of [m] satisfies [Q]. *)
Definition yields {A} (Q : A → Prop) (m : Js A) : Prop :=
  ∀ h a h', m h = (Normal a, h') → Q a.

(** The new variable of [createVariable]. *)
Definition new_shell (newId name resolvedType collectionId : string)
    : DesignVariable :=
  mkVariable newId name resolvedType "" false ["ALL_SCOPES"] [] []
    collectionId.

(** [shell] is what creating the variable for [originalVariable] leaves
    under the identity [newVariable]: a variable with the original's name
    and type, in the destination collection, without values. *)
Definition is_shell_of (originalVariable : DesignVariable)
    (destinationCollection : VariableCollection) (newVariable : string)
    (shell : DesignVariable) : Prop :=
  id shell = newVariable ∧
  name shell = name originalVariable ∧
  resolvedType shell = resolvedType originalVariable ∧
  valuesByMode shell = [] ∧
  variableCollectionId shell = coll_id destinationCollection.

(** What Phase 1 has established in host [h], started from [h0], when the
    mapping is [idMapping]: the variables of [h0] are untouched; every new
    variable is stored under its identity; every entry of the mapping
    leads from a selected variable to its shell, an identity that was free
    in [h0]; and no two entries lead to the same shell. *)
Definition shells_created (safeToMove : list DesignVariable)
    (destinationCollection : VariableCollection) (h0 h : Host)
    (idMapping : list (string * string)) : Prop :=
  (∀ k v, variables (document h0) !! k = Some v →
          variables (document h) !! k = Some v) ∧
  (∀ k v, variables (document h) !! k = Some v →
          variables (document h0) !! k = None → id v = k) ∧
  (∀ k s, JsObject.get idMapping k = Some s →
     variables (document h0) !! s = None ∧
     ∃ o shell, o ∈ safeToMove ∧ id o = k ∧
                variables (document h) !! s = Some shell ∧
                is_shell_of o destinationCollection s shell) ∧
  (∀ k k' s, JsObject.get idMapping k = Some s →
             JsObject.get idMapping k' = Some s → k = k').

(** The shells: the variables the mapping leads to. *)
Definition is_shell (idMapping : list (string * string)) (k : string) : Prop :=
  ∃ k0, JsObject.get idMapping k0 = Some k.

(** Variables, collections and the host's behaviour stay; nodes, the heap
    and the console may change. *)
Definition variables_kept (h h' : Host) : Prop :=
  variables (document h') = variables (document h) ∧
  collections (document h') = collections (document h) ∧
  pages (document h') = pages (document h) ∧
  throws h' = throws h ∧
  notifications h' = notifications h ∧ posted h' = posted h.

(** Every binding that [findAllVariableBindings] returns refers to one of
    the identities it was given. *)
Definition targets (variableIds : list string) (found : list Binding) : Prop :=
  Forall (λ b, variableId b ∈ variableIds) found.

(** The host after [variable.remove()]. *)
Definition removed (variableId : string) (h : Host) : Host :=
  set_document (λ d,
    set_collections (fmap (drop_variableId variableId))
      (set_variables (delete variableId) d)) h.

Definition delete_failed (oldVariableId error : string) (h : Host) : Host :=
  snd (console_error ["  Failed to delete variable:"; oldVariableId; error] h).

(** From a well-formed document, only variables in [S] go, and nothing else
    changes among the variables. *)
Definition removes_within (S : string → Prop) (h h' : Host) : Prop :=
  well_formed (document h) →
  well_formed (document h') ∧
  ∀ k, variables (document h') !! k = variables (document h) !! k ∨
       (S k ∧ variables (document h') !! k = None).

(** Phase 1 made a shell for the variable with identity [k]: the step of
    the loop for some selected variable with that identity, run after the
    steps for the variables before it, returned from
    [createVariableInCollection]. *)
Definition shell_made (safeToMove : list DesignVariable)
    (destinationCollection : VariableCollection) (acc : Created) (h : Host)
    (k : string) : Prop :=
  ∃ before o after acc1 h1 newVariable h1',
    safeToMove = before ++ o :: after ∧ id o = k ∧
    for_of before (phase1_step destinationCollection) acc h =
      (Normal acc1, h1) ∧
    createVariableInCollection o destinationCollection h1 =
      (Normal newVariable, h1').

(** A host that refuses to create a variable named [color-base]. *)
Definition refuses_color_base (c : HostCall) : bool :=
  match c with
  | CreateVariable name _ _ => bool_decide (name = "color-base")
  | _ => false
  end.

(** The selected variables that resolve in the source collection, the names
    in the destination, and the partition of the former by the latter, as
    the handler computes them from the request and the host. *)
Definition source_variables (msg : Message) (h : Host)
    : list DesignVariable :=
  match truthy_field (sourceCollectionId msg) with
  | Some sourceCollectionId =>
      match getVariablesInCollection sourceCollectionId h with
      | (Normal allSourceVariables, _) => allSourceVariables
      | (Thrown _, _) => []
      end
  | None => []
  end.

Definition resolved_selection (msg : Message) (h : Host)
    : list DesignVariable :=
  filter (λ variable,
            id variable ∈
            (list_to_set (default [] (selectedVariableIds msg))
               : gset string))
    (source_variables msg h).

Definition destination_names (msg : Message) (h : Host) : gset string :=
  match truthy_field (destinationCollectionId msg) with
  | Some destinationCollectionId =>
      match getVariableNamesInCollection destinationCollectionId h with
      | (Normal names, _) => names
      | (Thrown _, _) => ∅
      end
  | None => ∅
  end.

Definition resolution (msg : Message) (h : Host) : Partition :=
  findDuplicateNames (resolved_selection msg h) (destination_names msg h).

(** The calls of Phase 2 that can make a value copy fail. *)
Definition value_write (c : HostCall) : bool :=
  match c with
  | SetValueForMode _ _ _ | CreateVariableAlias _ => true
  | _ => false
  end.

(** [h] and [g] agree on everything but the values of variables, the
    console, and whether a value write raises. *)
Definition agree_but_values (h g : Host) : Prop :=
  erase_values <$> variables (document h) =
    erase_values <$> variables (document g) ∧
  collections (document h) = collections (document g) ∧
  collectionOrder (document h) = collectionOrder (document g) ∧
  pages (document h) = pages (document g) ∧
  nodes (document h) = nodes (document g) ∧
  heap h = heap g ∧ notifications h = notifications g ∧
  posted h = posted g ∧ closed h = closed g ∧
  (∀ c, value_write c = false → throws h c = throws g c).


(** [m] does the same on related hosts: same result, related hosts. *)
Definition related {A} (R : Host → Host → Prop) (m : Js A) : Prop :=
  ∀ h g, R h g → fst (m h) = fst (m g) ∧ R (snd (m h)) (snd (m g)).

(** The messages to the interface stay as they are. *)
Definition posts_nothing (h h' : Host) : Prop := posted h' = posted h.



(** The variables of a collection as the document holds them: those of its
    [variableIds] that resolve, in that order; none when the collection is
    not there. *)
Definition variables_of (d : Document) (collectionId : string)
    : list DesignVariable :=
  match collections d !! collectionId with
  | Some collection =>
      omap (λ variableId, variables d !! variableId) (variableIds collection)
  | None => []
  end.

(** The binding [b] is in the document of [h]: its node is on a page and
    lists, under the binding's property, the binding's variable, either as a
    single alias or at the binding's index of an array of aliases.  The
    variable is one of [variableIds] and its identity is not empty. *)
Definition bound_in (variableIds : list string) (h : Host) (b : Binding)
    : Prop :=
  ∃ p allNodes n boundVars,
    pages (document h) !! p = Some allNodes ∧ node b ∈ allNodes ∧
    nodes (document h) !! node b = Some n ∧
    boundVariables n = Some boundVars ∧
    variableId b ≠ "" ∧ variableId b ∈ variableIds ∧
    ((isArrayBinding b = false ∧ bindingIndex b = None ∧
      (property b, BoundAlias (variableId b)) ∈ boundVars) ∨
     (∃ items index,
        isArrayBinding b = true ∧ bindingIndex b = Some index ∧
        (property b, BoundArray items) ∈ boundVars ∧
        items !! index = Some (Some (variableId b)))).

(** The bindings two nested loops over pages and nodes collect. *)
Definition scan_nodes (targetVariableIds : gset string) (h : Host)
    (allBindings : list Binding) (allNodes : list string) : list Binding :=
  foldl (λ allBindings node,
           allBindings ++
           bindings_of_node targetVariableIds node (the_node h node))
    allBindings allNodes.

Definition scan_pages (targetVariableIds : gset string) (h : Host)
    (allBindings : list Binding) (l : list (nat * list string))
    : list Binding :=
  foldl (λ allBindings '(_, allNodes),
           scan_nodes targetVariableIds h allBindings allNodes)
    allBindings l.

(** A page of the list cannot be loaded or searched. *)
Definition page_fails (h : Host) (l : list (nat * list string)) : bool :=
  existsb (λ '(p, _), throws h (LoadPage p) || throws h (FindAll p)) l.

(** Two hosts with the same document that raise on the same calls. *)
Definition same_document (h g : Host) : Prop :=
  document h = document g ∧ throws h = throws g.

(** The host calls of [createVariableInCollection]. *)
Definition metadata_call (c : HostCall) : bool :=
  match c with
  | CreateVariable _ _ _ | SetDescription _ _ | SetHiddenFromPublishing _ _
  | SetScopes _ _ | SetVariableCodeSyntax _ _ _ => true
  | _ => false
  end.

(** The variable [createVariableInCollection] makes for [originalVariable]
    when nothing raises: the original's name, type, description,
    publishing flag and code syntax; its scopes when it has any, the
    host's default otherwise; no values. *)
Definition shell_with_metadata (newVariable : string)
    (originalVariable : DesignVariable)
    (destinationCollection : VariableCollection) : DesignVariable :=
  mkVariable newVariable (name originalVariable)
    (resolvedType originalVariable) (description originalVariable)
    (hiddenFromPublishing originalVariable)
    (if decide (0 < length (scopes originalVariable))
     then scopes originalVariable else ["ALL_SCOPES"])
    (codeSyntax originalVariable) [] (coll_id destinationCollection).

(** A value that is not an alias. *)
Definition is_literal (value : Value) : bool :=
  match value with
  | VariableAlias _ => false
  | _ => true
  end.

(** * Properties *)

(** ** The type label *)

Lemma getDisplayTypeName_float : getDisplayTypeName "FLOAT" = "NUMBER".
Proof. reflexivity. Qed.

Lemma getDisplayTypeName_other (t : string) :
  t ≠ "FLOAT" → getDisplayTypeName t = t.
Proof. intros Ht. unfold getDisplayTypeName. by rewrite decide_False. Qed.

(** C8.  [getDisplayTypeName] sends the host's tag FLOAT to NUMBER, returns
    every other tag as it is, and applying it twice is the same as applying
    it once. *)
Theorem getDisplayTypeName_idempotent :
  getDisplayTypeName "FLOAT" = "NUMBER" ∧
  (∀ t : string,
     (t = "FLOAT" ∧ getDisplayTypeName t = "NUMBER") ∨
     (t ≠ "FLOAT" ∧ getDisplayTypeName t = t)) ∧
  (∀ t : string,
     getDisplayTypeName (getDisplayTypeName t) = getDisplayTypeName t).
Proof.
  split; [reflexivity|]. split.
  - intros t. destruct (decide (t = "FLOAT")) as [->|Ht].
    + left. split; reflexivity.
    + right. split; [assumption|]. by apply getDisplayTypeName_other.
  - intros t. destruct (decide (t = "FLOAT")) as [->|Ht].
    + reflexivity.
    + rewrite (getDisplayTypeName_other t Ht).
      by apply getDisplayTypeName_other.
Qed.

(** ** The duplicate resolver *)

Section FindDuplicateNames.
Variable destinationNames : gset string.

Let blocked (v : DesignVariable) : Prop := name v ∈ destinationNames.
Let free (v : DesignVariable) : Prop := name v ∉ destinationNames.

(** The loop, started from any pair of output arrays, appends the
    blocked candidates to the first and the others to the second. *)
Lemma findDuplicateNames_loop (l : list DesignVariable) (acc : Partition) :
  fold_left (findDuplicateNames_step destinationNames) l acc =
  mkPartition (duplicates acc ++ filter blocked l)
              (canMove acc ++ filter free l).
Proof.
  revert acc. induction l as [|v l IH]; intros acc; simpl.
  - rewrite !app_nil_r. by destruct acc.
  - rewrite IH. unfold findDuplicateNames_step.
    rewrite !filter_cons. unfold blocked, free.
    destruct (decide (name v ∈ destinationNames)) as [Hin|Hnin]; simpl.
    + rewrite decide_False by (intros H; by apply H).
      f_equal. rewrite <- app_assoc. reflexivity.
    + rewrite decide_True by assumption.
      f_equal. rewrite <- app_assoc. reflexivity.
Qed.

Lemma findDuplicateNames_filter (l : list DesignVariable) :
  findDuplicateNames l destinationNames =
  mkPartition (filter blocked l) (filter free l).
Proof. unfold findDuplicateNames. by rewrite findDuplicateNames_loop. Qed.

End FindDuplicateNames.

(** Names are compared as they are: a name that differs only in case does
    not block. *)
Example findDuplicateNames_case_sensitive :
  findDuplicateNames [Sample.spacing; Sample.color_base]
    {[ "Spacing"; "color-base" ]} =
  mkPartition [Sample.color_base] [Sample.spacing].
Proof. vm_compute. reflexivity. Qed.

(** C4.  A candidate is blocked exactly when its name is in the destination
    name set; both outputs are the input with the other candidates left out,
    in input order; without collisions everything is movable, and when every
    name collides everything is blocked. *)
Theorem findDuplicateNames_partition
    (sourceVariables : list DesignVariable) (destinationNames : gset string) :
  let result := findDuplicateNames sourceVariables destinationNames in
  duplicates result = filter (λ v, name v ∈ destinationNames) sourceVariables ∧
  canMove result = filter (λ v, name v ∉ destinationNames) sourceVariables ∧
  (∀ v, v ∈ duplicates result ↔
        v ∈ sourceVariables ∧ name v ∈ destinationNames) ∧
  (∀ v, v ∈ canMove result ↔
        v ∈ sourceVariables ∧ name v ∉ destinationNames) ∧
  duplicates result `sublist_of` sourceVariables ∧
  canMove result `sublist_of` sourceVariables ∧
  ((∀ v, v ∈ sourceVariables → name v ∉ destinationNames) →
   canMove result = sourceVariables ∧ duplicates result = []) ∧
  ((∀ v, v ∈ sourceVariables → name v ∈ destinationNames) →
   duplicates result = sourceVariables ∧ canMove result = []).
Proof.
  intros result. unfold result. rewrite findDuplicateNames_filter. simpl.
  split; [reflexivity|]. split; [reflexivity|].
  split; [intros v; rewrite list_elem_of_filter; tauto|].
  split; [intros v; rewrite list_elem_of_filter; tauto|].
  split; [apply sublist_filter|]. split; [apply sublist_filter|].
  split; intros Hall.
  - split.
    + induction sourceVariables as [|v l IH]; [reflexivity|].
      rewrite filter_cons, decide_True by (apply Hall; left).
      f_equal. apply IH. intros w Hw. apply Hall. by right.
    + induction sourceVariables as [|v l IH]; [reflexivity|].
      rewrite filter_cons, decide_False
        by (intros Hin; by apply (Hall v); [left|]).
      apply IH. intros w Hw. apply Hall. by right.
  - split.
    + induction sourceVariables as [|v l IH]; [reflexivity|].
      rewrite filter_cons, decide_True by (apply Hall; left).
      f_equal. apply IH. intros w Hw. apply Hall. by right.
    + induction sourceVariables as [|v l IH]; [reflexivity|].
      rewrite filter_cons, decide_False
        by (intros Hnin; apply Hnin, Hall; left).
      apply IH. intros w Hw. apply Hall. by right.
Qed.

(** ** Running plugin code *)

Section Run.
Context {A B : Type}.

Lemma run_ret (a : A) (h : Host) : (mret a : Js A) h = (Normal a, h).
Proof. reflexivity. Qed.

Lemma run_bind (m : Js A) (f : A → Js B) (h : Host) :
  (m ≫= f) h =
  match m h with
  | (Normal a, h') => f a h'
  | (Thrown e, h') => (Thrown e, h')
  end.
Proof. reflexivity. Qed.

Lemma run_bind_normal (m : Js A) (f : A → Js B) (h h' : Host) (a : A) :
  m h = (Normal a, h') → (m ≫= f) h = f a h'.
Proof. intros H. by rewrite run_bind, H. Qed.

Lemma run_bind_thrown (m : Js A) (f : A → Js B) (h h' : Host) (e : string) :
  m h = (Thrown e, h') → (m ≫= f) h = (Thrown e, h').
Proof. intros H. by rewrite run_bind, H. Qed.

Lemma run_try_catch (m : Js A) (handler : string → Js A) (h : Host) :
  try_catch m handler h =
  match m h with
  | (Normal a, h') => (Normal a, h')
  | (Thrown e, h') => handler e h'
  end.
Proof. reflexivity. Qed.
End Run.

Lemma run_host_call (c : HostCall) (h : Host) :
  host_call c h =
  if throws h c then (Thrown "host error", h) else (Normal tt, h).
Proof. reflexivity. Qed.

Lemma run_for_of_cons {A S} (x : A) (l : list A) (body : S → A → Js S)
    (s : S) (h : Host) :
  for_of (x :: l) body s h =
  match body s x h with
  | (Normal s', h') => for_of l body s' h'
  | (Thrown e, h') => (Thrown e, h')
  end.
Proof. reflexivity. Qed.

Lemma run_for_of_app {A S} (l1 l2 : list A) (body : S → A → Js S) (s : S)
    (h : Host) :
  for_of (l1 ++ l2) body s h =
  match for_of l1 body s h with
  | (Normal s', h') => for_of l2 body s' h'
  | (Thrown e, h') => (Thrown e, h')
  end.
Proof.
  revert s h. induction l1 as [|x l1 IH]; intros s h; [reflexivity|].
  simpl app. rewrite !run_for_of_cons.
  destruct (body s x h) as [[s'|e] h']; [apply IH|reflexivity].
Qed.

Lemma try_catch_returns {A} (m : Js A) (handler : string → Js A) :
  (∀ e, returns (handler e)) → returns (try_catch m handler).
Proof.
  intros Hh h. rewrite run_try_catch.
  destruct (m h) as [[a|e] h']; [by eauto|apply Hh].
Qed.

Lemma for_of_returns {A S} (l : list A) (body : S → A → Js S) (s : S) :
  (∀ s x, returns (body s x)) → returns (for_of l body s).
Proof.
  intros Hb. revert s. induction l as [|x l IH]; intros s h.
  - by eexists _, _.
  - rewrite run_for_of_cons.
    destruct (Hb s x h) as (s' & h' & ->). apply IH.
Qed.

Section Preserves.
Context (P : Host → Host → Prop) `{!PreOrder P}.

Lemma preserves_ret {A} (a : A) : preserves P (mret a : Js A).
Proof. intros h. simpl. reflexivity. Qed.

Lemma preserves_throw {A} (e : string) : preserves P (@throw A e).
Proof. intros h. simpl. reflexivity. Qed.

Lemma preserves_get_host : preserves P get_host.
Proof. intros h. simpl. reflexivity. Qed.

Lemma preserves_host_call (c : HostCall) : preserves P (host_call c).
Proof.
  intros h. rewrite run_host_call. destruct (throws h c); simpl; reflexivity.
Qed.

Lemma preserves_bind {A B} (m : Js A) (f : A → Js B) :
  preserves P m → (∀ a, preserves P (f a)) → preserves P (m ≫= f).
Proof.
  intros Hm Hf h. rewrite run_bind. specialize (Hm h).
  destruct (m h) as [[a|e] h']; simpl in *; [|assumption].
  etrans; [exact Hm|apply Hf].
Qed.

Lemma preserves_try_catch {A} (m : Js A) (handler : string → Js A) :
  preserves P m → (∀ e, preserves P (handler e)) →
  preserves P (try_catch m handler).
Proof.
  intros Hm Hh h. rewrite run_try_catch. specialize (Hm h).
  destruct (m h) as [[a|e] h']; simpl in *; [assumption|].
  etrans; [exact Hm|apply Hh].
Qed.

Lemma preserves_for_of {A S} (l : list A) (body : S → A → Js S) (s : S) :
  (∀ s x, preserves P (body s x)) → preserves P (for_of l body s).
Proof.
  intros Hb. revert s. induction l as [|x l IH]; intros s.
  - apply preserves_ret.
  - apply preserves_bind; [apply Hb|intros s'; apply IH].
Qed.

Lemma preserves_modify (f : Host → Host) :
  (∀ h, P h (f h)) → preserves P (modify_host f).
Proof. intros Hf h. apply Hf. Qed.
End Preserves.

(** Decompose a [preserves] goal along the structure of the code. *)
Ltac preserves_step :=
  lazymatch goal with
  | |- preserves ?P (mret _) => apply (preserves_ret P)
  | |- preserves ?P (throw _) => apply (preserves_throw P)
  | |- preserves ?P get_host => apply (preserves_get_host P)
  | |- preserves ?P (host_call _) => apply (preserves_host_call P)
  | |- preserves ?P (_ ≫= _) => apply (preserves_bind P); [|intros ?]
  | |- preserves ?P (try_catch _ _) =>
      apply (preserves_try_catch P); [|intros ?]
  | |- preserves ?P (for_of _ _ _) => apply (preserves_for_of P); intros ? ?
  | |- preserves _ (match ?x with _ => _ end) => destruct x
  | |- preserves ?P (modify_host _) => apply (preserves_modify P); intros ?
  end.

Ltac preserves_tac :=
  repeat first [ solve [auto 2 with frame] | preserves_step ].

Create HintDb frame discriminated.

#[global] Instance emits_only_preorder : PreOrder emits_only.
Proof.
  split.
  - by intros h.
  - intros h1 h2 h3 (? & ? & ?) (? & ? & ?). unfold emits_only. by intuition congruence.
Qed.

#[global] Instance untouched_preorder : PreOrder untouched.
Proof. split; [by intros h|]. intros h1 h2 h3 H1 H2. unfold untouched in *. congruence. Qed.

#[global] Instance same_throws_preorder : PreOrder same_throws.
Proof. split; [by intros h|]. intros h1 h2 h3 H1 H2. unfold same_throws in *. congruence. Qed.

Lemma console_log_emits args : preserves emits_only (console_log args).
Proof. by intros h. Qed.
Lemma console_warn_emits args : preserves emits_only (console_warn args).
Proof. by intros h. Qed.
Lemma console_error_emits args : preserves emits_only (console_error args).
Proof. by intros h. Qed.
Lemma notify_emits message : preserves emits_only (notify message).
Proof. by intros h. Qed.
Lemma postMessage_emits m : preserves emits_only (postMessage m).
Proof. by intros h. Qed.
#[global] Hint Resolve console_log_emits console_warn_emits console_error_emits
  notify_emits postMessage_emits : frame.

Lemma getVariableCollectionByIdAsync_untouched c :
  preserves untouched (getVariableCollectionByIdAsync c).
Proof. unfold getVariableCollectionByIdAsync. preserves_tac. Qed.

Lemma getVariableByIdAsync_untouched v :
  preserves untouched (getVariableByIdAsync v).
Proof. unfold getVariableByIdAsync. preserves_tac. Qed.
#[global] Hint Resolve getVariableCollectionByIdAsync_untouched
  getVariableByIdAsync_untouched : frame.

Lemma getVariablesInCollection_untouched c :
  preserves untouched (getVariablesInCollection c).
Proof. unfold getVariablesInCollection. preserves_tac. Qed.
#[global] Hint Resolve getVariablesInCollection_untouched : frame.

Lemma getVariableNamesInCollection_untouched c :
  preserves untouched (getVariableNamesInCollection c).
Proof. unfold getVariableNamesInCollection. preserves_tac. Qed.
#[global] Hint Resolve getVariableNamesInCollection_untouched : frame.

Lemma untouched_run {A} (m : Js A) (h h' : Host) (r : Completion A) :
  preserves untouched m → m h = (r, h') → h' = h.
Proof. intros Hm Hrun. specialize (Hm h). by rewrite Hrun in Hm. Qed.

(** ** Validation of a [move-variables] request *)

Lemma move_error_rejects (notification e : string) (h : Host) :
  rejects (move_error notification e) h e.
Proof.
  eexists. split; [reflexivity|]. split; [done|]. split; [reflexivity|].
  simpl. rewrite length_app. simpl. lia.
Qed.

(** The checks, in order: the first that fails answers with its own
    message; a raising host lookup ends the handler with the host as it was;
    otherwise the migration starts from the host as it was. *)
Lemma on_move_variables_cases (msg : Message) (h : Host) :
  (∃ e, e ∈ validation_errors ∧ rejects (on_move_variables msg) h e) ∨
  (∃ err, on_move_variables msg h = (Thrown err, h)) ∨
  (∃ selected duplicates safeToMove destinationCollection,
     safeToMove ≠ [] ∧
     on_move_variables msg h =
     migrate selected duplicates safeToMove destinationCollection h).
Proof.
  unfold on_move_variables, validation_errors.
  destruct (truthy_field (sourceCollectionId msg)) as [s|];
    [|left; eexists; split; [|apply move_error_rejects]; set_solver].
  destruct (truthy_field (destinationCollectionId msg)) as [d|];
    [|left; eexists; split; [|apply move_error_rejects]; set_solver].
  destruct (decide (s = d));
    [left; eexists; split; [|apply move_error_rejects]; set_solver|].
  destruct (decide (length (default [] (selectedVariableIds msg)) = 0));
    [left; eexists; split; [|apply move_error_rejects]; set_solver|].
  unfold rejects. rewrite run_bind.
  destruct (getVariableCollectionByIdAsync s h) as [[sc|err] h1] eqn:E1;
    apply untouched_run in E1 as ->; auto with frame;
    [|right; left; by eexists].
  rewrite run_bind.
  destruct (getVariableCollectionByIdAsync d h) as [[dc|err] h1] eqn:E2;
    apply untouched_run in E2 as ->; auto with frame;
    [|right; left; by eexists].
  destruct sc as [sc|];
    [|left; eexists; split; [|apply move_error_rejects]; set_solver].
  destruct dc as [dc|];
    [|left; eexists; split; [|apply move_error_rejects]; set_solver].
  rewrite run_bind.
  destruct (getVariablesInCollection s h) as [[vars|err] h1] eqn:E3;
    apply untouched_run in E3 as ->; auto with frame;
    [|right; left; by eexists].
  destruct (decide (length _ = 0));
    [left; eexists; split; [|apply move_error_rejects]; set_solver|].
  rewrite run_bind.
  destruct (getVariableNamesInCollection d h) as [[names|err] h1] eqn:E4;
    apply untouched_run in E4 as ->; auto with frame;
    [|right; left; by eexists].
  destruct (decide (length _ = 0)) as [|Hsafe];
    [left; eexists; split; [|apply move_error_rejects]; set_solver|].
  right; right. eexists _, _, _, _. split; [|reflexivity].
  intros Hnil. apply Hsafe. by rewrite Hnil.
Qed.

Lemma on_message_move_variables (msg : Message) (h : Host) :
  type msg = "move-variables" → on_message msg h = on_move_variables msg h.
Proof.
  intros Ht. unfold on_message. rewrite Ht. simpl.
  repeat (rewrite run_bind; simpl).
  by destruct (on_move_variables msg h) as [[[]|e] h'].
Qed.

(** The answers to the six requests. *)
Lemma answers :
  Rejected.answer Rejected.no_collections = (Normal tt, [MoveError error_missing_collection]) ∧
  Rejected.answer Rejected.same_collection = (Normal tt, [MoveError error_same_collection]) ∧
  Rejected.answer Rejected.nothing_selected = (Normal tt, [MoveError error_empty_selection]) ∧
  Rejected.answer Rejected.unknown_collection =
    (Normal tt, [MoveError error_collection_not_found]) ∧
  Rejected.answer Rejected.unknown_variable =
    (Normal tt, [MoveError error_no_valid_variables]) ∧
  Rejected.answer Rejected.only_duplicates = (Normal tt, [MoveError error_all_duplicates]).
Proof. repeat split; vm_compute; reflexivity. Qed.

Lemma validation_errors_NoDup : NoDup validation_errors.
Proof. apply (bool_decide_unpack _). vm_compute. reflexivity. Qed.

Lemma rejects_posted (m : Js unit) (h : Host) (e : string) :
  rejects m h e → posted (snd (m h)) = posted h ++ [MoveError e].
Proof. intros (h' & -> & _ & Hp & _). exact Hp. Qed.

Lemma rejects_unique (m : Js unit) (h : Host) (e e' : string) :
  rejects m h e → posted (snd (m h)) = posted h ++ [MoveError e'] → e = e'.
Proof.
  intros Hr Hp. rewrite (rejects_posted _ _ _ Hr) in Hp.
  apply app_inv_head in Hp. congruence.
Qed.

Ltac run_rejects :=
  lazymatch goal with
  | |- rejects ?m ?h ?e =>
      exists (snd (m h));
      split; [|split; [split; [|split]|split]]; vm_compute; reflexivity
  end.

(** Every check can fail, each with its own message. *)
Lemma validation_errors_reachable (e : string) :
  e ∈ validation_errors → ∃ msg h, rejects (on_move_variables msg) h e.
Proof.
  unfold validation_errors. rewrite !elem_of_cons, elem_of_nil.
  intros [->|[->|[->|[->|[->|[->|[]]]]]]].
  - exists Rejected.no_collections, (Sample.host Sample.reliable). run_rejects.
  - exists Rejected.same_collection, (Sample.host Sample.reliable). run_rejects.
  - exists Rejected.nothing_selected, (Sample.host Sample.reliable). run_rejects.
  - exists Rejected.unknown_collection, (Sample.host Sample.reliable).
    run_rejects.
  - exists Rejected.unknown_variable, (Sample.host Sample.reliable). run_rejects.
  - exists Rejected.only_duplicates, (Sample.host Sample.reliable). run_rejects.
Qed.

Lemma same_collection_rejected (msg : Message) (h : Host) :
  sourceCollectionId msg = destinationCollectionId msg →
  ∃ e, e ∈ [error_missing_collection; error_same_collection] ∧
       rejects (on_move_variables msg) h e.
Proof.
  intros Heq. unfold on_move_variables. rewrite <- Heq.
  destruct (truthy_field (sourceCollectionId msg)) as [s|].
  - rewrite decide_True by reflexivity.
    exists error_same_collection. split; [set_solver|apply move_error_rejects].
  - exists error_missing_collection.
    split; [set_solver|apply move_error_rejects].
Qed.

(** C5, as the code has it.  The handler makes six checks, one after the
    other; each can fail, and then answers with its own message, different
    from the other five, leaving the document as it was.  A raising host
    lookup ends the handler with the host untouched, and otherwise the
    migration starts from the host as it was.  A request with the same
    source and destination is always answered with an error response. *)
Theorem validation_checks :
  length validation_errors = 6 ∧
  NoDup validation_errors ∧
  (∀ e, e ∈ validation_errors →
        ∃ msg h, rejects (on_move_variables msg) h e) ∧
  (∀ msg h,
     (∃ e, e ∈ validation_errors ∧ rejects (on_move_variables msg) h e) ∨
     (∃ err, on_move_variables msg h = (Thrown err, h)) ∨
     (∃ selected duplicates safeToMove destinationCollection,
        safeToMove ≠ [] ∧
        on_move_variables msg h =
        migrate selected duplicates safeToMove destinationCollection h)) ∧
  (∀ msg h,
     sourceCollectionId msg = destinationCollectionId msg →
     ∃ e, e ∈ [error_missing_collection; error_same_collection] ∧
          rejects (on_move_variables msg) h e).
Proof.
  split; [reflexivity|]. split; [apply validation_errors_NoDup|].
  split; [apply validation_errors_reachable|].
  split; [apply on_move_variables_cases|apply same_collection_rejected].
Qed.

(** C5 as stated fails: no list of four messages covers the error
    responses of the handler. *)
Lemma four_checks_refuted :
  ¬ ∃ checks : list string,
      length checks = 4 ∧
      ∀ msg h e, rejects (on_move_variables msg) h e → e ∈ checks.
Proof.
  intros (checks & Hlen & Hall).
  assert (validation_errors ⊆+ checks) as Hsub.
  { apply NoDup_submseteq; [apply validation_errors_NoDup|].
    intros e He. destruct (validation_errors_reachable e He) as (msg & h & Hr).
    by eapply Hall. }
  apply submseteq_length in Hsub. rewrite Hlen in Hsub. simpl in Hsub. lia.
Qed.

(** ** A request without [selectedVariableIds] *)

(** C10 as stated fails: with the field absent and the same collection on
    both sides, the answer is the same-collection error, not the
    empty-selection one (the checks on the collections come first). *)
Lemma absent_selection_other_error :
  selectedVariableIds Rejected.same_collection_no_selection = None ∧
  Rejected.answer Rejected.same_collection_no_selection =
    (Normal tt, [MoveError error_same_collection]) ∧
  selectedVariableIds Rejected.no_collections = None ∧
  Rejected.answer Rejected.no_collections =
    (Normal tt, [MoveError error_missing_collection]) ∧
  error_same_collection ≠ error_empty_selection ∧
  error_missing_collection ≠ error_empty_selection.
Proof. repeat split; try (vm_compute; reflexivity); discriminate. Qed.

(** C10, as the code has it.  A request without [selectedVariableIds] is
    handled exactly as the same request with an empty list; when both
    collection identities are given and differ, that is the empty-selection
    error response, returned without raising and without touching the
    document. *)
Theorem absent_selection (msg : Message) (h : Host) :
  selectedVariableIds msg = None →
  on_move_variables msg h = on_move_variables (with_selection [] msg) h ∧
  (∀ s d,
     sourceCollectionId msg = Some s → destinationCollectionId msg = Some d →
     s ≠ "" → d ≠ "" → s ≠ d →
     rejects (on_move_variables msg) h error_empty_selection).
Proof.
  intros Hsel. split.
  - unfold on_move_variables, with_selection. simpl. by rewrite Hsel.
  - intros s d Hs Hd Hs' Hd' Hsd. unfold on_move_variables.
    rewrite Hs, Hd, Hsel. unfold truthy_field, truthy.
    rewrite !bool_decide_eq_true_2 by assumption.
    rewrite decide_False by assumption. simpl.
    apply move_error_rejects.
Qed.

Lemma absent_selection_witness :
  on_move_variables Rejected.no_selection (Sample.host Sample.reliable) =
  on_move_variables (with_selection [] Rejected.no_selection)
    (Sample.host Sample.reliable) ∧
  rejects (on_move_variables Rejected.no_selection)
    (Sample.host Sample.reliable) error_empty_selection.
Proof.
  destruct (absent_selection Rejected.no_selection
              (Sample.host Sample.reliable) eq_refl) as [Hsame Hrej].
  split; [exact Hsame|].
  apply (Hrej "brand" "tokens"); [reflexivity|reflexivity|..]; discriminate.
Defined.

(** ** Rebinding *)

Lemma run_read_node (node : string) (h : Host) :
  read_node node h = (Normal (the_node h node), h).
Proof. reflexivity. Qed.

Lemma run_new_array (l : list Paint) (h : Host) :
  new_array l h = (Normal (length (heap h)), set_heap (λ hp, hp ++ [l]) h).
Proof. reflexivity. Qed.

Lemma run_array_items (r : nat) (h : Host) :
  array_items r h = (Normal (default [] (heap h !! r)), h).
Proof. reflexivity. Qed.

Section RebindInList.
Variables (node property newVariable : string).
Variable getter : SceneNode → ListProperty.
Variable setter : ListProperty → SceneNode → SceneNode.
Variable bind_item : option Paint → string → Js Paint.

Lemma rebind_in_list_no_array (bindingIndex : option nat) (h : Host) :
  (∀ l, getter (the_node h node) ≠ Items l) →
  rebind_in_list node property getter setter bind_item newVariable
    bindingIndex h = (Normal false, h).
Proof.
  intros Hno. unfold rebind_in_list, get_list_property.
  rewrite !run_bind, run_read_node.
  destruct (getter (the_node h node)) as [| |l] eqn:E; try reflexivity.
  by destruct (Hno l).
Qed.

Lemma rebind_in_list_out_of_range (l : list Paint) (i : nat) (h : Host) :
  getter (the_node h node) = Items l → length l ≤ i →
  rebind_in_list node property getter setter bind_item newVariable
    (Some i) h = (Normal false, set_heap (λ hp, hp ++ [l]) h).
Proof.
  intros Hl Hi. unfold rebind_in_list, get_list_property.
  rewrite !run_bind, run_read_node. rewrite Hl.
  rewrite run_bind, run_new_array. simpl.
  rewrite run_bind, run_array_items. simpl.
  rewrite list_lookup_middle by reflexivity. simpl.
  by rewrite decide_True.
Qed.

Lemma rebind_in_list_in_range (l : list Paint) (i : nat) (h : Host) :
  getter (the_node h node) = Items l → i < length l →
  rebind_in_list node property getter setter bind_item newVariable
    (Some i) h =
  match bind_item (l !! i) newVariable (cloned l h) with
  | (Normal rebound, h') =>
      (array_assign (S (length (heap h))) i rebound;;
       set_list_property node property setter (S (length (heap h)));;
       mret true) h'
  | (Thrown e, h') => (Thrown e, h')
  end.
Proof.
  intros Hl Hi. unfold rebind_in_list, get_list_property.
  rewrite !run_bind, run_read_node. rewrite Hl.
  rewrite run_bind, run_new_array. simpl.
  rewrite run_bind, run_array_items. simpl.
  rewrite list_lookup_middle by reflexivity. simpl.
  rewrite decide_False by lia.
  unfold JSON_clone.
  rewrite !run_bind, run_array_items. simpl.
  rewrite list_lookup_middle by reflexivity. simpl.
  unfold array_get. rewrite !run_bind, run_array_items. simpl.
  rewrite length_app. simpl. rewrite Nat.add_1_r.
  rewrite (list_lookup_middle _ [] l (S (length (heap h))))
    by (rewrite length_app; simpl; lia).
  simpl. reflexivity.
Qed.

Lemma heap_cloned (l : list Paint) (h : Host) :
  heap (cloned l h) = heap h ++ [l; l].
Proof. simpl. by rewrite <- app_assoc. Qed.

(** Writing the new entry into the copy and the copy back to the node. *)
Lemma write_back (l : list Paint) (i : nat) (rebound : Paint) (h : Host) :
  (array_assign (S (length (heap h))) i rebound;;
   set_list_property node property setter (S (length (heap h)));;
   mret true) (cloned l h) =
  if throws h (SetListProperty node property (<[i:=rebound]> l))
  then (Thrown "host error",
        set_heap (λ hp, hp ++ [l; <[i:=rebound]> l]) h)
  else (Normal true, list_rebound node property setter l i rebound h).
Proof.
  unfold array_assign, set_list_property.
  assert (alter (λ l0, <[i:=rebound]> l0) (S (length (heap h)))
            ((heap h ++ [l]) ++ [l]) = heap h ++ [l; <[i:=rebound]> l])
    as Halter.
  { replace (S (length (heap h))) with (length (heap h ++ [l]) + 0)
      by (rewrite length_app; simpl; lia).
    rewrite alter_app_r. simpl. by rewrite <- app_assoc. }
  assert ((heap h ++ [l; <[i:=rebound]> l]) !! S (length (heap h)) =
          Some (<[i:=rebound]> l)) as Hlookup.
  { rewrite lookup_app_r by lia.
    by replace (S (length (heap h)) - length (heap h)) with 1 by lia. }
  unfold array_items, host_call, modify_host, get_host, mbind, Js_bind,
    mret, Js_ret.
  simpl. rewrite Halter, Hlookup. simpl.
  destruct (throws h _);
    unfold list_rebound, set_heap, set_document; simpl; by rewrite Halter.
Qed.
End RebindInList.

Ltac js_unfold :=
  unfold array_get, array_assign, JSON_clone, array_items, new_array,
    read_node, host_call, modify_host, get_host, throw, try_catch,
    mbind, Js_bind, mret, Js_ret in *.

Lemma rebindVariable_array (node property newVariable : string)
    (bindingIndex : option nat) (h : Host) :
  rebindVariable node property newVariable bindingIndex true h =
  match
    match list_property property (the_node h node) with
    | Absent => (Normal false, h)
    | _ => rebind_in_list node property (list_property property)
             (list_setter property) (list_binder property) newVariable
             bindingIndex h
    end
  with
  | (Normal b, h') => (Normal b, h')
  | (Thrown e, h') => (Normal false, rebind_failed property e h')
  end.
Proof.
  unfold rebindVariable. rewrite run_try_catch, run_bind, run_read_node.
  simpl negb. cbv iota.
  destruct (decide (property = "fills")) as [->|Hf].
  { change (list_property "fills") with fills.
    change (list_setter "fills") with with_fills.
    change (list_binder "fills") with setBoundVariableForPaint.
    simpl bool_decide. simpl andb.
    destruct (fills (the_node h node)); reflexivity. }
  rewrite (bool_decide_eq_false_2 _ Hf). simpl andb. cbv iota.
  destruct (decide (property = "strokes")) as [->|Hs].
  { change (list_property "strokes") with strokes.
    change (list_setter "strokes") with with_strokes.
    change (list_binder "strokes") with setBoundVariableForPaint.
    simpl bool_decide. simpl andb.
    destruct (strokes (the_node h node)); reflexivity. }
  rewrite (bool_decide_eq_false_2 _ Hs). simpl andb. cbv iota.
  destruct (decide (property = "effects")) as [->|He].
  { change (list_property "effects") with effects.
    change (list_setter "effects") with with_effects.
    change (list_binder "effects") with setBoundVariableForEffect.
    simpl bool_decide. simpl andb.
    destruct (effects (the_node h node)); reflexivity. }
  rewrite (bool_decide_eq_false_2 _ He). simpl andb. cbv iota.
  unfold list_property. rewrite !decide_False by assumption. reflexivity.
Qed.

Lemma run_list_binder (property : string) (p : Paint) (newVariable : string)
    (h : Host) :
  list_binder property (Some p) newVariable h =
  if throws h (bind_call property p newVariable)
  then (Thrown "host error", h)
  else (Normal (mkPaint (paint_payload p) (Some newVariable)), h).
Proof.
  unfold list_binder, bind_call.
  destruct (decide (property = "effects")).
  - unfold setBoundVariableForEffect. js_unfold. by destruct (throws h _).
  - unfold setBoundVariableForPaint. js_unfold. by destruct (throws h _).
Qed.

Lemma rebindVariable_returns (node property newVariable : string)
    (bindingIndex : option nat) (isArrayBinding : bool) :
  returns (rebindVariable node property newVariable bindingIndex
             isArrayBinding).
Proof. apply try_catch_returns. intros e h. by eexists _, _. Qed.

Lemma rebindVariable_scalar (node property newVariable : string)
    (bindingIndex : option nat) (h : Host) :
  rebindVariable node property newVariable bindingIndex false h =
  if hasSetBoundVariable (the_node h node) then
    if throws h (SetBoundVariable node property newVariable)
    then (Normal false, rebind_failed property "host error" h)
    else (Normal true,
          set_document (set_nodes
            (alter (with_boundVariable property (BoundAlias newVariable))
               node)) h)
  else (Normal false, h).
Proof.
  unfold rebindVariable, setBoundVariable. js_unfold. simpl.
  fold (the_node h node).
  destruct (hasSetBoundVariable (the_node h node)); [|reflexivity].
  by destruct (throws h _).
Qed.

Lemma list_property_Items_node (property node : string) (h : Host)
    (l : list Paint) :
  list_property property (the_node h node) = Items l →
  ∃ n, nodes (document h) !! node = Some n ∧ the_node h node = n.
Proof.
  unfold the_node. destruct (nodes (document h) !! node) as [n|]; [by eauto|].
  unfold list_property. simpl. by repeat case_decide.
Qed.

Lemma list_property_setter (property : string) (n : SceneNode)
    (l l' : list Paint) (b : BoundValue) :
  list_property property n = Items l →
  list_property property
    (with_boundVariable property b (list_setter property (Items l') n)) =
  Items l'.
Proof.
  unfold list_property, list_setter.
  repeat case_decide; subst; try done.
Qed.

Lemma rebindVariable_out_of_range (node property newVariable : string)
    (l : list Paint) (i : nat) (h : Host) :
  list_property property (the_node h node) = Items l → length l ≤ i →
  rebindVariable node property newVariable (Some i) true h =
  (Normal false, set_heap (λ hp, hp ++ [l]) h).
Proof.
  intros Hl Hi. rewrite rebindVariable_array, Hl.
  by rewrite (rebind_in_list_out_of_range _ _ _ _ _ _ l).
Qed.

Lemma rebindVariable_no_list (node property newVariable : string)
    (bindingIndex : option nat) (h : Host) :
  (∀ l, list_property property (the_node h node) ≠ Items l) →
  rebindVariable node property newVariable bindingIndex true h =
  (Normal false, h).
Proof.
  intros Hno. rewrite rebindVariable_array.
  rewrite rebind_in_list_no_array by assumption.
  by destruct (list_property property (the_node h node)).
Qed.

Lemma rebindVariable_in_range (node property newVariable : string)
    (l : list Paint) (i : nat) (p : Paint) (h : Host) :
  list_property property (the_node h node) = Items l → l !! i = Some p →
  let rebound := mkPaint (paint_payload p) (Some newVariable) in
  rebindVariable node property newVariable (Some i) true h =
  if throws h (bind_call property p newVariable)
  then (Normal false, rebind_failed property "host error" (cloned l h))
  else if throws h (SetListProperty node property (<[i:=rebound]> l))
  then (Normal false,
        rebind_failed property "host error"
          (set_heap (λ hp, hp ++ [l; <[i:=rebound]> l]) h))
  else (Normal true,
        list_rebound node property (list_setter property) l i rebound h).
Proof.
  intros Hl Hp rebound. rewrite rebindVariable_array, Hl.
  rewrite rebind_in_list_in_range with (l := l)
    by (done || by eapply lookup_lt_Some).
  rewrite Hp, run_list_binder. simpl throws.
  destruct (throws h (bind_call property p newVariable)); [reflexivity|].
  fold rebound. rewrite write_back.
  by destruct (throws h (SetListProperty node property (<[i:=rebound]> l))).
Qed.

Lemma list_property_unsupported (property : string) (n : SceneNode) :
  property ∉ ["fills"; "strokes"; "effects"] →
  list_property property n = Absent.
Proof.
  intros Hp. unfold list_property.
  repeat case_decide; subst; try done; exfalso; apply Hp; set_solver.
Qed.

(** C7.  [rebindVariable] always returns a boolean.  A scalar binding on a
    node without [setBoundVariable] gives false.  A sequence binding is
    handled for fills, strokes and effects only; it gives false when the
    property is missing from the node or is not an array, and when the
    index is past the end.  Otherwise the array read from the node is left
    as it is, a copy gets the entry at the index replaced, and the whole
    copy is written back.  A host call that raises gives false and one
    error entry on the console, with the document unchanged. *)
Theorem rebindVariable_total :
  (∀ node property newVariable bindingIndex isArrayBinding h,
     ∃ (b : bool) h',
       rebindVariable node property newVariable bindingIndex isArrayBinding h
       = (Normal b, h')) ∧
  (∀ node property newVariable bindingIndex h,
     hasSetBoundVariable (the_node h node) = false →
     rebindVariable node property newVariable bindingIndex false h =
     (Normal false, h)) ∧
  (∀ node property newVariable bindingIndex h,
     property ∉ ["fills"; "strokes"; "effects"] →
     rebindVariable node property newVariable bindingIndex true h =
     (Normal false, h)) ∧
  (∀ node property newVariable bindingIndex h,
     (∀ l, list_property property (the_node h node) ≠ Items l) →
     rebindVariable node property newVariable bindingIndex true h =
     (Normal false, h)) ∧
  (∀ node property newVariable l i h,
     list_property property (the_node h node) = Items l → length l ≤ i →
     ∃ h', rebindVariable node property newVariable (Some i) true h =
           (Normal false, h') ∧
           document h' = document h ∧ console h' = console h) ∧
  (∀ node property newVariable l i p h,
     list_property property (the_node h node) = Items l → l !! i = Some p →
     throws h (bind_call property p newVariable) = false →
     let rebound := mkPaint (paint_payload p) (Some newVariable) in
     throws h (SetListProperty node property (<[i:=rebound]> l)) = false →
     ∃ h', rebindVariable node property newVariable (Some i) true h =
           (Normal true, h') ∧
           heap h' = heap h ++ [l; <[i:=rebound]> l] ∧
           list_property property (the_node h' node) =
             Items (<[i:=rebound]> l) ∧
           length (<[i:=rebound]> l) = length l ∧
           (∀ j, j ≠ i → <[i:=rebound]> l !! j = l !! j) ∧
           variables (document h') = variables (document h) ∧
           console h' = console h) ∧
  (∀ node property newVariable bindingIndex h,
     hasSetBoundVariable (the_node h node) = true →
     throws h (SetBoundVariable node property newVariable) = true →
     ∃ h', rebindVariable node property newVariable bindingIndex false h =
           (Normal false, h') ∧
           document h' = document h ∧
           console h' = console h ++
             [(LevelError,
               ["Failed to rebind variable:"; property; "host error"])]) ∧
  (∀ node property newVariable l i p h,
     list_property property (the_node h node) = Items l → l !! i = Some p →
     let rebound := mkPaint (paint_payload p) (Some newVariable) in
     throws h (bind_call property p newVariable) = true ∨
     throws h (SetListProperty node property (<[i:=rebound]> l)) = true →
     ∃ h', rebindVariable node property newVariable (Some i) true h =
           (Normal false, h') ∧
           document h' = document h ∧
           console h' = console h ++
             [(LevelError,
               ["Failed to rebind variable:"; property; "host error"])]).
Proof.
  split; [intros; apply rebindVariable_returns|].
  split.
  { intros node property v idx h Hcap.
    by rewrite rebindVariable_scalar, Hcap. }
  split.
  { intros node property v idx h Hp. apply rebindVariable_no_list.
    intros l. by rewrite list_property_unsupported. }
  split; [intros; by apply rebindVariable_no_list|].
  split.
  { intros node property v l i h Hl Hi. eexists.
    split; [by apply rebindVariable_out_of_range|done]. }
  split.
  { intros node property v l i p h Hl Hp Hbind rebound Hset.
    pose proof (rebindVariable_in_range node property v l i p h Hl Hp) as Hrun.
    simpl in Hrun. fold rebound in Hrun. rewrite Hbind, Hset in Hrun.
    eexists. split; [exact Hrun|].
    split; [reflexivity|]. split.
    - destruct (list_property_Items_node _ _ _ _ Hl) as (n & Hn & Hnode).
      unfold the_node, list_rebound. simpl. rewrite lookup_alter_eq, Hn. simpl.
      apply list_property_setter with (l := l). by rewrite <- Hnode.
    - split; [apply length_insert|]. split; [|done].
      intros j Hj. by apply list_lookup_insert_ne. }
  split.
  { intros node property v idx h Hcap Hthrow. eexists.
    rewrite rebindVariable_scalar, Hcap, Hthrow. done. }
  intros node property v l i p h Hl Hp rebound Hthrow.
  pose proof (rebindVariable_in_range node property v l i p h Hl Hp) as Hrun.
  simpl in Hrun. fold rebound in Hrun. rewrite Hrun.
  destruct (throws h (bind_call property p v)); [by eexists|].
  destruct Hthrow as [? | ->]; [done|]. by eexists.
Qed.

(** The fills binding of the sample card, rebound to another variable. *)
Example rebindVariable_card :
  let r := rebindVariable "card" "fills" "VariableID:2:1" (Some 0) true
             (Sample.host Sample.reliable) in
  fst r = Normal true ∧
  heap (snd r) =
    [[mkPaint "solid-a" (Some "VariableID:1:1"); mkPaint "solid-b" None];
     [mkPaint "solid-a" (Some "VariableID:2:1"); mkPaint "solid-b" None]] ∧
  fills (the_node (snd r) "card") =
    Items [mkPaint "solid-a" (Some "VariableID:2:1"); mkPaint "solid-b" None].
Proof. repeat split; vm_compute; reflexivity. Qed.

(** ** Facts about objects used as dictionaries *)

Section JsObjectFacts.
Context {V : Type}.
Implicit Types (o : list (string * V)) (k : string) (v : V).

Lemma get_set_eq o k v : JsObject.get (JsObject.set o k v) k = Some v.
Proof.
  induction o as [|[k' v'] o IH]; simpl.
  - by rewrite decide_True.
  - destruct (decide (k' = k)) as [->|Hne]; simpl.
    + by rewrite decide_True.
    + by rewrite decide_False.
Qed.

Lemma get_set_ne o k k' v :
  k ≠ k' → JsObject.get (JsObject.set o k v) k' = JsObject.get o k'.
Proof.
  intros Hne. induction o as [|[k0 v0] o IH]; simpl.
  - by rewrite decide_False.
  - destruct (decide (k0 = k)) as [->|Hne0]; simpl.
    + by rewrite !decide_False.
    + destruct (decide (k0 = k')); [reflexivity|exact IH].
Qed.

Lemma elem_of_keys o k : k ∈ JsObject.keys o ↔ is_Some (JsObject.get o k).
Proof.
  unfold JsObject.keys. induction o as [|[k' v'] o IH]; simpl.
  - split; [by intros ?%elem_of_nil|by intros [? ?]].
  - rewrite elem_of_cons. destruct (decide (k' = k)) as [->|Hne].
    + split; [by eauto|by left].
    + rewrite IH. split; [by intros [?|?]|by right].
Qed.

Lemma get_None_keys o k : JsObject.get o k = None ↔ k ∉ JsObject.keys o.
Proof. rewrite elem_of_keys, eq_None_not_Some. tauto. Qed.

Lemma keys_set o k v :
  ∀ k', k' ∈ JsObject.keys (JsObject.set o k v) ↔ k' = k ∨ k' ∈ JsObject.keys o.
Proof.
  intros k'. rewrite !elem_of_keys.
  destruct (decide (k = k')) as [->|Hne].
  - rewrite get_set_eq. split; [by left|by eauto].
  - rewrite get_set_ne by assumption. split; [by right|by intros [->|?]].
Qed.

Lemma length_keys_set o k v :
  length (JsObject.keys (JsObject.set o k v)) ≤ S (length (JsObject.keys o)).
Proof.
  unfold JsObject.keys. induction o as [|[k' v'] o IH]; simpl; [lia|].
  destruct (decide (k' = k)); simpl; lia.
Qed.

(** In an object every key occurs once, so the value under the [i]-th key
    is the [i]-th value. *)
Lemma get_nth_key o i k v :
  NoDup (JsObject.keys o) → o !! i = Some (k, v) → JsObject.get o k = Some v.
Proof.
  unfold JsObject.keys. revert i.
  induction o as [|[k' v'] o IH]; intros i Hnd Hi; [done|].
  simpl in *. apply NoDup_cons in Hnd as [Hnotin Hnd].
  destruct i as [|i]; simpl in Hi.
  - injection Hi as -> ->. by rewrite decide_True.
  - rewrite decide_False; [by eapply IH|].
    intros ->. apply Hnotin.
    apply list_elem_of_fmap. exists (k, v). split; [done|].
    by eapply list_elem_of_lookup_2.
Qed.
End JsObjectFacts.

(** ** Values of variables *)

#[global] Instance values_only_preorder : PreOrder values_only.
Proof.
  split.
  - intros h. unfold values_only. tauto.
  - intros h1 h2 h3. unfold values_only. intuition congruence.
Qed.

#[global] Instance writes_within_preorder W : PreOrder (writes_within W).
Proof.
  split.
  - by intros h variable mode _.
  - intros h1 h2 h3 H12 H23 variable mode HW.
    by rewrite H23, H12.
Qed.

Lemma preserves_weaken {A} (P Q : Host → Host → Prop) (m : Js A) :
  (∀ h h', P h h' → Q h h') → preserves P m → preserves Q m.
Proof. intros HPQ Hm h. apply HPQ, Hm. Qed.

Lemma emits_only_values_only h h' :
  emits_only h h' → notifications h' = notifications h →
  posted h' = posted h → closed h' = closed h → values_only h h'.
Proof.
  intros (Hd & Ht & Hh) Hn Hp Hc. unfold values_only. rewrite Hd. tauto.
Qed.

Lemma console_log_values args : preserves values_only (console_log args).
Proof. intros h. by apply emits_only_values_only. Qed.
Lemma console_warn_values args : preserves values_only (console_warn args).
Proof. intros h. by apply emits_only_values_only. Qed.
Lemma console_error_values args : preserves values_only (console_error args).
Proof. intros h. by apply emits_only_values_only. Qed.

Lemma console_log_writes W args : preserves (writes_within W) (console_log args).
Proof. by intros h variable mode _. Qed.
Lemma console_warn_writes W args : preserves (writes_within W) (console_warn args).
Proof. by intros h variable mode _. Qed.
Lemma console_error_writes W args :
  preserves (writes_within W) (console_error args).
Proof. by intros h variable mode _. Qed.

#[global] Hint Resolve console_log_values console_warn_values
  console_error_values console_log_writes console_warn_writes
  console_error_writes : frame.

Lemma erase_with_value m x v : erase_values (with_value m x v) = erase_values v.
Proof. reflexivity. Qed.

Lemma setValueForMode_values variable m x :
  preserves values_only (setValueForMode variable m x).
Proof.
  intros h. unfold setValueForMode, update_variable. js_unfold.
  destruct (throws h _); simpl; [reflexivity|].
  unfold values_only. simpl. split; [|tauto].
  apply map_eq. intros k. rewrite !lookup_fmap.
  destruct (decide (k = variable)) as [->|Hne].
  - rewrite lookup_alter_eq. by destruct (variables (document h) !! variable).
  - by rewrite lookup_alter_ne.
Qed.

Lemma setValueForMode_writes (W : string → string → Prop) variable m x :
  W variable m → preserves (writes_within W) (setValueForMode variable m x).
Proof.
  intros HW h. unfold setValueForMode, update_variable. js_unfold.
  destruct (throws h _); simpl; [reflexivity|].
  intros variable' mode Hn. unfold value_of. simpl.
  destruct (decide (variable' = variable)) as [->|Hne].
  - rewrite lookup_alter_eq.
    destruct (variables (document h) !! variable) as [v|]; [|done]. simpl.
    apply get_set_ne. by intros ->.
  - by rewrite lookup_alter_ne.
Qed.

Lemma createVariableAlias_untouched v :
  preserves untouched (createVariableAlias v).
Proof. unfold createVariableAlias. preserves_tac. Qed.
#[global] Hint Resolve createVariableAlias_untouched : frame.

Lemma untouched_any {A} (P : Host → Host → Prop) `{!Reflexive P} (m : Js A) :
  preserves untouched m → preserves P m.
Proof. intros Hm h. rewrite (Hm h). reflexivity. Qed.

Ltac frame_tac :=
  repeat first
    [ solve [auto 2 with frame]
    | lazymatch goal with
      | |- preserves ?P _ => solve [apply (untouched_any P); auto 2 with frame]
      end
    | preserves_step ].

#[global] Hint Resolve setValueForMode_values : frame.

(** ** Copying the values of one variable *)

Lemma copy_value_values originalVariable newVariable idMapping
    destinationMode originalValue :
  preserves values_only
    (copy_value originalVariable newVariable idMapping destinationMode
       originalValue).
Proof. unfold copy_value. frame_tac. Qed.

Lemma copy_value_writes (W : string → string → Prop) originalVariable
    newVariable idMapping destinationMode originalValue :
  W newVariable (modeId destinationMode) →
  preserves (writes_within W)
    (copy_value originalVariable newVariable idMapping destinationMode
       originalValue).
Proof.
  intros HW. unfold copy_value.
  pose proof (setValueForMode_writes W newVariable (modeId destinationMode))
    as Hset.
  frame_tac.
Qed.

Lemma copyVariableValues_at_values originalVariable newVariable
    destinationModes idMapping i :
  preserves values_only
    (copyVariableValues_at originalVariable newVariable destinationModes
       idMapping i).
Proof.
  unfold copyVariableValues_at. pose proof copy_value_values. frame_tac.
Qed.

Lemma copyVariableValues_values originalVariable newVariable
    destinationCollection idMapping :
  preserves values_only
    (copyVariableValues originalVariable newVariable destinationCollection
       idMapping).
Proof.
  unfold copyVariableValues. pose proof copyVariableValues_at_values.
  frame_tac.
Qed.
#[global] Hint Resolve copy_value_values copyVariableValues_values : frame.

(** *** The loop over the destination modes pairs by position *)

Lemma for_of_seq_lookup {A St} (l : list A) (f : St → A → Js St)
    (g : St → nat → Js St) (a : nat) (s : St) (h : Host) :
  (∀ s i x h, l !! i = Some x → g s (a + i) h = f s x h) →
  for_of (seq a (length l)) g s h = for_of l f s h.
Proof.
  revert a s h. induction l as [|x l IH]; intros a s h Hg; [reflexivity|].
  simpl length. simpl seq. rewrite !run_for_of_cons.
  rewrite <- (Hg s 0 x h eq_refl), Nat.add_0_r.
  destruct (g s a h) as [[s'|e] h']; [|reflexivity].
  apply IH. intros s0 i y h0 Hy.
  rewrite <- (Hg s0 (S i) y h0 Hy). f_equal. lia.
Qed.

Lemma for_of_skip {A S} (l : list A) (g : S → A → Js S) (s : S) (h : Host) :
  (∀ s x h, x ∈ l → g s x h = (Normal s, h)) →
  for_of l g s h = (Normal s, h).
Proof.
  revert s h. induction l as [|x l IH]; intros s h Hg; [reflexivity|].
  rewrite run_for_of_cons, Hg by left.
  apply IH. intros s0 y h0 Hy. apply Hg. by right.
Qed.

Lemma copyVariableValues_at_paired originalVariable newVariable
    destinationModes idMapping i destinationMode k v h :
  NoDup (JsObject.keys (valuesByMode originalVariable)) →
  destinationModes !! i = Some destinationMode →
  valuesByMode originalVariable !! i = Some (k, v) →
  copyVariableValues_at originalVariable newVariable destinationModes
    idMapping i h =
  copy_value originalVariable newVariable idMapping destinationMode v h.
Proof.
  intros Hnd Hm Hv. unfold copyVariableValues_at. rewrite Hm.
  unfold JsObject.keys at 1. rewrite list_lookup_fmap, Hv. simpl.
  by rewrite (get_nth_key _ i k v).
Qed.

Lemma copyVariableValues_at_beyond originalVariable newVariable
    destinationModes idMapping i h :
  length (valuesByMode originalVariable) ≤ i →
  copyVariableValues_at originalVariable newVariable destinationModes
    idMapping i h = (Normal tt, h).
Proof.
  intros Hi. unfold copyVariableValues_at.
  destruct (destinationModes !! i); [|reflexivity].
  unfold JsObject.keys. rewrite list_lookup_fmap.
  by rewrite (lookup_ge_None_2 _ i).
Qed.

Lemma copyVariableValues_positional originalVariable newVariable
    destinationCollection idMapping h :
  NoDup (JsObject.keys (valuesByMode originalVariable)) →
  copyVariableValues originalVariable newVariable destinationCollection
    idMapping h =
  copy_positional originalVariable newVariable destinationCollection
    idMapping h.
Proof.
  intros Hnd. unfold copyVariableValues, copy_positional.
  set (ms := modes destinationCollection).
  set (vs := valuesByMode originalVariable).
  set (n := length (zip ms vs)).
  assert (n ≤ length ms) as Hn by (unfold n; rewrite length_zip_with; lia).
  replace (length ms) with (n + (length ms - n)) by lia.
  rewrite seq_app, run_for_of_app. simpl.
  unfold n at 1.
  rewrite (for_of_seq_lookup (zip ms vs)
             (λ _ '(destinationMode, (_, originalValue)),
                copy_value originalVariable newVariable idMapping
                  destinationMode originalValue)).
  - destruct (for_of (zip ms vs) _ tt h) as [[[]|e] h']; [|reflexivity].
    apply for_of_skip. intros [] i h0 Hi.
    apply elem_of_seq in Hi as [Hi _].
    destruct (decide (length vs ≤ i)) as [Hle|Hgt].
    + by apply copyVariableValues_at_beyond.
    + unfold copyVariableValues_at. fold ms.
      rewrite (lookup_ge_None_2 ms i); [reflexivity|].
      unfold n in Hi. rewrite length_zip_with in Hi. lia.
  - intros [] i [dm [k v]] h0 Hi. simpl.
    apply lookup_zip_with_Some in Hi as (dm' & kv & Heq & Hdm & Hkv).
    injection Heq as <- <-.
    by apply copyVariableValues_at_paired with (k := k).
Qed.

(** *** What the copy writes *)

Lemma value_of_set (h : Host) (newVariable m : string) (x : Value) :
  is_Some (variables (document h) !! newVariable) →
  value_of (set_document (set_variables (alter (with_value m x) newVariable)) h)
    newVariable m = Some x.
Proof.
  intros [v Hv]. unfold value_of. simpl. rewrite lookup_alter_eq, Hv. simpl.
  apply get_set_eq.
Qed.

Lemma setValueForMode_run (h : Host) (newVariable m : string) (x : Value) :
  throws h (SetValueForMode newVariable m x) = false →
  setValueForMode newVariable m x h =
  (Normal tt,
   set_document (set_variables (alter (with_value m x) newVariable)) h).
Proof.
  intros Hok. unfold setValueForMode, update_variable. js_unfold.
  by rewrite Hok.
Qed.

Lemma values_only_lookup (h h' : Host) (k : string) :
  values_only h h' →
  erase_values <$> variables (document h') !! k =
  erase_values <$> variables (document h) !! k.
Proof. intros [He _]. by rewrite <- !lookup_fmap, He. Qed.

Lemma values_only_is_Some (h h' : Host) (k : string) :
  values_only h h' →
  is_Some (variables (document h) !! k) →
  is_Some (variables (document h') !! k).
Proof.
  intros Hv [v Hk]. pose proof (values_only_lookup h h' k Hv) as He.
  rewrite Hk in He. destruct (variables (document h') !! k); [by eauto|done].
Qed.

Lemma values_only_accepts (h h' : Host) (newVariable : string) :
  values_only h h' → accepts_writes h newVariable →
  accepts_writes h' newVariable.
Proof.
  intros Hv [Hs Ha]. destruct Hv as (_ & _ & _ & _ & _ & Ht & _).
  unfold accepts_writes. by rewrite Ht.
Qed.

Lemma values_only_rewritten (h h' : Host) idMapping (v : Value) :
  values_only h h' → rewritten idMapping h' v = rewritten idMapping h v.
Proof.
  intros Hv. destruct v as [| | | |r]; try reflexivity. simpl.
  destruct (JsObject.get idMapping r); [reflexivity|].
  pose proof (values_only_lookup h h' r Hv) as He.
  destruct Hv as (_ & _ & _ & _ & _ & -> & _).
  destruct (throws h (GetVariableById r)); [reflexivity|].
  destruct (variables (document h') !! r) as [v'|],
           (variables (document h) !! r) as [v|]; simpl in *; try done.
  injection He. intros. congruence.
Qed.

Lemma copy_value_run originalVariable newVariable idMapping destinationMode
    (originalValue : Value) (h : Host) :
  accepts_writes h newVariable →
  ∃ h', copy_value originalVariable newVariable idMapping destinationMode
          originalValue h = (Normal tt, h') ∧
        (is_Some (variables (document h) !! newVariable) →
         value_of h' newVariable (modeId destinationMode) =
         from_option Some (value_of h newVariable (modeId destinationMode))
           (rewritten idMapping h originalValue)).
Proof.
  intros [Hset Halias].
  assert (∀ x, x = originalValue →
            (∀ r, x ≠ VariableAlias r) →
            ∃ h', setValueForMode newVariable (modeId destinationMode) x h =
                  (Normal tt, h') ∧
                  (is_Some (variables (document h) !! newVariable) →
                   value_of h' newVariable (modeId destinationMode) =
                   Some x)) as Hlit.
  { intros x _ _. eexists. split; [by apply setValueForMode_run|].
    apply value_of_set. }
  destruct originalValue as [b|n|s|r g b a|r]; simpl;
    try (by apply Hlit).
  destruct (JsObject.get idMapping r) as [s|] eqn:Hidm.
  - unfold createVariableAlias. js_unfold. rewrite Halias. simpl.
    rewrite setValueForMode_run by apply Hset. simpl.
    eexists. split; [reflexivity|]. intros Hlive.
    unfold console_log, modify_host. simpl. by apply value_of_set.
  - unfold getVariableByIdAsync, createVariableAlias. js_unfold.
    destruct (throws h (GetVariableById r)) eqn:Hget; simpl.
    { by eexists. }
    destruct (variables (document h) !! r) as [rv|] eqn:Hr; simpl.
    + rewrite Halias. simpl.
      rewrite setValueForMode_run by apply Hset. simpl.
      eexists. split; [reflexivity|]. intros Hlive. by apply value_of_set.
    + by eexists.
Qed.

Lemma preserves_for_of_in (P : Host → Host → Prop) `{!PreOrder P} {A St}
    (l : list A) (body : St → A → Js St) (s : St) :
  (∀ s x, x ∈ l → preserves P (body s x)) → preserves P (for_of l body s).
Proof.
  revert s. induction l as [|x l IH]; intros s Hb.
  - apply (preserves_ret P).
  - apply (preserves_bind P); [apply Hb; left|].
    intros s'. apply IH. intros s0 y Hy. apply Hb. by right.
Qed.

Section CopyPairs.
Variables (originalVariable : DesignVariable) (newVariable : string).
Variable idMapping : list (string * string).

Let body : unit → Mode * (string * Value) → Js unit :=
  λ _ '(destinationMode, (_, originalValue)),
    copy_value originalVariable newVariable idMapping destinationMode
      originalValue.

Let mode_ids (pairs : list (Mode * (string * Value))) : list string :=
  map (λ p, modeId (fst p)) pairs.

Lemma copy_pairs_values pairs : preserves values_only (for_of pairs body tt).
Proof.
  apply (preserves_for_of values_only). intros [] [dm [k v]].
  apply copy_value_values.
Qed.

Lemma copy_pairs_writes pairs :
  preserves
    (writes_within (λ variable m, variable = newVariable ∧ m ∈ mode_ids pairs))
    (for_of pairs body tt).
Proof.
  apply preserves_for_of_in; [apply _|]. intros [] [dm [k v]] Hin.
  apply copy_value_writes. split; [reflexivity|].
  unfold mode_ids. apply list_elem_of_fmap. by exists (dm, (k, v)).
Qed.

Lemma copy_pairs_run pairs (h : Host) :
  NoDup (mode_ids pairs) →
  accepts_writes h newVariable →
  is_Some (variables (document h) !! newVariable) →
  ∃ h', for_of pairs body tt h = (Normal tt, h') ∧
        ∀ destinationMode k originalValue,
          (destinationMode, (k, originalValue)) ∈ pairs →
          value_of h' newVariable (modeId destinationMode) =
          from_option Some (value_of h newVariable (modeId destinationMode))
            (rewritten idMapping h originalValue).
Proof.
  revert h. induction pairs as [|[dm [k v]] pairs IH]; intros h Hnd Hacc Hlive.
  - exists h. split; [reflexivity|]. by intros ? ? ? ?%elem_of_nil.
  - simpl in Hnd. apply NoDup_cons in Hnd as [Hnotin Hnd].
    destruct (copy_value_run originalVariable newVariable idMapping dm v h
                Hacc) as (h1 & Hrun1 & Hval1).
    pose proof (copy_value_values originalVariable newVariable idMapping dm v
                  h) as Hvo.
    pose proof (copy_value_writes
                  (λ variable m, variable = newVariable ∧ m = modeId dm)
                  originalVariable newVariable idMapping dm v
                  (conj eq_refl eq_refl) h) as Hw1.
    rewrite Hrun1 in Hvo, Hw1. simpl in Hvo, Hw1.
    destruct (IH h1 Hnd) as (h' & Hrun & Hval).
    { by eapply values_only_accepts. }
    { by eapply values_only_is_Some. }
    exists h'. split.
    { rewrite run_for_of_cons. unfold body at 1. by rewrite Hrun1. }
    pose proof (copy_pairs_writes pairs h1) as Hw. rewrite Hrun in Hw.
    simpl in Hw.
    intros dm' k' v' Hin. apply elem_of_cons in Hin as [Heq|Hin].
    + injection Heq as -> -> ->.
      rewrite Hw by (intros [_ ?]; by apply Hnotin).
      by apply Hval1.
    + rewrite (Hval dm' k' v' Hin).
      rewrite (values_only_rewritten h h1) by assumption.
      rewrite Hw1; [reflexivity|].
      intros [_ Heq]. apply Hnotin. rewrite <- Heq.
      unfold mode_ids. apply list_elem_of_fmap. by exists (dm', (k', v')).
Qed.
End CopyPairs.

(** *** The whole copy of one variable *)

Lemma zip_mode_ids (ms : list Mode) (vs : list (string * Value)) :
  map (λ p : Mode * (string * Value), modeId (fst p)) (zip ms vs) =
  map modeId (take (length vs) ms).
Proof.
  revert vs. induction ms as [|m ms IH]; intros [|v vs]; simpl; try done.
  by rewrite IH.
Qed.

Lemma NoDup_mode_ids_take (ms : list Mode) (n : nat) :
  NoDup (map modeId ms) → NoDup (map modeId (take n ms)).
Proof.
  intros Hnd. apply (sublist_NoDup _ (map modeId ms)); [exact Hnd|].
  apply fmap_sublist, sublist_take.
Qed.

(** An equal mode identity at two positions of the destination's modes. *)
Lemma mode_ids_position (ms : list Mode) (i j : nat) (m m' : Mode) :
  NoDup (map modeId ms) → ms !! i = Some m → ms !! j = Some m' →
  modeId m = modeId m' → i = j.
Proof.
  intros Hnd Hi Hj Heq.
  eapply NoDup_lookup; [exact Hnd| |].
  - rewrite list_lookup_fmap, Hi. reflexivity.
  - rewrite list_lookup_fmap, Hj. simpl. by rewrite Heq.
Qed.

Lemma copyVariableValues_writes originalVariable newVariable
    destinationCollection idMapping :
  preserves
    (writes_within (λ variable m,
       variable = newVariable ∧
       paired_mode originalVariable destinationCollection m))
    (copyVariableValues originalVariable newVariable destinationCollection
       idMapping).
Proof.
  unfold copyVariableValues. apply preserves_for_of_in; [apply _|].
  intros [] i _. unfold copyVariableValues_at.
  destruct (modes destinationCollection !! i) as [dm|] eqn:Hdm;
    [|apply (preserves_ret _)].
  unfold JsObject.keys. rewrite list_lookup_fmap.
  destruct (valuesByMode originalVariable !! i) as [[k v]|] eqn:Hv;
    [|apply (preserves_ret _)].
  simpl. destruct (JsObject.get _ k); [|apply (preserves_ret _)].
  apply copy_value_writes. split; [reflexivity|].
  exists i, dm. split; [by eapply lookup_lt_Some|done].
Qed.

Lemma copyVariableValues_writes_variable originalVariable newVariable
    destinationCollection idMapping :
  preserves (writes_within (λ variable _, variable = newVariable))
    (copyVariableValues originalVariable newVariable destinationCollection
       idMapping).
Proof.
  eapply preserves_weaken; [|apply copyVariableValues_writes].
  intros h h' Hw variable m Hn. apply Hw. by intros [? _].
Qed.

Lemma copyVariableValues_run originalVariable newVariable
    destinationCollection idMapping (h : Host) :
  NoDup (JsObject.keys (valuesByMode originalVariable)) →
  NoDup (map modeId (modes destinationCollection)) →
  accepts_writes h newVariable →
  is_Some (variables (document h) !! newVariable) →
  ∃ h', copyVariableValues originalVariable newVariable
          destinationCollection idMapping h = (Normal tt, h') ∧
        ∀ i destinationMode k originalValue,
          modes destinationCollection !! i = Some destinationMode →
          valuesByMode originalVariable !! i = Some (k, originalValue) →
          value_of h' newVariable (modeId destinationMode) =
          from_option Some (value_of h newVariable (modeId destinationMode))
            (rewritten idMapping h originalValue).
Proof.
  intros Hkeys Hmodes Hacc Hlive.
  rewrite copyVariableValues_positional by assumption.
  unfold copy_positional.
  destruct (copy_pairs_run originalVariable newVariable idMapping
              (zip (modes destinationCollection)
                 (valuesByMode originalVariable)) h) as (h' & Hrun & Hval);
    [|assumption..|].
  { rewrite zip_mode_ids. by apply NoDup_mode_ids_take. }
  exists h'. split; [exact Hrun|].
  intros i dm k v Hdm Hv. apply (Hval dm k v).
  apply list_elem_of_lookup. exists i.
  apply lookup_zip_with_Some. by exists dm, (k, v).
Qed.

Lemma copyVariableValues_truncated originalVariable newVariable
    destinationCollection idMapping (h : Host) :
  NoDup (JsObject.keys (valuesByMode originalVariable)) →
  copyVariableValues originalVariable newVariable destinationCollection
    idMapping h =
  copyVariableValues
    (with_valuesByMode
       (take (length (modes destinationCollection))
          (valuesByMode originalVariable)) originalVariable)
    newVariable destinationCollection idMapping h.
Proof.
  intros Hkeys.
  rewrite (copyVariableValues_positional originalVariable) by assumption.
  rewrite copyVariableValues_positional.
  - unfold copy_positional. simpl.
    by rewrite zip_with_take_r by lia.
  - simpl. unfold JsObject.keys.
    apply (sublist_NoDup _ (fst <$> valuesByMode originalVariable));
      [exact Hkeys|apply fmap_sublist, sublist_take].
Qed.

(** C2.  The copy goes through the destination modes in order and gives the
    [i]-th of them the [i]-th entry of the original's mode-value mapping,
    whatever the mode identities are: it is the copy over the two lists
    zipped.  A destination mode past the original's entries keeps the value
    it had (none, on a new variable); original entries past the destination
    modes play no part.  When the host accepts the writes, each paired mode
    ends with the value made from the entry at its position. *)
Theorem copyVariableValues_by_position
    (originalVariable : DesignVariable) (newVariable : string)
    (destinationCollection : VariableCollection)
    (idMapping : list (string * string)) (h : Host) :
  NoDup (JsObject.keys (valuesByMode originalVariable)) →
  NoDup (map modeId (modes destinationCollection)) →
  let result :=
    copyVariableValues originalVariable newVariable destinationCollection
      idMapping h in
  result =
    copy_positional originalVariable newVariable destinationCollection
      idMapping h ∧
  (∀ i destinationMode,
     modes destinationCollection !! i = Some destinationMode →
     length (valuesByMode originalVariable) ≤ i →
     value_of (snd result) newVariable (modeId destinationMode) =
     value_of h newVariable (modeId destinationMode)) ∧
  result =
    copyVariableValues
      (with_valuesByMode
         (take (length (modes destinationCollection))
            (valuesByMode originalVariable)) originalVariable)
      newVariable destinationCollection idMapping h ∧
  (accepts_writes h newVariable →
   is_Some (variables (document h) !! newVariable) →
   fst result = Normal tt ∧
   ∀ i destinationMode k originalValue,
     modes destinationCollection !! i = Some destinationMode →
     valuesByMode originalVariable !! i = Some (k, originalValue) →
     value_of (snd result) newVariable (modeId destinationMode) =
     from_option Some (value_of h newVariable (modeId destinationMode))
       (rewritten idMapping h originalValue)).
Proof.
  intros Hkeys Hmodes result. unfold result.
  split; [by apply copyVariableValues_positional|].
  split.
  { intros i dm Hdm Hi.
    apply (copyVariableValues_writes originalVariable newVariable
             destinationCollection idMapping h).
    intros [_ (j & dm' & Hj & Hdm' & Heq)].
    assert (i = j) by (by eapply mode_ids_position). lia. }
  split; [by apply copyVariableValues_truncated|].
  intros Hacc Hlive.
  destruct (copyVariableValues_run originalVariable newVariable
              destinationCollection idMapping h Hkeys Hmodes Hacc Hlive)
    as (h' & -> & Hval).
  split; [reflexivity|exact Hval].
Qed.

(** The values of [spacing] (two modes) copied to a variable of a collection
    with three modes: the third mode stays without a value. *)
Lemma copyVariableValues_by_position_witness :
  NoDup (JsObject.keys (valuesByMode Sample.spacing)) ∧
  NoDup (map modeId (modes Sample.wide)) ∧
  let result :=
    copyVariableValues Sample.spacing "VariableID:2:1" Sample.wide []
      (Sample.host Sample.reliable) in
  fst result = Normal tt ∧
  value_of (snd result) "VariableID:2:1" "3:0" = Some (VNumber 8) ∧
  value_of (snd result) "VariableID:2:1" "3:1" = Some (VNumber 4) ∧
  value_of (snd result) "VariableID:2:1" "3:2" = None.
Proof.
  assert (NoDup (JsObject.keys (valuesByMode Sample.spacing))) as Hkeys
    by (apply (bool_decide_unpack _); vm_compute; reflexivity).
  assert (NoDup (map modeId (modes Sample.wide))) as Hmodes
    by (apply (bool_decide_unpack _); vm_compute; reflexivity).
  split; [exact Hkeys|]. split; [exact Hmodes|]. cbv zeta.
  destruct (copyVariableValues_by_position Sample.spacing "VariableID:2:1"
              Sample.wide [] (Sample.host Sample.reliable) Hkeys Hmodes)
    as (_ & Hunset & _ & Hcopied).
  destruct Hcopied as [Hret Hval].
  { split; reflexivity. }
  { vm_compute. by eexists. }
  split; [exact Hret|].
  split; [exact (Hval 0 (mkMode "3:0" "Small") "1:0" (VNumber 8)
                   eq_refl eq_refl)|].
  split; [exact (Hval 1 (mkMode "3:1" "Medium") "1:1" (VNumber 4)
                   eq_refl eq_refl)|].
  transitivity (value_of (Sample.host Sample.reliable) "VariableID:2:1" "3:2");
    [exact (Hunset 2 (mkMode "3:2" "Large") eq_refl (le_n 2))|].
  vm_compute. reflexivity.
Defined.

(** ** Aliases to variables that stay behind *)






(** ** Phase 1: the new variables *)

Lemma strip_prefix_app (p s : string) : strip_prefix p (p +:+ s) = Some s.
Proof.
  induction p as [|a p IH]; simpl; [reflexivity|].
  by rewrite decide_True.
Qed.

Lemma new_variable_id_fresh (used : gset string) : new_variable_id used ∉ used.
Proof.
  unfold new_variable_id.
  set (suffixes := list_to_set _ : gset string).
  intros Hin. apply (is_fresh suffixes). unfold suffixes at 2.
  apply elem_of_list_to_set, list_elem_of_omap.
  eexists. split; [by apply elem_of_elements|].
  apply strip_prefix_app.
Qed.

#[global] Instance alters_within_preorder S : PreOrder (alters_within S).
Proof.
  split.
  - by intros h k _.
  - intros h1 h2 h3 H12 H23 k Hk. by rewrite H23, H12.
Qed.

#[global] Instance scene_kept_preorder : PreOrder scene_kept.
Proof.
  split.
  - intros h. unfold scene_kept. tauto.
  - intros h1 h2 h3. unfold scene_kept. intuition congruence.
Qed.

#[global] Instance metadata_only_preorder : PreOrder metadata_only.
Proof.
  split; [by intros h|].
  intros h1 h2 h3. unfold metadata_only. congruence.
Qed.

(** An update of one variable. *)
Lemma update_variable_alters (S : string → Prop) variable f :
  S variable → preserves (alters_within S) (update_variable variable f).
Proof.
  intros HS h k Hk. simpl. rewrite lookup_alter_ne; [reflexivity|].
  by intros ->.
Qed.

Lemma update_variable_scene variable f :
  preserves scene_kept (update_variable variable f).
Proof. intros h. unfold scene_kept. simpl. tauto. Qed.

Lemma update_variable_metadata variable f :
  (∀ v, erase_metadata (f v) = erase_metadata v) →
  preserves metadata_only (update_variable variable f).
Proof.
  intros Hf h. unfold metadata_only. simpl.
  apply map_eq. intros k. rewrite !lookup_fmap.
  destruct (decide (k = variable)) as [->|Hne].
  - rewrite lookup_alter_eq.
    destruct (variables (document h) !! variable); simpl; [|done].
    by rewrite Hf.
  - by rewrite lookup_alter_ne.
Qed.
#[global] Hint Resolve update_variable_scene : frame.

Lemma console_log_scene args : preserves scene_kept (console_log args).
Proof. intros h. unfold scene_kept. simpl. tauto. Qed.
Lemma console_warn_scene args : preserves scene_kept (console_warn args).
Proof. intros h. unfold scene_kept. simpl. tauto. Qed.
Lemma console_error_scene args : preserves scene_kept (console_error args).
Proof. intros h. unfold scene_kept. simpl. tauto. Qed.
Lemma console_log_alters S args : preserves (alters_within S) (console_log args).
Proof. by intros h k _. Qed.
Lemma console_warn_alters S args : preserves (alters_within S) (console_warn args).
Proof. by intros h k _. Qed.
Lemma console_error_alters S args :
  preserves (alters_within S) (console_error args).
Proof. by intros h k _. Qed.
#[global] Hint Resolve console_log_scene console_warn_scene console_error_scene
  console_log_alters console_warn_alters console_error_alters : frame.

Lemma createVariableInCollection_unfold originalVariable destinationCollection :
  createVariableInCollection originalVariable destinationCollection =
  (newVariable ← createVariable (name originalVariable) destinationCollection
                   (resolvedType originalVariable);
   copy_metadata originalVariable newVariable).
Proof. reflexivity. Qed.

Lemma copy_metadata_alters originalVariable newVariable :
  preserves (alters_within (λ k, k = newVariable))
    (copy_metadata originalVariable newVariable).
Proof.
  unfold copy_metadata, set_description, set_hiddenFromPublishing, set_scopes,
    setVariableCodeSyntax.
  pose proof (λ f, update_variable_alters (λ k, k = newVariable) newVariable f
                     eq_refl).
  frame_tac.
Qed.

Lemma copy_metadata_scene originalVariable newVariable :
  preserves scene_kept (copy_metadata originalVariable newVariable).
Proof.
  unfold copy_metadata, set_description, set_hiddenFromPublishing, set_scopes,
    setVariableCodeSyntax.
  frame_tac.
Qed.

Lemma copy_metadata_metadata originalVariable newVariable :
  preserves metadata_only (copy_metadata originalVariable newVariable).
Proof.
  unfold copy_metadata, set_description, set_hiddenFromPublishing, set_scopes,
    setVariableCodeSyntax.
  pose proof (λ s, update_variable_metadata newVariable (with_description s)
                     (λ _, eq_refl)).
  pose proof (λ s, update_variable_metadata newVariable
                     (with_hiddenFromPublishing s) (λ _, eq_refl)).
  pose proof (λ s, update_variable_metadata newVariable (with_scopes s)
                     (λ _, eq_refl)).
  pose proof (λ p s, update_variable_metadata newVariable (with_codeSyntax p s)
                       (λ _, eq_refl)).
  frame_tac.
Qed.

Lemma yields_ret {A} (Q : A → Prop) (a : A) : Q a → yields Q (mret a : Js A).
Proof. intros HQ h a' h' Hrun. by injection Hrun as <- _. Qed.

Lemma yields_bind {A B} (Q : B → Prop) (m : Js A) (f : A → Js B) :
  (∀ a, yields Q (f a)) → yields Q (m ≫= f).
Proof.
  intros Hf h b h' Hrun. rewrite run_bind in Hrun.
  destruct (m h) as [[a|e] h1]; [by eapply Hf|discriminate].
Qed.

Lemma bind_normal_inv {A B} (m : Js A) (f : A → Js B) (h h' : Host) (b : B) :
  (m ≫= f) h = (Normal b, h') →
  ∃ a h1, m h = (Normal a, h1) ∧ f a h1 = (Normal b, h').
Proof.
  rewrite run_bind. destruct (m h) as [[a|e] h1]; [by eauto|discriminate].
Qed.

Lemma copy_metadata_result originalVariable newVariable :
  yields (λ r, r = newVariable) (copy_metadata originalVariable newVariable).
Proof.
  unfold copy_metadata. repeat (apply yields_bind; intros ?).
  by apply yields_ret.
Qed.

Lemma createVariable_run name destinationCollection resolvedType (h : Host) :
  throws h (CreateVariable name (coll_id destinationCollection) resolvedType)
    = false →
  let newId := new_variable_id (dom (variables (document h))) in
  createVariable name destinationCollection resolvedType h =
  (Normal newId,
   set_document (λ d,
     set_collections
       (alter (add_variableId newId) (coll_id destinationCollection))
       (set_variables
          (insert newId
             (new_shell newId name resolvedType
                (coll_id destinationCollection))) d)) h).
Proof. intros Hok. unfold createVariable. js_unfold. by rewrite Hok. Qed.

Lemma createVariable_raises name destinationCollection resolvedType (h : Host) :
  throws h (CreateVariable name (coll_id destinationCollection) resolvedType)
    = true →
  createVariable name destinationCollection resolvedType h =
  (Thrown "host error", h).
Proof. intros Hno. unfold createVariable. js_unfold. by rewrite Hno. Qed.

Lemma createVariableInCollection_spec originalVariable destinationCollection
    (h : Host) :
  let result :=
    createVariableInCollection originalVariable destinationCollection h in
  scene_kept h (snd result) ∧
  (∀ k v, variables (document h) !! k = Some v →
          variables (document (snd result)) !! k = Some v) ∧
  (∀ k v, variables (document (snd result)) !! k = Some v →
          variables (document h) !! k = None → id v = k) ∧
  (∀ newVariable, fst result = Normal newVariable →
     variables (document h) !! newVariable = None ∧
     ∃ shell, variables (document (snd result)) !! newVariable = Some shell ∧
              is_shell_of originalVariable destinationCollection newVariable
                shell).
Proof.
  intros result. unfold result. clear result.
  rewrite createVariableInCollection_unfold, run_bind.
  destruct (throws h (CreateVariable (name originalVariable)
              (coll_id destinationCollection) (resolvedType originalVariable)))
    eqn:Hcreate.
  { rewrite createVariable_raises by assumption. simpl.
    split; [reflexivity|]. split; [done|]. split; [congruence|done]. }
  rewrite createVariable_run by assumption. simpl.
  set (newId := new_variable_id (dom (variables (document h)))).
  set (h1 := set_document _ h).
  assert (variables (document h) !! newId = None) as Hfresh.
  { apply not_elem_of_dom, new_variable_id_fresh. }
  pose proof (copy_metadata_alters originalVariable newId h1) as Halt.
  pose proof (copy_metadata_scene originalVariable newId h1) as Hscene.
  pose proof (copy_metadata_metadata originalVariable newId h1) as Hmeta.
  pose proof (copy_metadata_result originalVariable newId h1) as Hres.
  destruct (copy_metadata originalVariable newId h1) as [r h'] eqn:Hrun.
  simpl in *.
  assert (erase_metadata <$> variables (document h') !! newId =
          Some (erase_metadata (new_shell newId (name originalVariable)
                  (resolvedType originalVariable)
                  (coll_id destinationCollection)))) as Hshell.
  { rewrite <- lookup_fmap, Hmeta, lookup_fmap. unfold h1. simpl.
    by rewrite lookup_insert_eq. }
  split; [|split; [|split]].
  - etrans; [|exact Hscene]. unfold scene_kept, h1. simpl. tauto.
  - intros k v Hk. rewrite Halt by (intros ->; congruence).
    unfold h1. simpl. rewrite lookup_insert_ne by (intros ->; congruence).
    exact Hk.
  - intros k v Hk Hnone. destruct (decide (k = newId)) as [->|Hne].
    + rewrite Hk in Hshell. simpl in Hshell. injection Hshell. by intros.
    + rewrite Halt in Hk by assumption. unfold h1 in Hk. simpl in Hk.
      rewrite lookup_insert_ne in Hk by done. congruence.
  - intros newVariable Hnormal. destruct r as [r|e]; [|discriminate].
    injection Hnormal as ->. rewrite (Hres _ _ eq_refl).
    split; [exact Hfresh|].
    destruct (variables (document h') !! newId) as [shell|]; [|discriminate].
    exists shell. split; [reflexivity|].
    simpl in Hshell. injection Hshell. unfold is_shell_of. by intros.
Qed.

Lemma phase1_step_run destinationCollection (acc : Created)
    (originalVariable : DesignVariable) (h : Host) :
  phase1_step destinationCollection acc originalVariable h =
  match createVariableInCollection originalVariable destinationCollection h
  with
  | (Normal newVariable, h') =>
      (Normal (mkCreated
         (JsObject.set (idMapping acc) (id originalVariable) newVariable)
         (S (createSuccessCount acc)) (createErrorCount acc)),
       snd (console_log ["  Created:"; name originalVariable] h'))
  | (Thrown error, h') =>
      (Normal (mkCreated (idMapping acc) (createSuccessCount acc)
                 (S (createErrorCount acc))),
       snd (console_error ["  Failed to create:"; name originalVariable;
                           error] h'))
  end.
Proof.
  unfold phase1_step. rewrite run_try_catch, run_bind.
  by destruct (createVariableInCollection _ _ h) as [[newVariable|e] h'].
Qed.

Lemma shells_created_emits safeToMove destinationCollection h0 h h' idMapping :
  document h' = document h →
  shells_created safeToMove destinationCollection h0 h idMapping →
  shells_created safeToMove destinationCollection h0 h' idMapping.
Proof. intros Hd. unfold shells_created. by rewrite Hd. Qed.

Lemma phase1_step_spec safeToMove destinationCollection (h0 h : Host)
    (acc : Created) (originalVariable : DesignVariable) :
  originalVariable ∈ safeToMove →
  shells_created safeToMove destinationCollection h0 h (idMapping acc) →
  ∃ acc' h',
    phase1_step destinationCollection acc originalVariable h =
      (Normal acc', h') ∧
    scene_kept h h' ∧
    shells_created safeToMove destinationCollection h0 h' (idMapping acc') ∧
    createSuccessCount acc' + createErrorCount acc' =
      S (createSuccessCount acc + createErrorCount acc) ∧
    (length (JsObject.keys (idMapping acc')) + createSuccessCount acc ≤
       length (JsObject.keys (idMapping acc)) + createSuccessCount acc') ∧
    (∀ k, k ∈ JsObject.keys (idMapping acc') →
          k = id originalVariable ∨ k ∈ JsObject.keys (idMapping acc)).
Proof.
  intros Hin (Hgrow & Hwf & Hmap & Hinj).
  rewrite phase1_step_run.
  destruct (createVariableInCollection_spec originalVariable
              destinationCollection h) as (Hscene & Hgrow' & Hwf' & Hnew).
  destruct (createVariableInCollection originalVariable destinationCollection
              h) as [[newVariable|e] h'] eqn:Hrun; simpl in *.
  - destruct (Hnew newVariable eq_refl) as (Hfresh & shell & Hshell & Hof).
    eexists _, _. split; [reflexivity|]. simpl.
    split; [etrans; [exact Hscene|]; unfold scene_kept; simpl; tauto|].
    split; [|split; [lia|split]].
    + apply (shells_created_emits _ _ _ h'); [reflexivity|].
      split; [by auto|]. split.
      { intros k v Hk Hnone.
        destruct (variables (document h) !! k) as [v'|] eqn:Hk'.
        - rewrite (Hgrow' k v' Hk') in Hk. injection Hk as <-.
          by apply Hwf.
        - by apply Hwf'. }
      split.
      { intros k s Hk.
        destruct (decide (id originalVariable = k)) as [<-|Hne].
        - rewrite get_set_eq in Hk. injection Hk as <-. split.
          + destruct (variables (document h0) !! newVariable) eqn:H0;
              [|reflexivity].
            apply Hgrow in H0. congruence.
          + by exists originalVariable, shell.
        - rewrite get_set_ne in Hk by assumption.
          destruct (Hmap k s Hk) as (Hfree & o & sh & Ho & Hid & Hsh & Hof').
          split; [exact Hfree|]. exists o, sh. by auto. }
      intros k k' s Hk Hk'.
      assert (∀ k1, JsObject.get (idMapping acc) k1 ≠ Some newVariable)
        as Hnot.
      { intros k1 Hk1.
        destruct (Hmap k1 _ Hk1) as (_ & o & sh & _ & _ & Hsh & _).
        congruence. }
      destruct (decide (id originalVariable = k)) as [<-|Hne];
        destruct (decide (id originalVariable = k')) as [<-|Hne'].
      * reflexivity.
      * rewrite get_set_eq in Hk. rewrite get_set_ne in Hk' by assumption.
        injection Hk as <-. by destruct (Hnot k').
      * rewrite get_set_eq in Hk'. rewrite get_set_ne in Hk by assumption.
        injection Hk' as <-. by destruct (Hnot k).
      * rewrite get_set_ne in Hk, Hk' by assumption. by eapply Hinj.
    + pose proof (length_keys_set (idMapping acc) (id originalVariable)
                    newVariable). lia.
    + intros k Hk. by apply keys_set in Hk.
  - eexists _, _. split; [reflexivity|]. simpl.
    split; [etrans; [exact Hscene|]; unfold scene_kept; simpl; tauto|].
    split; [|split; [lia|split; [lia|by right]]].
    apply (shells_created_emits _ _ _ h'); [reflexivity|].
    split; [by auto|]. split.
    { intros k v Hk Hnone.
      destruct (variables (document h) !! k) as [v'|] eqn:Hk'.
      - rewrite (Hgrow' k v' Hk') in Hk. injection Hk as <-. by apply Hwf.
      - by apply Hwf'. }
    split; [|exact Hinj].
    intros k s Hk.
    destruct (Hmap k s Hk) as (Hfree & o & sh & Ho & Hid & Hsh & Hof').
    split; [exact Hfree|]. exists o, sh. by auto.
Qed.

Lemma phase1_loop safeToMove destinationCollection (h0 : Host)
    (l : list DesignVariable) (acc : Created) (h : Host) :
  (∀ o, o ∈ l → o ∈ safeToMove) →
  shells_created safeToMove destinationCollection h0 h (idMapping acc) →
  ∃ created h1,
    for_of l (phase1_step destinationCollection) acc h = (Normal created, h1) ∧
    scene_kept h h1 ∧
    shells_created safeToMove destinationCollection h0 h1
      (idMapping created) ∧
    createSuccessCount created + createErrorCount created =
      length l + (createSuccessCount acc + createErrorCount acc) ∧
    (length (JsObject.keys (idMapping created)) + createSuccessCount acc ≤
       length (JsObject.keys (idMapping acc)) + createSuccessCount created) ∧
    (∀ k, k ∈ JsObject.keys (idMapping created) →
          k ∈ map id l ∨ k ∈ JsObject.keys (idMapping acc)).
Proof.
  revert acc h. induction l as [|o l IH]; intros acc h Hsub Hinv.
  - exists acc, h. split; [reflexivity|]. split; [reflexivity|].
    split; [exact Hinv|]. split; [simpl; lia|]. split; [lia|by right].
  - destruct (phase1_step_spec safeToMove destinationCollection h0 h acc o)
      as (acc1 & h1 & Hrun1 & Hscene1 & Hinv1 & Hcount1 & Hkeys1 & Hdom1);
      [apply Hsub; left|exact Hinv|].
    destruct (IH acc1 h1) as (created & h' & Hrun & Hscene & Hinv' & Hcount
                               & Hkeys & Hdom);
      [intros o' Ho'; apply Hsub; by right|exact Hinv1|].
    exists created, h'. rewrite run_for_of_cons, Hrun1.
    split; [exact Hrun|]. split; [by etrans|]. split; [exact Hinv'|].
    split; [simpl; lia|]. split; [lia|].
    intros k Hk. destruct (Hdom k Hk) as [Hl|Hacc1].
    + left. simpl. by right.
    + destruct (Hdom1 k Hacc1) as [->|Hacc]; [left; simpl; by left|by right].
Qed.

Lemma phase1_spec safeToMove destinationCollection (h0 : Host) :
  ∃ created h1,
    phase1 safeToMove destinationCollection h0 = (Normal created, h1) ∧
    scene_kept h0 h1 ∧
    shells_created safeToMove destinationCollection h0 h1
      (idMapping created) ∧
    createSuccessCount created + createErrorCount created =
      length safeToMove ∧
    length (JsObject.keys (idMapping created)) ≤ createSuccessCount created ∧
    (∀ k, k ∈ JsObject.keys (idMapping created) → k ∈ map id safeToMove).
Proof.
  unfold phase1.
  destruct (phase1_loop safeToMove destinationCollection h0 safeToMove
              (mkCreated [] 0 0) h0)
    as (created & h1 & Hrun & Hscene & Hinv & Hcount & Hkeys & Hdom).
  { done. }
  { split; [done|]. split; [congruence|]. split; [done|done]. }
  exists created, h1. split; [exact Hrun|]. split; [exact Hscene|].
  split; [exact Hinv|]. simpl in *. split; [lia|]. split; [lia|].
  intros k Hk. destruct (Hdom k Hk) as [?|Hnil]; [done|].
  by apply elem_of_nil in Hnil.
Qed.

(** ** Phase 2: the values *)

Lemma setValueForMode_alters (S : string → Prop) variable m x :
  S variable → preserves (alters_within S) (setValueForMode variable m x).
Proof.
  intros HS. unfold setValueForMode.
  pose proof (update_variable_alters S variable (with_value m x) HS).
  frame_tac.
Qed.

Lemma copyVariableValues_alters (S : string → Prop) originalVariable
    newVariable destinationCollection idMapping :
  S newVariable →
  preserves (alters_within S)
    (copyVariableValues originalVariable newVariable destinationCollection
       idMapping).
Proof.
  intros HS. unfold copyVariableValues, copyVariableValues_at, copy_value.
  pose proof (setValueForMode_alters S newVariable) as Hset.
  frame_tac.
Qed.

Lemma phase2_step_run destinationCollection idMapping (acc : Copied)
    (originalVariable : DesignVariable) (h : Host) :
  phase2_step destinationCollection idMapping acc originalVariable h =
  match JsObject.get idMapping (id originalVariable) with
  | None =>
      (Normal (mkCopied (valueSuccessCount acc) (S (valueErrorCount acc))),
       snd (console_error ["  No new variable found for:";
                           name originalVariable] h))
  | Some newVariable =>
      match copyVariableValues originalVariable newVariable
              destinationCollection idMapping h with
      | (Normal _, h') =>
          (Normal (mkCopied (S (valueSuccessCount acc)) (valueErrorCount acc)),
           snd (console_log ["  Copied values:"; name originalVariable] h'))
      | (Thrown error, h') =>
          (Normal (mkCopied (valueSuccessCount acc) (S (valueErrorCount acc))),
           snd (console_error ["  Failed to copy values:";
                               name originalVariable; error] h'))
      end
  end.
Proof.
  unfold phase2_step. destruct (JsObject.get idMapping _); [|reflexivity].
  rewrite run_try_catch, run_bind.
  by destruct (copyVariableValues _ _ _ _ h) as [[[]|e] h'].
Qed.

Lemma phase2_step_values destinationCollection idMapping acc originalVariable :
  preserves values_only
    (phase2_step destinationCollection idMapping acc originalVariable).
Proof. unfold phase2_step. frame_tac. Qed.

Lemma phase2_step_alters destinationCollection idMapping acc originalVariable :
  preserves (alters_within (is_shell idMapping))
    (phase2_step destinationCollection idMapping acc originalVariable).
Proof.
  unfold phase2_step.
  destruct (JsObject.get idMapping (id originalVariable)) as [new|] eqn:Hget;
    [|frame_tac].
  pose proof (copyVariableValues_alters (is_shell idMapping) originalVariable
                new destinationCollection idMapping
                (ex_intro _ _ Hget)).
  frame_tac.
Qed.

Lemma phase2_values safeToMove destinationCollection idMapping :
  preserves values_only (phase2 safeToMove destinationCollection idMapping).
Proof.
  unfold phase2. apply (preserves_for_of values_only). intros acc o.
  apply phase2_step_values.
Qed.

Lemma phase2_alters safeToMove destinationCollection idMapping :
  preserves (alters_within (is_shell idMapping))
    (phase2 safeToMove destinationCollection idMapping).
Proof.
  unfold phase2. apply (preserves_for_of (alters_within _)). intros acc o.
  apply phase2_step_alters.
Qed.

Lemma phase2_returns safeToMove destinationCollection idMapping :
  returns (phase2 safeToMove destinationCollection idMapping).
Proof.
  unfold phase2. apply for_of_returns. intros acc o h.
  rewrite phase2_step_run.
  destruct (JsObject.get idMapping (id o)); [|by eexists _, _].
  destruct (copyVariableValues _ _ _ _ h) as [[[]|e] h']; by eexists _, _.
Qed.

Section Phase2Value.
Variables (safeToMove : list DesignVariable).
Variable destinationCollection : VariableCollection.
Variable idMapping : list (string * string).
Variables (h0 h1 : Host).
Variables (B : DesignVariable) (sB : string).
Variables (i : nat) (destinationMode : Mode) (k : string) (v : Value).

Hypothesis originals_live :
  ∀ o, o ∈ safeToMove → variables (document h0) !! id o = Some o.
Hypothesis created :
  shells_created safeToMove destinationCollection h0 h1 idMapping.
Hypothesis modes_distinct : NoDup (map modeId (modes destinationCollection)).
Hypothesis keys_distinct : NoDup (JsObject.keys (valuesByMode B)).
Hypothesis B_selected : B ∈ safeToMove.
Hypothesis B_shell : JsObject.get idMapping (id B) = Some sB.
Hypothesis at_mode : modes destinationCollection !! i = Some destinationMode.
Hypothesis at_value : valuesByMode B !! i = Some (k, v).
Hypothesis accepted : accepts_writes h1 sB.

(** The value Phase 2 leaves in the shell of [B] for the mode at [i]. *)
Let target : option Value :=
  from_option Some (value_of h1 sB (modeId destinationMode))
    (rewritten idMapping h1 v).

Let settled (h : Host) : Prop :=
  value_of h sB (modeId destinationMode) = target.

Lemma shell_of_B_live : is_Some (variables (document h1) !! sB).
Proof.
  destruct created as (_ & _ & Hmap & _).
  destruct (Hmap _ _ B_shell) as (_ & o & shell & _ & _ & Hshell & _).
  by eauto.
Qed.

Lemma same_shell_same_variable (o : DesignVariable) :
  o ∈ safeToMove → JsObject.get idMapping (id o) = Some sB → o = B.
Proof.
  intros Ho Hget. destruct created as (_ & _ & _ & Hinj).
  pose proof (Hinj _ _ _ Hget B_shell) as Hid.
  pose proof (originals_live o Ho) as Hlo.
  pose proof (originals_live B B_selected) as HlB.
  rewrite Hid in Hlo. congruence.
Qed.

Lemma phase2_step_settles (acc : Copied) (o : DesignVariable) (h : Host) :
  o ∈ safeToMove → values_only h1 h →
  settled h ∨ (o = B ∧ is_Some (rewritten idMapping h1 v)) →
  settled (snd (phase2_step destinationCollection idMapping acc o h)).
Proof.
  intros Ho Hvo Hpre. rewrite phase2_step_run.
  destruct (JsObject.get idMapping (id o)) as [sO|] eqn:Hget.
  - destruct (decide (sO = sB)) as [->|Hne].
    + assert (o = B) as -> by (by apply same_shell_same_variable).
      destruct (copyVariableValues_run B sB destinationCollection idMapping h
                  keys_distinct modes_distinct) as (h' & Hrun & Hval).
      { by eapply values_only_accepts. }
      { eapply values_only_is_Some; [exact Hvo|apply shell_of_B_live]. }
      rewrite Hrun. unfold settled. simpl.
      change (value_of h' sB (modeId destinationMode) = target).
      rewrite (Hval i destinationMode k v at_mode at_value).
      rewrite (values_only_rewritten h1 h) by assumption.
      unfold target.
      destruct (rewritten idMapping h1 v) as [x|] eqn:Hrw; [reflexivity|].
      simpl. destruct Hpre as [Hs|[_ [? ?]]]; [|discriminate].
      unfold settled, target in Hs. exact Hs.
    + assert (settled h) as Hs.
      { destruct Hpre as [Hs|[-> _]]; [exact Hs|]. congruence. }
      pose proof (copyVariableValues_writes_variable o sO destinationCollection
                    idMapping h) as Hw.
      destruct (copyVariableValues o sO destinationCollection idMapping h)
        as [[[]|e] h']; unfold settled; simpl in *;
        change (value_of h' sB (modeId destinationMode) = target);
        by rewrite Hw.
  - assert (settled h) as Hs.
    { destruct Hpre as [Hs|[-> _]]; [exact Hs|]. congruence. }
    exact Hs.
Qed.

Lemma phase2_loop_settles (l : list DesignVariable) (acc : Copied) (h : Host) :
  (∀ o, o ∈ l → o ∈ safeToMove) → values_only h1 h →
  settled h ∨ (B ∈ l ∧ is_Some (rewritten idMapping h1 v)) →
  settled
    (snd (for_of l (phase2_step destinationCollection idMapping) acc h)).
Proof.
  revert acc h. induction l as [|o l IH]; intros acc h Hsub Hvo Hpre.
  - simpl. destruct Hpre as [Hs|[Hin _]]; [exact Hs|].
    by apply elem_of_nil in Hin.
  - rewrite run_for_of_cons.
    pose proof (phase2_step_values destinationCollection idMapping acc o h)
      as Hvo'.
    pose proof (phase2_step_settles acc o h) as Hstep.
    pose proof (phase2_returns [o] destinationCollection idMapping h) as Hret.
    destruct (phase2_step destinationCollection idMapping acc o h)
      as [[acc'|e] h'] eqn:Hrun; simpl in *.
    + apply IH; [by intros o' Ho'; apply Hsub; right|by etrans|].
      destruct Hpre as [Hs|[Hin Hrw]].
      * left. apply Hstep; [apply Hsub; left|exact Hvo|by left].
      * apply elem_of_cons in Hin as [->|Hin].
        -- left. apply Hstep; [apply Hsub; left|exact Hvo|by right].
        -- right. by split.
    + exfalso. rewrite phase2_step_run in Hrun.
      destruct (JsObject.get idMapping (id o)); [|discriminate].
      by destruct (copyVariableValues _ _ _ _ h) as [[[]|?] ?].
Qed.

Lemma phase2_settles :
  value_of (snd (phase2 safeToMove destinationCollection idMapping h1)) sB
    (modeId destinationMode) =
  from_option Some (value_of h1 sB (modeId destinationMode))
    (rewritten idMapping h1 v).
Proof.
  apply (phase2_loop_settles safeToMove (mkCopied 0 0) h1).
  - done.
  - reflexivity.
  - unfold settled, target.
    destruct (rewritten idMapping h1 v) as [x|] eqn:Hrw.
    + right. split; [exact B_selected|by eauto].
    + by left.
Qed.
End Phase2Value.

(** ** Phases 1 and 2 together *)

(** The run of [create_and_copy]: Phase 1 ends in a host in which, after the
    console output, Phase 2 starts ([h1]), and the result is what Phase 2
    leaves, up to console output. *)
Lemma create_and_copy_spec selectedVariableIds duplicates safeToMove
    destinationCollection (h0 : Host) :
  ∃ created copied h1 h2' h2,
    create_and_copy selectedVariableIds duplicates safeToMove
      destinationCollection h0 = (Normal (created, copied), h2) ∧
    shells_created safeToMove destinationCollection h0 h1
      (idMapping created) ∧
    throws h1 = throws h0 ∧
    nodes (document h1) = nodes (document h0) ∧
    pages (document h1) = pages (document h0) ∧
    heap h1 = heap h0 ∧
    posted h1 = posted h0 ∧
    createSuccessCount created + createErrorCount created =
      length safeToMove ∧
    length (JsObject.keys (idMapping created)) ≤ createSuccessCount created ∧
    (∀ k, k ∈ JsObject.keys (idMapping created) → k ∈ map id safeToMove) ∧
    phase2 safeToMove destinationCollection (idMapping created) h1 =
      (Normal copied, h2') ∧
    emits_only h2' h2 ∧ posted h2 = posted h2' ∧
    notifications h2 = notifications h2'.
Proof.
  unfold create_and_copy. repeat (rewrite run_bind; simpl).
  lazymatch goal with
  | |- context [phase1 safeToMove destinationCollection ?h] =>
      destruct (phase1_spec safeToMove destinationCollection h)
        as (created & h1 & Hrun1 & Hscene & Hinv & Hcount & Hkeys & Hdom);
      rewrite Hrun1
  end.
  repeat (rewrite run_bind; simpl).
  lazymatch goal with
  | |- context [phase2 safeToMove destinationCollection (idMapping created)
                  ?h] =>
      destruct (phase2_returns safeToMove destinationCollection
                  (idMapping created) h) as (copied & h2' & Hrun2);
      rewrite Hrun2;
      exists created, copied, h, h2'
  end.
  eexists. split; [reflexivity|].
  destruct Hscene as (Hn & Hp & Ht & Hh & Hnt & Hpo & Hc).
  split.
  { apply (shells_created_emits _ _ _ h1); [reflexivity|].
    unfold shells_created in *. exact Hinv. }
  repeat (split; [done|]). done.
Qed.

Lemma values_only_emits (h h' : Host) : emits_only h h' → document h' = document h.
Proof. by intros [? _]. Qed.

(** C1.  [A] and [B] are selected, and the value of [B] at the position of
    some destination mode is an alias to [A].  After Phases 1 and 2, if both
    got a shell and the host accepted the writes to the shell of [B], the
    value of [B]'s shell for that mode is an alias to [A]'s shell: the entry
    of the mapping for [A], a variable of the destination that did not exist
    before, and not [A].  Nothing is asked of the order of [A] and [B] in
    the selection. *)
Theorem alias_to_moved_variable
    (selectedVariableIds : list string)
    (duplicates safeToMove : list DesignVariable)
    (destinationCollection : VariableCollection) (h0 : Host)
    (A B : DesignVariable) (i : nat) (k : string) (destinationMode : Mode) :
  (∀ o, o ∈ safeToMove → variables (document h0) !! id o = Some o) →
  NoDup (map modeId (modes destinationCollection)) →
  NoDup (JsObject.keys (valuesByMode B)) →
  A ∈ safeToMove → B ∈ safeToMove →
  valuesByMode B !! i = Some (k, VariableAlias (id A)) →
  modes destinationCollection !! i = Some destinationMode →
  ∃ created copied h2,
    create_and_copy selectedVariableIds duplicates safeToMove
      destinationCollection h0 = (Normal (created, copied), h2) ∧
    ∀ sA sB,
      JsObject.get (idMapping created) (id A) = Some sA →
      JsObject.get (idMapping created) (id B) = Some sB →
      accepts_writes h0 sB →
      value_of h2 sB (modeId destinationMode) = Some (VariableAlias sA) ∧
      sA ≠ id A ∧
      variables (document h0) !! sA = None ∧
      ∃ shellA, variables (document h2) !! sA = Some shellA ∧
                id shellA = sA ∧ name shellA = name A ∧
                variableCollectionId shellA = coll_id destinationCollection.
Proof.
  intros Hlive Hmodes Hkeys HA HB Hv Hdm.
  destruct (create_and_copy_spec selectedVariableIds duplicates safeToMove
              destinationCollection h0)
    as (created & copied & h1 & h2' & h2 & Hrun & Hinv & Ht & _ & _ & _ & _
        & _ & _ & _ & Hrun2 & Hemit & _).
  exists created, copied, h2. split; [exact Hrun|].
  intros sA sB HsA HsB Hacc.
  assert (accepts_writes h1 sB) as Hacc1.
  { unfold accepts_writes. by rewrite Ht. }
  pose proof (phase2_settles safeToMove destinationCollection
                (idMapping created) h0 h1 B sB i destinationMode k
                (VariableAlias (id A)) Hlive Hinv Hmodes Hkeys HB HsB Hdm Hv
                Hacc1) as Hval.
  rewrite Hrun2 in Hval. simpl in Hval. rewrite HsA in Hval. simpl in Hval.
  pose proof (phase2_values safeToMove destinationCollection
                (idMapping created) h1) as Hvo.
  rewrite Hrun2 in Hvo. simpl in Hvo.
  destruct Hinv as (_ & _ & Hmap & _).
  destruct (Hmap _ _ HsA) as (Hfree & o & shell & Ho & Hid & Hshell & Hof).
  assert (o = A) as ->.
  { pose proof (Hlive o Ho) as Hlo. pose proof (Hlive A HA) as HlA.
    rewrite Hid in Hlo. congruence. }
  split.
  { unfold value_of in *. by rewrite (values_only_emits _ _ Hemit). }
  split.
  { intros ->. rewrite (Hlive A HA) in Hfree. discriminate. }
  split; [exact Hfree|].
  pose proof (values_only_lookup h1 h2' sA Hvo) as He.
  rewrite Hshell in He. rewrite (values_only_emits _ _ Hemit).
  destruct (variables (document h2') !! sA) as [shellA|]; [|discriminate].
  exists shellA. split; [reflexivity|].
  destruct Hof as (Hi & Hn & _ & _ & Hc).
  simpl in He. injection He. intros. by rewrite <- Hi, <- Hn, <- Hc.
Qed.

(** [color-alias] aliases [color-base]; the alias is processed first. *)
Lemma alias_to_moved_variable_witness :
  (∀ o, o ∈ [Sample.color_alias; Sample.color_base] →
        variables (document (Sample.host Sample.reliable)) !! id o = Some o) ∧
  NoDup (map modeId (modes Sample.tokens)) ∧
  NoDup (JsObject.keys (valuesByMode Sample.color_alias)) ∧
  let h2 := snd (create_and_copy [] [] [Sample.color_alias; Sample.color_base]
                   Sample.tokens (Sample.host Sample.reliable)) in
  value_of h2 "VariableID:0" "2:0" = Some (VariableAlias "VariableID:1") ∧
  name <$> variables (document h2) !! "VariableID:0" = Some "color-alias" ∧
  name <$> variables (document h2) !! "VariableID:1" = Some "color-base".
Proof.
  assert (∀ o, o ∈ [Sample.color_alias; Sample.color_base] →
            variables (document (Sample.host Sample.reliable)) !! id o =
            Some o) as Hlive.
  { intros o Ho. apply elem_of_cons in Ho as [->|Ho]; [reflexivity|].
    apply elem_of_cons in Ho as [->|Ho]; [reflexivity|].
    by apply elem_of_nil in Ho. }
  assert (NoDup (map modeId (modes Sample.tokens))) as Hmodes
    by (apply (bool_decide_unpack _); vm_compute; reflexivity).
  assert (NoDup (JsObject.keys (valuesByMode Sample.color_alias))) as Hkeys
    by (apply (bool_decide_unpack _); vm_compute; reflexivity).
  split; [exact Hlive|]. split; [exact Hmodes|]. split; [exact Hkeys|].
  cbv zeta.
  destruct (alias_to_moved_variable [] []
              [Sample.color_alias; Sample.color_base] Sample.tokens
              (Sample.host Sample.reliable) Sample.color_base
              Sample.color_alias 0 "1:0" Sample.tokens_mode Hlive Hmodes Hkeys)
    as (created & copied & h2 & Hrun & Hval).
  { apply elem_of_cons. right. apply elem_of_cons. by left. }
  { apply elem_of_cons. by left. }
  { reflexivity. }
  { reflexivity. }
  assert (idMapping created =
          [("VariableID:1:2", "VariableID:0"); ("VariableID:1:1", "VariableID:1")])
    as Hidm.
  { assert (fst (create_and_copy [] [] [Sample.color_alias; Sample.color_base]
                   Sample.tokens (Sample.host Sample.reliable)) =
            Normal (mkCreated
                      [("VariableID:1:2", "VariableID:0");
                       ("VariableID:1:1", "VariableID:1")] 2 0,
                    mkCopied 2 0)) as Hfst by (vm_compute; reflexivity).
    rewrite Hrun in Hfst. simpl in Hfst. by injection Hfst as -> _. }
  rewrite Hrun. simpl snd.
  destruct (Hval "VariableID:1" "VariableID:0") as (Hv & _ & _ & shellA & Hs
                                                    & _ & Hn & _).
  { by rewrite Hidm. }
  { by rewrite Hidm. }
  { split; reflexivity. }
  split; [exact Hv|]. split.
  - assert (name <$> variables (document (snd (create_and_copy [] []
              [Sample.color_alias; Sample.color_base] Sample.tokens
              (Sample.host Sample.reliable)))) !! "VariableID:0" =
            Some "color-alias") as Hname by (vm_compute; reflexivity).
    by rewrite Hrun in Hname.
  - rewrite Hs. simpl. by rewrite Hn.
Defined.

(** ** Phase 3: the bindings *)

#[global] Instance variables_kept_preorder : PreOrder variables_kept.
Proof.
  split.
  - intros h. unfold variables_kept. tauto.
  - intros h1 h2 h3. unfold variables_kept. intuition congruence.
Qed.

Lemma modify_nodes_kept f :
  preserves variables_kept (modify_host (set_document (set_nodes f))).
Proof. intros h. unfold variables_kept. simpl. tauto. Qed.

Lemma modify_heap_kept f : preserves variables_kept (modify_host (set_heap f)).
Proof. intros h. unfold variables_kept. simpl. tauto. Qed.

Lemma console_log_kept args : preserves variables_kept (console_log args).
Proof. intros h. unfold variables_kept. simpl. tauto. Qed.
Lemma console_error_kept args : preserves variables_kept (console_error args).
Proof. intros h. unfold variables_kept. simpl. tauto. Qed.
#[global] Hint Resolve modify_nodes_kept modify_heap_kept console_log_kept
  console_error_kept : frame.

Lemma read_node_untouched node : preserves untouched (read_node node).
Proof. by intros h. Qed.
#[global] Hint Resolve read_node_untouched : frame.

Lemma rebindVariable_kept node property newVariable bindingIndex
    isArrayBinding :
  preserves variables_kept
    (rebindVariable node property newVariable bindingIndex isArrayBinding).
Proof.
  unfold rebindVariable, rebind_in_list, setBoundVariable,
    setBoundVariableForPaint, setBoundVariableForEffect, get_list_property,
    set_list_property, JSON_clone, array_get, array_assign, array_items,
    new_array.
  frame_tac.
Qed.

Lemma findAllVariableBindings_untouched variableIds :
  preserves untouched (findAllVariableBindings variableIds).
Proof. unfold findAllVariableBindings. frame_tac. Qed.
#[global] Hint Resolve rebindVariable_kept findAllVariableBindings_untouched
  : frame.

Lemma phase3_kept idMapping : preserves variables_kept (phase3 idMapping).
Proof. unfold phase3, phase3_step. frame_tac. Qed.

Lemma foldl_invariant {A St} (Q : St → Prop) (f : St → A → St) (l : list A)
    (s : St) :
  Q s → (∀ s a, Q s → Q (f s a)) → Q (foldl f s l).
Proof.
  intros Hs Hf. revert s Hs. induction l as [|a l IH]; intros s Hs; simpl.
  - exact Hs.
  - apply IH, Hf, Hs.
Qed.

Lemma yields_for_of {A St} (Q : St → Prop) (l : list A) (body : St → A → Js St)
    (s : St) :
  Q s → (∀ s x, Q s → yields Q (body s x)) → yields Q (for_of l body s).
Proof.
  intros Hs Hb. revert s Hs. induction l as [|x l IH]; intros s Hs.
  - by apply yields_ret.
  - intros h s' h' Hrun. rewrite run_for_of_cons in Hrun.
    destruct (body s x h) as [[s1|e] h1] eqn:Hstep; [|discriminate].
    eapply IH; [|exact Hrun]. by eapply Hb.
Qed.

Lemma bindings_of_entry_targets (variableIds : list string) node propertyName
    binding :
  targets variableIds
    (bindings_of_entry (list_to_set variableIds) node propertyName binding).
Proof.
  unfold targets. destruct binding as [b|items|]; simpl.
  - destruct (truthy b); simpl; [|by constructor].
    case_bool_decide as Hin; [|by constructor].
    constructor; [|by constructor]. simpl. by apply elem_of_list_to_set in Hin.
  - apply foldl_invariant; [by constructor|].
    intros found [index [itemId|]] Hfound; [|exact Hfound].
    destruct (truthy itemId); simpl; [|exact Hfound].
    case_bool_decide as Hin; [|exact Hfound].
    apply Forall_app. split; [exact Hfound|].
    constructor; [|by constructor]. simpl. by apply elem_of_list_to_set in Hin.
  - by constructor.
Qed.

Lemma bindings_of_node_targets (variableIds : list string) node n :
  targets variableIds (bindings_of_node (list_to_set variableIds) node n).
Proof.
  unfold bindings_of_node. destruct (boundVariables n); [|by constructor].
  apply foldl_invariant; [by constructor|].
  intros found [propertyName binding] Hfound.
  apply Forall_app. split; [exact Hfound|apply bindings_of_entry_targets].
Qed.

Lemma findAllVariableBindings_targets (variableIds : list string) :
  yields (targets variableIds) (findAllVariableBindings variableIds).
Proof.
  unfold findAllVariableBindings. apply yields_bind. intros h.
  apply yields_for_of; [by constructor|].
  intros found [p allNodes] Hfound.
  do 2 (apply yields_bind; intros ?).
  apply yields_for_of; [exact Hfound|].
  intros found' node Hfound'. apply yields_bind. intros n.
  apply yields_ret, Forall_app. split; [exact Hfound'|].
  apply bindings_of_node_targets.
Qed.

(** ** Phase 4: the old variables *)

Lemma phase4_step_run (deleteCount : nat) (oldVariableId : string) (h : Host) :
  phase4_step deleteCount oldVariableId h =
  if throws h (GetVariableById oldVariableId)
  then (Normal deleteCount, delete_failed oldVariableId "host error" h)
  else match variables (document h) !! oldVariableId with
       | None => (Normal deleteCount, h)
       | Some oldVariable =>
           if throws h (Remove (id oldVariable))
           then (Normal deleteCount,
                 delete_failed oldVariableId "host error" h)
           else (Normal (S deleteCount), removed (id oldVariable) h)
       end.
Proof.
  unfold phase4_step, getVariableByIdAsync, remove. js_unfold.
  destruct (throws h (GetVariableById oldVariableId)); [reflexivity|]. simpl.
  destruct (variables (document h) !! oldVariableId) as [v|]; [|reflexivity].
  simpl. by destruct (throws h (Remove (id v))).
Qed.

#[global] Instance removes_within_preorder S : PreOrder (removes_within S).
Proof.
  split.
  - intros h Hwf. split; [exact Hwf|]. by left.
  - intros h1 h2 h3 H12 H23 Hwf1.
    destruct (H12 Hwf1) as [Hwf2 Hk12]. destruct (H23 Hwf2) as [Hwf3 Hk23].
    split; [exact Hwf3|]. intros k.
    destruct (Hk23 k) as [Heq|[HS Hnone]]; [|by right].
    rewrite Heq. apply Hk12.
Qed.

Lemma phase4_step_removes (S : string → Prop) deleteCount oldVariableId :
  S oldVariableId →
  preserves (removes_within S) (phase4_step deleteCount oldVariableId).
Proof.
  intros HS h Hwf. rewrite phase4_step_run.
  destruct (throws h (GetVariableById oldVariableId));
    [split; [exact Hwf|by left]|].
  destruct (variables (document h) !! oldVariableId) as [v|] eqn:Hv;
    [|split; [exact Hwf|by left]].
  destruct (throws h (Remove (id v))); [split; [exact Hwf|by left]|].
  rewrite (Hwf _ _ Hv). simpl. split.
  - intros k v' Hk. simpl in Hk.
    apply lookup_delete_Some in Hk as [_ Hk]. by apply Hwf.
  - intros k. destruct (decide (k = oldVariableId)) as [->|Hne].
    + right. split; [exact HS|apply lookup_delete_eq].
    + left. by apply lookup_delete_ne.
Qed.

Lemma phase4_step_scene deleteCount oldVariableId :
  preserves scene_kept (phase4_step deleteCount oldVariableId).
Proof.
  intros h. rewrite phase4_step_run. unfold scene_kept.
  destruct (throws h (GetVariableById oldVariableId)); [simpl; tauto|].
  destruct (variables (document h) !! oldVariableId) as [v|]; [|simpl; tauto].
  destruct (throws h (Remove (id v))); simpl; tauto.
Qed.

Lemma phase4_removes idMapping :
  preserves (removes_within (λ k, k ∈ JsObject.keys idMapping))
    (phase4 idMapping).
Proof.
  unfold phase4. apply preserves_for_of_in; [apply _|]. intros n k Hk.
  by apply phase4_step_removes.
Qed.

Lemma phase4_scene idMapping : preserves scene_kept (phase4 idMapping).
Proof.
  unfold phase4. apply (preserves_for_of scene_kept). intros n k.
  apply phase4_step_scene.
Qed.

Lemma phase4_step_returns deleteCount oldVariableId (h : Host) :
  ∃ n h', phase4_step deleteCount oldVariableId h = (Normal n, h') ∧
          deleteCount ≤ n ≤ S deleteCount.
Proof.
  rewrite phase4_step_run.
  destruct (throws h (GetVariableById oldVariableId));
    [eexists _, _; split; [reflexivity|lia]|].
  destruct (variables (document h) !! oldVariableId) as [v|];
    [|eexists _, _; split; [reflexivity|lia]].
  destruct (throws h (Remove (id v)));
    eexists _, _; (split; [reflexivity|lia]).
Qed.

Lemma phase4_loop_returns (l : list string) (deleteCount : nat) (h : Host) :
  ∃ n h', for_of l phase4_step deleteCount h = (Normal n, h') ∧
          deleteCount ≤ n ≤ deleteCount + length l.
Proof.
  revert deleteCount h. induction l as [|k l IH]; intros n0 h.
  - exists n0, h. split; [reflexivity|simpl; lia].
  - destruct (phase4_step_returns n0 k h) as (n1 & h1 & Hrun1 & Hn1).
    destruct (IH n1 h1) as (n & h' & Hrun & Hn).
    exists n, h'. rewrite run_for_of_cons, Hrun1. split; [exact Hrun|].
    simpl. lia.
Qed.

Lemma phase4_returns idMapping (h : Host) :
  ∃ n h', phase4 idMapping h = (Normal n, h') ∧
          n ≤ length (JsObject.keys idMapping).
Proof.
  destruct (phase4_loop_returns (JsObject.keys idMapping) 0 h)
    as (n & h' & Hrun & Hn).
  exists n, h'. split; [exact Hrun|lia].
Qed.

(** A key the host lets go is gone after the loop. *)
Lemma phase4_loop_deletes (k : string) (l : list string) (deleteCount : nat)
    (h : Host) :
  well_formed (document h) →
  throws h (GetVariableById k) = false → throws h (Remove k) = false →
  k ∈ l ∨ variables (document h) !! k = None →
  variables (document (snd (for_of l phase4_step deleteCount h))) !! k = None.
Proof.
  intros Hwf Hget Hremove. revert deleteCount h Hwf Hget Hremove.
  induction l as [|k' l IH]; intros n h Hwf Hget Hremove Hpre.
  - simpl. destruct Hpre as [Hin|Hnone]; [|exact Hnone].
    by apply elem_of_nil in Hin.
  - rewrite run_for_of_cons.
    pose proof (phase4_step_removes (λ x, x = k') n k' eq_refl h Hwf)
      as [Hwf1 Hk1].
    pose proof (phase4_step_scene n k' h) as (_ & _ & Ht & _).
    destruct (phase4_step_returns n k' h) as (n1 & h1 & Hrun1 & _).
    rewrite Hrun1 in *. simpl in *.
    apply IH; [exact Hwf1|by rewrite Ht..|].
    destruct (decide (k' = k)) as [->|Hne].
    + right. rewrite phase4_step_run, Hget in Hrun1.
      destruct (variables (document h) !! k) as [v|] eqn:Hv.
      * rewrite (Hwf _ _ Hv), Hremove in Hrun1.
        injection Hrun1 as _ <-. simpl. apply lookup_delete_eq.
      * by injection Hrun1 as _ <-.
    + destruct Hpre as [Hin|Hnone].
      * left. by apply elem_of_cons in Hin as [->|Hin].
      * right. destruct (Hk1 k) as [Heq|[_ Hgone]]; [|exact Hgone].
        by rewrite Heq.
Qed.

Lemma phase4_deletes idMapping (k : string) (h : Host) :
  well_formed (document h) →
  throws h (GetVariableById k) = false → throws h (Remove k) = false →
  k ∈ JsObject.keys idMapping →
  variables (document (snd (phase4 idMapping h))) !! k = None.
Proof. intros Hwf Hget Hremove Hk. apply phase4_loop_deletes; auto. Qed.

(** A key the host does not let go stays as it is. *)
Lemma phase4_step_refused (k : string) deleteCount oldVariableId (h : Host) :
  well_formed (document h) →
  throws h (GetVariableById k) = true ∨ throws h (Remove k) = true →
  variables (document (snd (phase4_step deleteCount oldVariableId h))) !! k =
  variables (document h) !! k.
Proof.
  intros Hwf Hrefused. rewrite phase4_step_run.
  destruct (throws h (GetVariableById oldVariableId)) eqn:Hget; [reflexivity|].
  destruct (variables (document h) !! oldVariableId) as [v|] eqn:Hv;
    [|reflexivity].
  rewrite (Hwf _ _ Hv).
  destruct (throws h (Remove oldVariableId)) eqn:Hremove; [reflexivity|].
  simpl. apply lookup_delete_ne. intros ->.
  destruct Hrefused; congruence.
Qed.

Lemma phase4_refused idMapping (k : string) (h : Host) :
  well_formed (document h) →
  throws h (GetVariableById k) = true ∨ throws h (Remove k) = true →
  variables (document (snd (phase4 idMapping h))) !! k =
  variables (document h) !! k.
Proof.
  unfold phase4. generalize 0 as n. revert h.
  induction (JsObject.keys idMapping) as [|k' l IH]; intros h n Hwf Hrefused;
    [reflexivity|].
  rewrite run_for_of_cons.
  pose proof (phase4_step_refused k n k' h Hwf Hrefused) as Hstep.
  pose proof (phase4_step_removes (λ x, x = k') n k' eq_refl h Hwf)
    as [Hwf1 _].
  pose proof (phase4_step_scene n k' h) as (_ & _ & Ht & _).
  destruct (phase4_step_returns n k' h) as (n1 & h1 & Hrun1 & _).
  rewrite Hrun1 in *. simpl in *.
  rewrite IH; [exact Hstep|exact Hwf1|by rewrite Ht].
Qed.

(** ** Phases 3 and 4 together, and the whole migration *)

Lemma shells_created_well_formed safeToMove destinationCollection h0 h
    idMapping :
  well_formed (document h0) →
  shells_created safeToMove destinationCollection h0 h idMapping →
  well_formed (document h).
Proof.
  intros Hwf (Hgrow & Hnew & _) k v Hk.
  destruct (variables (document h0) !! k) as [v0|] eqn:H0.
  - rewrite (Hgrow k v0 H0) in Hk. injection Hk as <-. by apply Hwf.
  - by apply Hnew.
Qed.

Lemma values_only_well_formed (h h' : Host) :
  values_only h h' → well_formed (document h) → well_formed (document h').
Proof.
  intros Hvo Hwf k v' Hk. pose proof (values_only_lookup h h' k Hvo) as He.
  rewrite Hk in He. destruct (variables (document h) !! k) as [v|] eqn:Hv;
    [|discriminate].
  simpl in He. injection He. intros. rewrite <- (Hwf k v Hv). congruence.
Qed.

(** The run of [rebind_and_delete], when it returns: Phase 3 keeps the
    variables, and Phase 4 runs from the host Phase 3 leaves, up to console
    output. *)
Lemma rebind_and_delete_spec idMapping (h2 : Host) (rebound : Rebound)
    (deleteCount : nat) (h4 : Host) :
  rebind_and_delete idMapping h2 = (Normal (rebound, deleteCount), h4) →
  ∃ h3 h4',
    variables (document h3) = variables (document h2) ∧
    throws h3 = throws h2 ∧ posted h3 = posted h2 ∧
    notifications h3 = notifications h2 ∧
    phase4 idMapping h3 = (Normal deleteCount, h4') ∧
    document h4 = document h4' ∧ posted h4 = posted h4' ∧
    notifications h4 = notifications h4'.
Proof.
  unfold rebind_and_delete. intros Hrun.
  repeat (rewrite run_bind in Hrun; simpl in Hrun).
  lazymatch type of Hrun with
  | context [phase3 idMapping ?h] =>
      pose proof (phase3_kept idMapping h) as Hkept;
      destruct (phase3 idMapping h) as [[rebound'|e] h3'] eqn:Hrun3;
      [|discriminate]
  end.
  repeat (rewrite run_bind in Hrun; simpl in Hrun).
  lazymatch type of Hrun with
  | context [phase4 idMapping ?h] =>
      exists h; destruct (phase4 idMapping h) as [[n|e] h4'] eqn:Hrun4;
      [|discriminate]
  end.
  simpl in Hrun. injection Hrun as <- <- <-.
  exists h4'. simpl in Hkept.
  destruct Hkept as (Hv & _ & _ & Ht & Hn & Hp).
  split; [exact Hv|]. split; [exact Ht|]. split; [exact Hp|].
  split; [exact Hn|]. split; [reflexivity|]. done.
Qed.

Lemma phase1_loop_keys destinationCollection (l : list DesignVariable)
    (acc : Created) (h : Host) (created : Created) (h' : Host) :
  for_of l (phase1_step destinationCollection) acc h = (Normal created, h') →
  ∀ k, k ∈ JsObject.keys (idMapping created) ↔
       k ∈ JsObject.keys (idMapping acc) ∨
       shell_made l destinationCollection acc h k.
Proof.
  revert acc h. induction l as [|o l IH]; intros acc h Hrun k.
  - injection Hrun as <- <-. split; [by left|].
    intros [?|(before & ? & ? & ? & ? & ? & ? & Heq & _)]; [done|].
    by destruct before.
  - rewrite run_for_of_cons in Hrun.
    destruct (phase1_step destinationCollection acc o h) as [[acc1|e] h1]
      eqn:Hstep; [|discriminate].
    rewrite (IH acc1 h1 Hrun k). rewrite phase1_step_run in Hstep.
    destruct (createVariableInCollection o destinationCollection h)
      as [[new|e] hc] eqn:Hcreate; injection Hstep as <- <-; simpl.
    + rewrite keys_set. split.
      * intros [[->|Hacc]|(before & o' & after & a1 & hh & nw & hh' & Heq
                            & Hid & Hpre & Hmk)].
        -- right. exists [], o, l, acc, h, new, hc. by simpl.
        -- by left.
        -- right. exists (o :: before), o', after, a1, hh, nw, hh'.
           split; [by rewrite Heq|]. split; [exact Hid|].
           split; [|exact Hmk].
           rewrite run_for_of_cons, phase1_step_run, Hcreate. exact Hpre.
      * intros [Hacc|(before & o' & after & a1 & hh & nw & hh' & Heq & Hid
                      & Hpre & Hmk)]; [by left; right|].
        destruct before as [|o1 before]; simpl in Heq.
        -- injection Heq as -> ->. left. left. by rewrite Hid.
        -- injection Heq as -> ->. right.
           exists before, o', after, a1, hh, nw, hh'.
           split; [reflexivity|]. split; [exact Hid|]. split; [|exact Hmk].
           by rewrite run_for_of_cons, phase1_step_run, Hcreate in Hpre.
    + split.
      * intros [Hacc|(before & o' & after & a1 & hh & nw & hh' & Heq & Hid
                      & Hpre & Hmk)]; [by left|].
        right. exists (o :: before), o', after, a1, hh, nw, hh'.
        split; [by rewrite Heq|]. split; [exact Hid|]. split; [|exact Hmk].
        rewrite run_for_of_cons, phase1_step_run, Hcreate. exact Hpre.
      * intros [Hacc|(before & o' & after & a1 & hh & nw & hh' & Heq & Hid
                      & Hpre & Hmk)]; [by left|].
        destruct before as [|o1 before]; simpl in Heq.
        -- injection Heq as -> ->. simpl in Hpre. injection Hpre as <- <-.
           congruence.
        -- injection Heq as -> ->. right.
           exists before, o', after, a1, hh, nw, hh'.
           split; [reflexivity|]. split; [exact Hid|]. split; [|exact Hmk].
           by rewrite run_for_of_cons, phase1_step_run, Hcreate in Hpre.
Qed.

Lemma create_and_copy_keys selectedVariableIds duplicates safeToMove
    destinationCollection (h0 : Host) (created : Created) (copied : Copied)
    (h2 : Host) :
  create_and_copy selectedVariableIds duplicates safeToMove
    destinationCollection h0 = (Normal (created, copied), h2) →
  ∃ hs, emits_only h0 hs ∧
        ∀ k, k ∈ JsObject.keys (idMapping created) ↔
             shell_made safeToMove destinationCollection (mkCreated [] 0 0)
               hs k.
Proof.
  unfold create_and_copy. intros Hrun.
  repeat (rewrite run_bind in Hrun; simpl in Hrun).
  lazymatch type of Hrun with
  | context [phase1 safeToMove destinationCollection ?h] =>
      exists h; destruct (phase1 safeToMove destinationCollection h)
        as [[created'|e] h1] eqn:Hrun1; [|discriminate]
  end.
  repeat (rewrite run_bind in Hrun; simpl in Hrun).
  lazymatch type of Hrun with
  | context [phase2 ?s ?d ?m ?h] =>
      destruct (phase2 s d m h) as [[copied'|e] h2'] eqn:Hrun2; [|discriminate]
  end.
  simpl in Hrun. injection Hrun as <- <- <-.
  split; [done|]. intros k.
  rewrite (phase1_loop_keys _ _ _ _ _ _ Hrun1 k). simpl.
  split; [|by right]. intros [Hnil|?]; [|done]. by apply elem_of_nil in Hnil.
Qed.

(** C3.  The keys of the mapping are the identities of the selected
    variables for which Phase 1 made a shell.  The bindings Phase 3 works on
    all refer to a key of the mapping.  When Phases 3 and 4 have run, a key
    of the mapping is gone if the host let it be looked up and removed, and
    is as before otherwise; every other variable is as Phase 2 left it,
    whatever Phases 2 and 3 counted.  So a selected variable for which no
    shell was made is still there, as it was, and no binding to it was
    passed to [rebindVariable]. *)
Theorem deletion_follows_mapping
    (selectedVariableIds : list string)
    (duplicates safeToMove : list DesignVariable)
    (destinationCollection : VariableCollection) (h0 : Host) :
  well_formed (document h0) →
  (∀ o, o ∈ safeToMove → variables (document h0) !! id o = Some o) →
  ∃ created copied h2,
    create_and_copy selectedVariableIds duplicates safeToMove
      destinationCollection h0 = (Normal (created, copied), h2) ∧
    let oldVariableIds := JsObject.keys (idMapping created) in
    (∃ hs, emits_only h0 hs ∧
           ∀ k, k ∈ oldVariableIds ↔
                shell_made safeToMove destinationCollection
                  (mkCreated [] 0 0) hs k) ∧
    (∀ h allBindings h',
       findAllVariableBindings oldVariableIds h = (Normal allBindings, h') →
       ∀ binding, binding ∈ allBindings →
                  variableId binding ∈ oldVariableIds) ∧
    (∀ rebound deleteCount h4,
       rebind_and_delete (idMapping created) h2 =
         (Normal (rebound, deleteCount), h4) →
       (∀ k, variables (document h4) !! k =
             if decide (k ∈ oldVariableIds)
             then if throws h0 (GetVariableById k) || throws h0 (Remove k)
                  then variables (document h2) !! k
                  else None
             else variables (document h2) !! k) ∧
       (∀ X, X ∈ safeToMove → id X ∉ oldVariableIds →
             variables (document h4) !! id X = Some X ∧
             ∀ h allBindings h' binding,
               findAllVariableBindings oldVariableIds h =
                 (Normal allBindings, h') →
               binding ∈ allBindings → variableId binding ≠ id X)).
Proof.
  intros Hwf Hlive.
  destruct (create_and_copy_spec selectedVariableIds duplicates safeToMove
              destinationCollection h0)
    as (created & copied & h1 & h2' & h2 & Hrun & Hinv & Ht & _ & _ & _ & _
        & _ & _ & _ & Hrun2 & Hemit & _).
  exists created, copied, h2. split; [exact Hrun|]. cbv zeta.
  assert (∀ h allBindings h',
            findAllVariableBindings (JsObject.keys (idMapping created)) h =
              (Normal allBindings, h') →
            ∀ binding, binding ∈ allBindings →
              variableId binding ∈ JsObject.keys (idMapping created))
    as Hlocated.
  { intros h bs h' Hfind b Hb.
    pose proof (findAllVariableBindings_targets _ _ _ _ Hfind) as Htargets.
    unfold targets in Htargets. rewrite Forall_forall in Htargets.
    by apply Htargets. }
  split; [by eapply create_and_copy_keys|]. split; [exact Hlocated|].
  pose proof (phase2_values safeToMove destinationCollection
                (idMapping created) h1) as Hvo.
  pose proof (phase2_alters safeToMove destinationCollection
                (idMapping created) h1) as Halt.
  rewrite Hrun2 in Hvo, Halt. simpl in Hvo, Halt.
  assert (well_formed (document h2)) as Hwf2.
  { rewrite (values_only_emits _ _ Hemit).
    eapply values_only_well_formed; [exact Hvo|].
    by eapply shells_created_well_formed. }
  assert (throws h2 = throws h0) as Ht2.
  { destruct Hemit as (_ & -> & _).
    destruct Hvo as (_ & _ & _ & _ & _ & -> & _). exact Ht. }
  intros rebound deleteCount h4 Hrun34.
  destruct (rebind_and_delete_spec _ _ _ _ _ Hrun34)
    as (h3 & h4' & Hv3 & Ht3 & _ & _ & Hrun4 & Hd4 & _).
  assert (well_formed (document h3)) as Hwf3.
  { unfold well_formed. by rewrite Hv3. }
  pose proof (phase4_removes (idMapping created) h3 Hwf3) as [_ Hrem].
  rewrite Hrun4 in Hrem. simpl in Hrem.
  assert (∀ k, variables (document h4) !! k =
             if decide (k ∈ JsObject.keys (idMapping created))
             then if throws h0 (GetVariableById k) || throws h0 (Remove k)
                  then variables (document h2) !! k
                  else None
             else variables (document h2) !! k) as Hall.
  { intros k. rewrite Hd4, <- Hv3.
    destruct (decide (k ∈ JsObject.keys (idMapping created))) as [Hk|Hk].
    - destruct (throws h0 (GetVariableById k)) eqn:Hget; simpl.
      + pose proof (phase4_refused (idMapping created) k h3 Hwf3) as Href.
        rewrite Hrun4 in Href. apply Href. left. by rewrite Ht3, Ht2.
      + destruct (throws h0 (Remove k)) eqn:Hremove.
        * pose proof (phase4_refused (idMapping created) k h3 Hwf3) as Href.
          rewrite Hrun4 in Href. apply Href. right. by rewrite Ht3, Ht2.
        * pose proof (phase4_deletes (idMapping created) k h3 Hwf3) as Hdel.
          rewrite Hrun4 in Hdel. apply Hdel; [| |exact Hk];
            by rewrite Ht3, Ht2.
    - destruct (Hrem k) as [Heq|[Hin _]]; [exact Heq|done]. }
  split; [exact Hall|].
  intros X HX Hkey. split.
  - rewrite Hall, decide_False by assumption.
    rewrite (values_only_emits _ _ Hemit).
    destruct Hinv as (Hgrow & _ & Hmap & _).
    rewrite Halt; [by apply Hgrow, Hlive|].
    intros [k0 Hk0]. destruct (Hmap _ _ Hk0) as (Hfree & _).
    rewrite (Hlive X HX) in Hfree. discriminate.
  - intros h bs h' b Hfind Hb Heq. apply Hkey. rewrite <- Heq.
    by eapply Hlocated.
Qed.

Lemma sample_well_formed (faults : HostCall → bool) :
  well_formed (document (Sample.host faults)).
Proof.
  apply (bool_decide_unpack
           (map_Forall (λ k v, id v = k) (variables Sample.doc))).
  vm_compute. reflexivity.
Qed.

(** Moving [color-base] and [color-alias] on that host: [color-base] gets no
    shell and stays; [color-alias] is moved and its original removed. *)
Lemma deletion_follows_mapping_witness :
  well_formed (document (Sample.host refuses_color_base)) ∧
  (∀ o, o ∈ [Sample.color_base; Sample.color_alias] →
        variables (document (Sample.host refuses_color_base)) !! id o =
        Some o) ∧
  let h2 := snd (create_and_copy [] [] [Sample.color_base; Sample.color_alias]
                   Sample.tokens (Sample.host refuses_color_base)) in
  let h4 := snd (rebind_and_delete [("VariableID:1:2", "VariableID:0")] h2) in
  variables (document h4) !! "VariableID:1:1" = Some Sample.color_base ∧
  variables (document h4) !! "VariableID:1:2" = None.
Proof.
  pose proof (sample_well_formed refuses_color_base) as Hwf.
  assert (∀ o, o ∈ [Sample.color_base; Sample.color_alias] →
            variables (document (Sample.host refuses_color_base)) !! id o =
            Some o) as Hlive.
  { intros o Ho. apply elem_of_cons in Ho as [->|Ho]; [reflexivity|].
    apply elem_of_cons in Ho as [->|Ho]; [reflexivity|].
    by apply elem_of_nil in Ho. }
  split; [exact Hwf|]. split; [exact Hlive|]. cbv zeta.
  destruct (deletion_follows_mapping [] []
              [Sample.color_base; Sample.color_alias] Sample.tokens
              (Sample.host refuses_color_base) Hwf Hlive)
    as (created & copied & h2 & Hrun & _ & _ & Hfinal).
  assert (idMapping created = [("VariableID:1:2", "VariableID:0")]) as Hidm.
  { assert (fst (create_and_copy [] [] [Sample.color_base; Sample.color_alias]
                   Sample.tokens (Sample.host refuses_color_base)) =
            Normal (mkCreated [("VariableID:1:2", "VariableID:0")] 1 1,
                    mkCopied 1 1)) as Hfst by (vm_compute; reflexivity).
    rewrite Hrun in Hfst. simpl in Hfst. by injection Hfst as -> _. }
  rewrite Hrun. simpl snd. rewrite Hidm in Hfinal.
  destruct (rebind_and_delete [("VariableID:1:2", "VariableID:0")] h2)
    as [[[rebound deleteCount]|e] h4] eqn:Hrun34.
  - destruct (Hfinal rebound deleteCount h4 eq_refl) as [Hall Hkept].
    simpl snd. split.
    + apply (Hkept Sample.color_base).
      * apply elem_of_cons. by left.
      * simpl. intros Hin. apply elem_of_cons in Hin as [?|Hin];
          [discriminate|]. by apply elem_of_nil in Hin.
    + rewrite (Hall "VariableID:1:2"). reflexivity.
  - exfalso.
    assert (∃ x, fst (rebind_and_delete [("VariableID:1:2", "VariableID:0")]
                        (snd (create_and_copy [] []
                                [Sample.color_base; Sample.color_alias]
                                Sample.tokens
                                (Sample.host refuses_color_base)))) =
                 Normal x) as [x Hx] by (eexists; vm_compute; reflexivity).
    rewrite Hrun in Hx. simpl in Hx. rewrite Hrun34 in Hx. discriminate.
Defined.

(** ** The completion response *)

(** A request that passes the checks starts the migration of the movable
    part of the resolved selection. *)
Lemma on_move_variables_migrate (msg : Message) (h : Host) :
  (∃ e, rejects (on_move_variables msg) h e) ∨
  (∃ err, on_move_variables msg h = (Thrown err, h)) ∨
  (∃ destinationCollection,
     on_move_variables msg h =
     migrate (default [] (selectedVariableIds msg))
       (duplicates (resolution msg h)) (canMove (resolution msg h))
       destinationCollection h).
Proof.
  unfold resolution, resolved_selection, source_variables,
    destination_names, on_move_variables.
  destruct (truthy_field (sourceCollectionId msg)) as [s|];
    [|left; eexists; apply move_error_rejects].
  destruct (truthy_field (destinationCollectionId msg)) as [d|];
    [|left; eexists; apply move_error_rejects].
  destruct (decide (s = d)); [left; eexists; apply move_error_rejects|].
  destruct (decide (length (default [] (selectedVariableIds msg)) = 0));
    [left; eexists; apply move_error_rejects|].
  unfold rejects. rewrite run_bind.
  destruct (getVariableCollectionByIdAsync s h) as [[sc|err] h1] eqn:E1;
    apply untouched_run in E1 as ->; auto with frame;
    [|right; left; by eexists].
  rewrite run_bind.
  destruct (getVariableCollectionByIdAsync d h) as [[dc|err] h1] eqn:E2;
    apply untouched_run in E2 as ->; auto with frame;
    [|right; left; by eexists].
  destruct sc as [sc|]; [|left; eexists; apply move_error_rejects].
  destruct dc as [dc|]; [|left; eexists; apply move_error_rejects].
  rewrite run_bind.
  destruct (getVariablesInCollection s h) as [[vars|err] h1] eqn:E3;
    apply untouched_run in E3 as ->; auto with frame;
    [|right; left; by eexists].
  destruct (decide (length _ = 0));
    [left; eexists; apply move_error_rejects|].
  rewrite run_bind.
  destruct (getVariableNamesInCollection d h) as [[names|err] h1] eqn:E4;
    apply untouched_run in E4 as ->; auto with frame;
    [|right; left; by eexists].
  destruct (decide (length _ = 0));
    [left; eexists; apply move_error_rejects|].
  right; right. by eexists.
Qed.

(** What [migrate] posts when it returns. *)
Lemma migrate_response selectedVariableIds duplicates safeToMove
    destinationCollection (h h' : Host) :
  migrate selectedVariableIds duplicates safeToMove destinationCollection h =
    (Normal tt, h') →
  ∃ created rebound deleteCount,
    posted h' = posted h ++
      [MoveComplete (createSuccessCount created) (createErrorCount created)
         (length duplicates) (rebindSuccessCount rebound)
         (rebindErrorCount rebound) deleteCount
         (coll_name destinationCollection)] ∧
    createSuccessCount created + createErrorCount created =
      length safeToMove ∧
    deleteCount ≤ createSuccessCount created.
Proof.
  unfold migrate. intros Hrun.
  destruct (create_and_copy_spec selectedVariableIds duplicates safeToMove
              destinationCollection h)
    as (created & copied & h1 & h2' & h2 & Hrun12 & _ & _ & _ & _ & _ & Hp1
        & Hcount & Hkeys & _ & Hrun2 & _ & Hp2 & _).
  rewrite run_bind, Hrun12 in Hrun. simpl in Hrun. rewrite run_bind in Hrun.
  destruct (rebind_and_delete (idMapping created) h2)
    as [[[rebound deleteCount]|e] h4] eqn:Hrun34; [|discriminate].
  destruct (rebind_and_delete_spec _ _ _ _ _ Hrun34)
    as (h3 & h4' & _ & _ & Hp3 & _ & Hrun4 & _ & Hp4 & _).
  pose proof (phase2_values safeToMove destinationCollection
                (idMapping created) h1) as Hvo.
  rewrite Hrun2 in Hvo. destruct Hvo as (_ & _ & _ & _ & _ & _ & _ & _ & Hp2'
                                          & _).
  pose proof (phase4_scene (idMapping created) h3) as Hsc.
  rewrite Hrun4 in Hsc. destruct Hsc as (_ & _ & _ & _ & _ & Hp4' & _).
  destruct (phase4_returns (idMapping created) h3) as (n & hx & Hrun4' & Hn).
  rewrite Hrun4 in Hrun4'. injection Hrun4' as <- <-.
  simpl in *. injection Hrun as <-.
  exists created, rebound, deleteCount. simpl.
  split; [|split; [exact Hcount|lia]].
  congruence.
Qed.

(** ** Two hosts that differ in the writes of values only *)

Section Related.
Context (R : Host → Host → Prop).

Lemma related_ret {A} (a : A) : related R (mret a : Js A).
Proof. by intros h g HR. Qed.

Lemma related_throw {A} (e : string) : related R (@throw A e).
Proof. by intros h g HR. Qed.

Lemma related_bind {A B} (m : Js A) (f : A → Js B) :
  related R m → (∀ a, related R (f a)) → related R (m ≫= f).
Proof.
  intros Hm Hf h g HR. rewrite !run_bind.
  destruct (Hm h g HR) as [Hfst Hsnd].
  destruct (m h) as [[a|e] h'], (m g) as [[a'|e'] g']; simpl in *;
    try discriminate.
  - injection Hfst as <-. by apply Hf.
  - injection Hfst as <-. by split.
Qed.

Lemma related_try_catch {A} (m : Js A) (handler : string → Js A) :
  related R m → (∀ e, related R (handler e)) →
  related R (try_catch m handler).
Proof.
  intros Hm Hh h g HR. rewrite !run_try_catch.
  destruct (Hm h g HR) as [Hfst Hsnd].
  destruct (m h) as [[a|e] h'], (m g) as [[a'|e'] g']; simpl in *;
    try discriminate.
  - injection Hfst as <-. by split.
  - injection Hfst as <-. by apply Hh.
Qed.

Lemma related_for_of {A St} (l : list A) (body : St → A → Js St) (s : St) :
  (∀ s x, related R (body s x)) → related R (for_of l body s).
Proof.
  intros Hb. revert s. induction l as [|x l IH]; intros s.
  - apply related_ret.
  - apply related_bind; [apply Hb|intros s'; apply IH].
Qed.

(** Reading a part of the host that the relation fixes. *)
Lemma related_read {A B} (view : Host → A) (f : A → Js B) :
  (∀ h g, R h g → view h = view g) → (∀ a, related R (f a)) →
  related R (h ← get_host; f (view h)).
Proof.
  intros Hview Hf h g HR. rewrite !run_bind. simpl.
  rewrite (Hview h g HR). by apply Hf.
Qed.

Lemma related_modify (f : Host → Host) :
  (∀ h g, R h g → R (f h) (f g)) → related R (modify_host f).
Proof. intros Hf h g HR. split; [reflexivity|by apply Hf]. Qed.

Lemma related_host_call (c : HostCall) :
  (∀ h g, R h g → throws h c = throws g c) → related R (host_call c).
Proof.
  intros Hc h g HR. rewrite !run_host_call, (Hc h g HR).
  by destruct (throws g c).
Qed.
End Related.

Ltac related_step :=
  lazymatch goal with
  | |- related ?R (mret _) => apply (related_ret R)
  | |- related ?R (throw _) => apply (related_throw R)
  | |- related ?R (_ ≫= _) => apply (related_bind R); [|intros ?]
  | |- related ?R (try_catch _ _) => apply (related_try_catch R); [|intros ?]
  | |- related ?R (for_of _ _ _) => apply (related_for_of R); intros ? ?
  | |- related _ (match ?x with _ => _ end) => destruct x
  end.

Ltac related_tac :=
  repeat first [ solve [auto 2 with rel] | related_step ].

Create HintDb rel discriminated.

Lemma agree_throws (h g : Host) (c : HostCall) :
  agree_but_values h g → value_write c = false → throws h c = throws g c.
Proof. intros (_ & _ & _ & _ & _ & _ & _ & _ & _ & Ht). apply Ht. Qed.

Lemma agree_host_call (c : HostCall) :
  value_write c = false → related agree_but_values (host_call c).
Proof.
  intros Hc. apply related_host_call. intros h g HR. by apply agree_throws.
Qed.

Lemma agree_console_log args : related agree_but_values (console_log args).
Proof. intros h g HR. split; [reflexivity|exact HR]. Qed.
Lemma agree_console_warn args : related agree_but_values (console_warn args).
Proof. intros h g HR. split; [reflexivity|exact HR]. Qed.
Lemma agree_console_error args : related agree_but_values (console_error args).
Proof. intros h g HR. split; [reflexivity|exact HR]. Qed.

Lemma agree_notify message : related agree_but_values (notify message).
Proof.
  intros h g HR. split; [reflexivity|].
  unfold agree_but_values in *. simpl. intuition congruence.
Qed.

Lemma agree_postMessage m : related agree_but_values (postMessage m).
Proof.
  intros h g HR. split; [reflexivity|].
  unfold agree_but_values in *. simpl. intuition congruence.
Qed.
#[global] Hint Resolve agree_console_log agree_console_warn
  agree_console_error agree_notify agree_postMessage : rel.
#[global] Hint Extern 1 (related agree_but_values (host_call _)) =>
  apply agree_host_call; reflexivity : rel.

Lemma agree_modify_scene (f : Host → Host) :
  (∀ h, variables (document (f h)) = variables (document h) ∧
        collections (document (f h)) = collections (document h) ∧
        collectionOrder (document (f h)) = collectionOrder (document h) ∧
        pages (document (f h)) = pages (document h) ∧
        notifications (f h) = notifications h ∧ posted (f h) = posted h ∧
        closed (f h) = closed h ∧ throws (f h) = throws h) →
  (∀ h g, nodes (document h) = nodes (document g) → heap h = heap g →
          nodes (document (f h)) = nodes (document (f g)) ∧
          heap (f h) = heap (f g)) →
  related agree_but_values (modify_host f).
Proof.
  intros Hkeep Hsame. apply related_modify. intros h g HR.
  destruct (Hkeep h) as (Hv & Hc & Ho & Hp & Hn & Hpo & Hcl & Ht).
  destruct (Hkeep g) as (Hv' & Hc' & Ho' & Hp' & Hn' & Hpo' & Hcl' & Ht').
  destruct HR as (Rv & Rc & Ro & Rp & Rnodes & Rheap & Rn & Rpo & Rcl & Rt).
  destruct (Hsame h g Rnodes Rheap) as [Hnodes Hheap].
  unfold agree_but_values.
  rewrite Hv, Hv', Hc, Hc', Ho, Ho', Hp, Hp', Hn, Hn', Hpo, Hpo', Hcl, Hcl',
    Ht, Ht'.
  by repeat (split; [assumption|]).
Qed.

Lemma agree_read_node node : related agree_but_values (read_node node).
Proof.
  unfold read_node.
  apply (related_read _ (λ h, default empty_node (nodes (document h) !! node))
           (λ n, mret n)).
  - intros h g (_ & _ & _ & _ & Hn & _). by rewrite Hn.
  - intros n. apply related_ret.
Qed.

Lemma agree_new_array l : related agree_but_values (new_array l).
Proof.
  unfold new_array.
  apply (related_read _ (λ h, length (heap h))
           (λ n, modify_host (set_heap (λ hp, hp ++ [l]));; mret n)).
  - intros h g (_ & _ & _ & _ & _ & Hh & _). by rewrite Hh.
  - intros n. apply related_bind; [|intros; apply related_ret].
    apply agree_modify_scene; [by intros h|].
    intros h g Hn Hh. simpl. by rewrite Hn, Hh.
Qed.

Lemma agree_array_items r : related agree_but_values (array_items r).
Proof.
  unfold array_items.
  apply (related_read _ (λ h, default [] (heap h !! r)) (λ l, mret l)).
  - intros h g (_ & _ & _ & _ & _ & Hh & _). by rewrite Hh.
  - intros l. apply related_ret.
Qed.

Lemma agree_array_assign r i v : related agree_but_values (array_assign r i v).
Proof.
  unfold array_assign. apply agree_modify_scene; [by intros h|].
  intros h g Hn Hh. simpl. by rewrite Hn, Hh.
Qed.

Lemma agree_modify_nodes f :
  related agree_but_values (modify_host (set_document (set_nodes f))).
Proof.
  apply agree_modify_scene; [by intros h|].
  intros h g Hn Hh. simpl. by rewrite Hn, Hh.
Qed.
#[global] Hint Resolve agree_read_node agree_new_array agree_array_items
  agree_array_assign agree_modify_nodes : rel.

Lemma agree_rebindVariable node property newVariable bindingIndex
    isArrayBinding :
  related agree_but_values
    (rebindVariable node property newVariable bindingIndex isArrayBinding).
Proof.
  unfold rebindVariable, rebind_in_list, setBoundVariable,
    setBoundVariableForPaint, setBoundVariableForEffect, get_list_property,
    set_list_property, JSON_clone, array_get.
  related_tac.
Qed.

Lemma agree_findAllVariableBindings variableIds :
  related agree_but_values (findAllVariableBindings variableIds).
Proof.
  unfold findAllVariableBindings.
  apply (related_read _ (λ h, pages (document h))
           (λ ps, for_of (imap pair ps)
              (λ (allBindings : list Binding) '(p, allNodes),
                 host_call (LoadPage p);;
                 host_call (FindAll p);;
                 for_of allNodes (λ (allBindings : list Binding) node,
                   n ← read_node node;
                   mret (allBindings ++
                         bindings_of_node (list_to_set variableIds) node n))
                   allBindings) [])).
  - intros h g (_ & _ & _ & Hp & _). exact Hp.
  - intros ps. related_tac.
Qed.
#[global] Hint Resolve agree_rebindVariable agree_findAllVariableBindings : rel.


Lemma agree_lookup (h g : Host) (k : string) :
  agree_but_values h g →
  erase_values <$> variables (document h) !! k =
  erase_values <$> variables (document g) !! k.
Proof. intros (He & _). by rewrite <- !lookup_fmap, He. Qed.

Lemma agree_update (h g : Host) (f f' : Document → Document) :
  agree_but_values h g →
  erase_values <$> variables (f (document h)) =
    erase_values <$> variables (f' (document g)) →
  collections (f (document h)) = collections (f' (document g)) →
  collectionOrder (f (document h)) = collectionOrder (document h) →
  collectionOrder (f' (document g)) = collectionOrder (document g) →
  pages (f (document h)) = pages (document h) →
  pages (f' (document g)) = pages (document g) →
  nodes (f (document h)) = nodes (document h) →
  nodes (f' (document g)) = nodes (document g) →
  agree_but_values (set_document f h) (set_document f' g).
Proof.
  intros (_ & _ & Ro & Rp & Rn & Rrest) Hv Hc Ho Ho' Hp Hp' Hn Hn'.
  unfold agree_but_values. simpl.
  rewrite Ho, Ho', Hp, Hp', Hn, Hn'. by repeat (split; [assumption|]).
Qed.

Lemma agree_update_variable variable (f : DesignVariable → DesignVariable) :
  (∀ x y, erase_values x = erase_values y →
          erase_values (f x) = erase_values (f y)) →
  related agree_but_values (update_variable variable f).
Proof.
  intros Hf. apply related_modify. intros h g HR.
  apply agree_update; try done; [|by destruct HR as (_ & ? & _)].
  simpl. apply map_eq. intros k. rewrite !lookup_fmap.
  pose proof (agree_lookup h g k HR) as Hk.
  destruct (decide (k = variable)) as [->|Hne].
  - rewrite !lookup_alter_eq.
    destruct (variables (document h) !! variable) as [x|],
             (variables (document g) !! variable) as [y|]; try done.
    apply (inj Some) in Hk. cbn [fmap option_fmap option_map].
    by rewrite (Hf x y Hk).
  - by rewrite !lookup_alter_ne.
Qed.

Lemma agree_createVariable name destinationCollection resolvedType :
  related agree_but_values
    (createVariable name destinationCollection resolvedType).
Proof.
  unfold createVariable. apply related_bind; [auto with rel|]. intros _.
  apply (related_read _
           (λ h, new_variable_id (dom (variables (document h))))
           (λ newId,
              modify_host (set_document (λ d,
                set_collections
                  (alter (add_variableId newId) (coll_id destinationCollection))
                  (set_variables
                     (insert newId
                        (mkVariable newId name resolvedType "" false
                           ["ALL_SCOPES"] [] []
                           (coll_id destinationCollection))) d)));;
              mret newId)).
  - intros h g (He & _).
    by rewrite <- (dom_fmap_L erase_values (variables (document h))), He,
      dom_fmap_L.
  - intros newId. apply related_bind; [|intros; apply related_ret].
    apply related_modify. intros h g HR.
    apply agree_update; try done.
    + simpl. rewrite !fmap_insert. destruct HR as (-> & _). reflexivity.
    + simpl. destruct HR as (_ & -> & _). reflexivity.
Qed.
#[global] Hint Resolve agree_createVariable : rel.

Lemma agree_createVariableInCollection originalVariable destinationCollection :
  related agree_but_values
    (createVariableInCollection originalVariable destinationCollection).
Proof.
  unfold createVariableInCollection, set_description,
    set_hiddenFromPublishing, set_scopes, setVariableCodeSyntax.
  pose proof (λ v s, agree_update_variable v (with_description s)) as H1.
  pose proof (λ v s, agree_update_variable v (with_hiddenFromPublishing s))
    as H2.
  pose proof (λ v s, agree_update_variable v (with_scopes s)) as H3.
  pose proof (λ v p s, agree_update_variable v (with_codeSyntax p s)) as H4.
  assert (∀ v s, related agree_but_values
                   (update_variable v (with_description s))) as H1'.
  { intros v s. apply H1. intros x y Hxy. injection Hxy. intros.
    unfold erase_values, with_description. simpl. congruence. }
  assert (∀ v s, related agree_but_values
                   (update_variable v (with_hiddenFromPublishing s))) as H2'.
  { intros v s. apply H2. intros x y Hxy. injection Hxy. intros.
    unfold erase_values, with_hiddenFromPublishing. simpl. congruence. }
  assert (∀ v s, related agree_but_values
                   (update_variable v (with_scopes s))) as H3'.
  { intros v s. apply H3. intros x y Hxy. injection Hxy. intros.
    unfold erase_values, with_scopes. simpl. congruence. }
  assert (∀ v p s, related agree_but_values
                     (update_variable v (with_codeSyntax p s))) as H4'.
  { intros v p s. apply H4. intros x y Hxy. injection Hxy. intros.
    unfold erase_values, with_codeSyntax. simpl. congruence. }
  clear H1 H2 H3 H4. related_tac.
Qed.
#[global] Hint Resolve agree_createVariableInCollection : rel.







(** *** The checks read the same on hosts with the same document *)









(** ** The counts of the completion response *)

#[global] Instance posts_nothing_preorder : PreOrder posts_nothing.
Proof.
  split; [by intros h|].
  intros h1 h2 h3 H12 H23. unfold posts_nothing in *. congruence.
Qed.

Lemma rebind_and_delete_posts_nothing idMapping :
  preserves posts_nothing (rebind_and_delete idMapping).
Proof.
  unfold rebind_and_delete.
  apply (preserves_bind posts_nothing); [by intros h|]. intros _.
  apply (preserves_bind posts_nothing).
  { apply (preserves_weaken variables_kept); [|apply phase3_kept].
    by intros h h' (_ & _ & _ & _ & _ & Hp). }
  intros rebound.
  apply (preserves_bind posts_nothing); [by intros h|]. intros _.
  apply (preserves_bind posts_nothing); [by intros h|]. intros _.
  apply (preserves_bind posts_nothing).
  { apply (preserves_weaken scene_kept); [|apply phase4_scene].
    by intros h h' (_ & _ & _ & _ & _ & Hp & _). }
  intros deleteCount.
  apply (preserves_bind posts_nothing); [by intros h|]. intros _.
  apply (preserves_ret posts_nothing).
Qed.

(** What [migrate] posts, whether it returns or raises: one completion
    response, or nothing. *)
Lemma migrate_posts selectedVariableIds duplicates safeToMove
    destinationCollection (h : Host) :
  let h' := snd (migrate selectedVariableIds duplicates safeToMove
                   destinationCollection h) in
  posted h' = posted h ∨
  ∃ created rebound deleteCount,
    posted h' = posted h ++
      [MoveComplete (createSuccessCount created) (createErrorCount created)
         (length duplicates) (rebindSuccessCount rebound)
         (rebindErrorCount rebound) deleteCount
         (coll_name destinationCollection)] ∧
    createSuccessCount created + createErrorCount created =
      length safeToMove ∧
    deleteCount ≤ createSuccessCount created.
Proof.
  intros h'. unfold h'. clear h'.
  destruct (migrate selectedVariableIds duplicates safeToMove
              destinationCollection h) as [[[]|e] h'] eqn:Hrun.
  { right. exact (migrate_response _ _ _ _ _ _ Hrun). }
  left. simpl. unfold migrate in Hrun.
  destruct (create_and_copy_spec selectedVariableIds duplicates safeToMove
              destinationCollection h)
    as (created & copied & h1 & h2' & h2 & Hrun12 & _ & _ & _ & _ & _ & Hp1
        & _ & _ & _ & Hrun2 & _ & Hp2 & _).
  pose proof (phase2_values safeToMove destinationCollection
                (idMapping created) h1) as Hvo.
  rewrite Hrun2 in Hvo.
  destruct Hvo as (_ & _ & _ & _ & _ & _ & _ & _ & Hp2' & _).
  rewrite run_bind, Hrun12 in Hrun. simpl in Hrun. rewrite run_bind in Hrun.
  pose proof (rebind_and_delete_posts_nothing (idMapping created) h2) as Hp34.
  destruct (rebind_and_delete (idMapping created) h2)
    as [[[rebound deleteCount]|e'] h4]; [discriminate|].
  injection Hrun as _ <-. unfold posts_nothing in Hp34. simpl in *.
  congruence.
Qed.

(** What the handler posts: nothing, one error, or one completion response
    with the counts of the resolution. *)
Lemma on_move_variables_posts (msg : Message) (h : Host) :
  let h' := snd (on_move_variables msg h) in
  posted h' = posted h ∨
  (∃ e, posted h' = posted h ++ [MoveError e]) ∨
  ∃ s e rs re d name,
    posted h' = posted h ++
      [MoveComplete s e (length (duplicates (resolution msg h))) rs re d
         name] ∧
    s + e = length (canMove (resolution msg h)) ∧ d ≤ s.
Proof.
  intros h'. unfold h'. clear h'.
  destruct (on_move_variables_migrate msg h)
    as [(e & hr & -> & _ & Hp & _)|[(err & ->)|(dest & ->)]].
  - right; left. by exists e.
  - by left.
  - destruct (migrate_posts (default [] (selectedVariableIds msg))
                (duplicates (resolution msg h)) (canMove (resolution msg h))
                dest h)
      as [Hp|(created & rebound & deleteCount & Hp & Hcount & Hle)].
    + by left.
    + right; right. by eexists _, _, _, _, _, _.
Qed.




(** * The helpers that read collections *)

Lemma run_getVariableByIdAsync (variableId : string) (h : Host) :
  getVariableByIdAsync variableId h =
  if throws h (GetVariableById variableId) then (Thrown "host error", h)
  else (Normal (variables (document h) !! variableId), h).
Proof.
  unfold getVariableByIdAsync. rewrite run_bind, run_host_call.
  by destruct (throws h (GetVariableById variableId)).
Qed.

Lemma run_getVariableCollectionByIdAsync (collectionId : string) (h : Host) :
  getVariableCollectionByIdAsync collectionId h =
  if throws h (GetVariableCollectionById collectionId)
  then (Thrown "host error", h)
  else (Normal (collections (document h) !! collectionId), h).
Proof.
  unfold getVariableCollectionByIdAsync. rewrite run_bind, run_host_call.
  by destruct (throws h (GetVariableCollectionById collectionId)).
Qed.

(** The loop of [getVariablesInCollection]: it raises at the first lookup
    that raises, and collects the variables that resolve otherwise. *)
Lemma getVariablesInCollection_loop (ids : list string)
    (acc : list DesignVariable) (h : Host) :
  for_of ids (λ variables variableId,
    variable ← getVariableByIdAsync variableId;
    match variable with
    | Some variable => mret (variables ++ [variable])
    | None => mret variables
    end) acc h =
  if existsb (λ i, throws h (GetVariableById i)) ids
  then (Thrown "host error", h)
  else (Normal (acc ++ omap (λ i, variables (document h) !! i) ids), h).
Proof.
  revert acc. induction ids as [|i ids IH]; intros acc.
  - simpl. by rewrite app_nil_r.
  - rewrite run_for_of_cons. cbv beta.
    rewrite run_bind, run_getVariableByIdAsync. simpl existsb. simpl omap.
    destruct (throws h (GetVariableById i)); [reflexivity|].
    destruct (variables (document h) !! i) as [v|]; simpl; rewrite IH;
      destruct (existsb _ ids); try reflexivity.
    by rewrite <- app_assoc.
Qed.

Lemma getVariablesInCollection_run (collectionId : string) (h : Host) :
  getVariablesInCollection collectionId h =
  if throws h (GetVariableCollectionById collectionId)
  then (Thrown "host error", h)
  else match collections (document h) !! collectionId with
       | None => (Normal [], h)
       | Some collection =>
           if existsb (λ i, throws h (GetVariableById i))
                (variableIds collection)
           then (Thrown "host error", h)
           else (Normal (omap (λ i, variables (document h) !! i)
                           (variableIds collection)), h)
       end.
Proof.
  unfold getVariablesInCollection.
  rewrite run_bind, run_getVariableCollectionByIdAsync.
  destruct (throws h (GetVariableCollectionById collectionId));
    [reflexivity|].
  destruct (collections (document h) !! collectionId) as [collection|];
    [|reflexivity].
  apply getVariablesInCollection_loop.
Qed.

(** X1.  When the lookups it makes do not raise, [getVariablesInCollection]
    returns the variables of the collection's [variableIds] that resolve, in
    that order, skipping the identities that do not; for a collection that
    is not in the document it returns the empty list, not an error.  The
    host is left as it was. *)
Theorem getVariablesInCollection_reads (collectionId : string) (h : Host) :
  throws h (GetVariableCollectionById collectionId) = false →
  (∀ collection variableId,
     collections (document h) !! collectionId = Some collection →
     variableId ∈ variableIds collection →
     throws h (GetVariableById variableId) = false) →
  getVariablesInCollection collectionId h =
  (Normal (variables_of (document h) collectionId), h).
Proof.
  intros Hcoll Hvars. rewrite getVariablesInCollection_run, Hcoll.
  unfold variables_of.
  destruct (collections (document h) !! collectionId) as [collection|] eqn:Hc;
    [|reflexivity].
  destruct (existsb _ (variableIds collection)) eqn:Hex; [|reflexivity].
  apply existsb_exists in Hex as (i & Hi & Hno).
  apply list_elem_of_In in Hi.
  rewrite (Hvars collection i eq_refl Hi) in Hno. discriminate.
Qed.

(** The document of [Sample], on a host where nothing raises: the
    variables of [Brand], and of a collection that is not there. *)
Lemma getVariablesInCollection_reads_witness :
  getVariablesInCollection "brand" (Sample.host Sample.reliable) =
    (Normal [Sample.color_base; Sample.color_alias; Sample.spacing;
             Sample.dangling; Sample.linked], Sample.host Sample.reliable) ∧
  getVariablesInCollection "gone" (Sample.host Sample.reliable) =
    (Normal [], Sample.host Sample.reliable).
Proof.
  split.
  - rewrite (getVariablesInCollection_reads "brand"
               (Sample.host Sample.reliable)); [|reflexivity|reflexivity].
    f_equal.
  - by rewrite (getVariablesInCollection_reads "gone"
                  (Sample.host Sample.reliable)).
Defined.

(** X2.  [getVariablesInCollection] raises exactly when the lookup of the
    collection raises, or the collection is there and the lookup of one of
    its [variableIds] raises; nothing it does catches the error.  Whether it
    returns or raises, the host is left as it was. *)
Theorem getVariablesInCollection_raises (collectionId : string) (h : Host) :
  ((∃ e, fst (getVariablesInCollection collectionId h) = Thrown e) ↔
   throws h (GetVariableCollectionById collectionId) = true ∨
   ∃ collection variableId,
     collections (document h) !! collectionId = Some collection ∧
     variableId ∈ variableIds collection ∧
     throws h (GetVariableById variableId) = true) ∧
  snd (getVariablesInCollection collectionId h) = h.
Proof.
  rewrite getVariablesInCollection_run.
  destruct (throws h (GetVariableCollectionById collectionId)) eqn:Hcoll.
  { split; [|reflexivity]. split; [by left|by eauto]. }
  destruct (collections (document h) !! collectionId) as [collection|] eqn:Hc.
  - destruct (existsb _ (variableIds collection)) eqn:Hex;
      (split; [|reflexivity]).
    + apply existsb_exists in Hex as (i & Hi & Hno).
      apply list_elem_of_In in Hi.
      split; [intros _; right; by exists collection, i|by eauto].
    + split; [intros [e He]; discriminate|].
      intros [?|(collection' & i & Hc' & Hi & Hno)]; [discriminate|].
      injection Hc' as <-.
      assert (existsb (λ i, throws h (GetVariableById i))
                (variableIds collection) = true) as Hyes.
      { apply existsb_exists. exists i. by rewrite <- list_elem_of_In. }
      congruence.
  - split; [|reflexivity]. split; [intros [e He]; discriminate|].
    intros [?|(collection' & i & Hc' & _)]; discriminate.
Qed.

(** The set the loop of [getVariableNamesInCollection] builds. *)
Lemma names_foldl (variables : list DesignVariable) (names : gset string)
    (n : string) :
  n ∈ foldl (λ names variable, {[name variable]} ∪ names) names variables ↔
  n ∈ names ∨ ∃ variable, variable ∈ variables ∧ name variable = n.
Proof.
  revert names. induction variables as [|v variables IH]; intros names; simpl.
  - split; [by left|]. intros [?|(v & Hv & _)]; [done|].
    by apply elem_of_nil in Hv.
  - rewrite IH, elem_of_union, elem_of_singleton. split.
    + intros [[->|?]|(w & Hw & Hn)].
      * right. exists v. split; [by left|done].
      * by left.
      * right. exists w. split; [by right|done].
    + intros [?|(w & Hw & Hn)]; [left; by right|].
      apply elem_of_cons in Hw as [->|Hw]; [left; left; done|].
      right. by exists w.
Qed.

(** X3.  When [getVariablesInCollection] returns, so does
    [getVariableNamesInCollection], with exactly the names of the variables
    returned: a string is in the set if and only if it is the name of one
    of them, compared as it is. *)
Theorem getVariableNamesInCollection_names (collectionId : string)
    (h h' : Host) (variables : list DesignVariable) :
  getVariablesInCollection collectionId h = (Normal variables, h') →
  ∃ names,
    getVariableNamesInCollection collectionId h = (Normal names, h') ∧
    ∀ n, n ∈ names ↔ ∃ variable, variable ∈ variables ∧ name variable = n.
Proof.
  intros Hrun. unfold getVariableNamesInCollection.
  rewrite run_bind, Hrun. eexists. split; [reflexivity|].
  intros n. rewrite names_foldl. split; [|by right].
  intros [Hn|?]; [|done]. by apply elem_of_empty in Hn.
Qed.

Lemma getVariableNamesInCollection_names_witness :
  ∃ names,
    getVariableNamesInCollection "tokens" (Sample.host Sample.reliable) =
      (Normal names, Sample.host Sample.reliable) ∧
    ∀ n, n ∈ names ↔
         ∃ variable, variable ∈ [Sample.tokens_spacing] ∧ name variable = n.
Proof.
  apply (getVariableNamesInCollection_names "tokens"
           (Sample.host Sample.reliable) (Sample.host Sample.reliable)
           [Sample.tokens_spacing]).
  vm_compute. reflexivity.
Defined.

(** * Locating the bindings *)

Section Scan.
Variable targetVariableIds : gset string.

Lemma run_scan_nodes (allNodes : list string) (allBindings : list Binding)
    (h : Host) :
  for_of allNodes (λ (allBindings : list Binding) node,
    n ← read_node node;
    mret (allBindings ++ bindings_of_node targetVariableIds node n))
    allBindings h =
  (Normal (scan_nodes targetVariableIds h allBindings allNodes), h).
Proof.
  revert allBindings.
  induction allNodes as [|node allNodes IH]; intros allBindings;
    [reflexivity|].
  rewrite run_for_of_cons. cbv beta. rewrite run_bind, run_read_node.
  simpl. by rewrite IH.
Qed.

Lemma run_scan_pages (l : list (nat * list string))
    (allBindings : list Binding) (h : Host) :
  for_of l (λ (allBindings : list Binding) '(p, allNodes),
    host_call (LoadPage p);;
    host_call (FindAll p);;
    for_of allNodes (λ (allBindings : list Binding) node,
      n ← read_node node;
      mret (allBindings ++ bindings_of_node targetVariableIds node n))
      allBindings)
    allBindings h =
  if page_fails h l then (Thrown "host error", h)
  else (Normal (scan_pages targetVariableIds h allBindings l), h).
Proof.
  revert allBindings.
  induction l as [|[p allNodes] l IH]; intros allBindings; [reflexivity|].
  rewrite run_for_of_cons. cbv beta iota.
  rewrite run_bind, run_host_call. simpl page_fails.
  destruct (throws h (LoadPage p)); [reflexivity|].
  rewrite run_bind, run_host_call.
  destruct (throws h (FindAll p)); [reflexivity|].
  rewrite run_scan_nodes. simpl. apply IH.
Qed.

Lemma elem_of_array_bindings (node propertyName : string)
    (l : list (nat * option string)) (found : list Binding) (b : Binding) :
  b ∈ foldl (λ found '(index, item),
        match item with
        | Some itemId =>
            if truthy itemId && bool_decide (itemId ∈ targetVariableIds)
            then found ++ [mkBinding node propertyName itemId (Some index) true]
            else found
        | None => found
        end) found l ↔
  b ∈ found ∨
  ∃ index itemId,
    (index, Some itemId) ∈ l ∧ itemId ≠ "" ∧ itemId ∈ targetVariableIds ∧
    b = mkBinding node propertyName itemId (Some index) true.
Proof.
  revert found. induction l as [|[index item] l IH]; intros found.
  - simpl. split; [by left|]. intros [?|(? & ? & Hin & _)]; [done|].
    by apply elem_of_nil in Hin.
  - simpl foldl. rewrite IH. clear IH. split.
    + intros [Hb|(i & x & Hin & ? & ? & ?)].
      * destruct item as [itemId|]; [|by left].
        destruct (truthy itemId && bool_decide (itemId ∈ targetVariableIds))
          eqn:Hok; [|by left].
        apply elem_of_app in Hb as [?|Hb]; [by left|].
        apply list_elem_of_singleton in Hb as ->.
        apply andb_true_iff in Hok as [Ht Hin].
        apply bool_decide_eq_true in Ht, Hin.
        right. exists index, itemId. split; [by left|done].
      * right. exists i, x. split; [by right|done].
    + intros [Hb|(i & x & Hin & Hne & HT & ->)].
      * left. destruct item as [itemId|]; [|done].
        destruct (truthy itemId && bool_decide (itemId ∈ targetVariableIds));
          [|done].
        apply elem_of_app. by left.
      * apply elem_of_cons in Hin as [Heq|Hin].
        -- injection Heq as <- <-. left. unfold truthy.
           rewrite !bool_decide_eq_true_2 by done. simpl.
           apply elem_of_app. right. by left.
        -- right. by exists i, x.
Qed.

(** What one entry of [boundVariables] contributes. *)
Lemma elem_of_bindings_of_entry (nodeId propertyName : string)
    (binding : BoundValue) (b : Binding) :
  b ∈ bindings_of_entry targetVariableIds nodeId propertyName binding ↔
  nodeId = node b ∧ propertyName = property b ∧
  variableId b ≠ "" ∧ variableId b ∈ targetVariableIds ∧
  ((isArrayBinding b = false ∧ bindingIndex b = None ∧
    binding = BoundAlias (variableId b)) ∨
   (∃ items index,
      isArrayBinding b = true ∧ bindingIndex b = Some index ∧
      binding = BoundArray items ∧
      items !! index = Some (Some (variableId b)))).
Proof.
  destruct binding as [bindingId|items|]; simpl.
  - destruct (truthy bindingId && bool_decide (bindingId ∈ targetVariableIds))
      eqn:Hok.
    + apply andb_true_iff in Hok as [Ht Hin].
      apply bool_decide_eq_true in Ht, Hin.
      rewrite list_elem_of_singleton. split.
      * intros ->. simpl. repeat (split; [done|]). by left.
      * intros (-> & -> & _ & _ & [(Ha & Hi & Heq)|(? & ? & _ & _ & ? & _)]);
          [|discriminate].
        injection Heq as ->. destruct b. simpl in *. by subst.
    + split; [intros Hb; by apply elem_of_nil in Hb|].
      intros (_ & _ & Hne & HT & [(_ & _ & Heq)|(? & ? & _ & _ & ? & _)]);
        [|discriminate].
      injection Heq as ->. unfold truthy in Hok.
      rewrite !bool_decide_eq_true_2 in Hok by done. discriminate.
  - rewrite elem_of_array_bindings. split.
    + intros [Hb|(index & itemId & Hin & Hne & HT & ->)];
        [by apply elem_of_nil in Hb|].
      apply elem_of_lookup_imap in Hin as (i & x & Heq & Hx).
      injection Heq as <- <-. simpl. repeat (split; [done|]).
      right. by exists items, index.
    + intros (-> & -> & Hne & HT & [(_ & _ & ?)|(items' & index & Ha & Hi & Heq
                                                    & Hx)]); [discriminate|].
      injection Heq as <-. right. exists index, (variableId b).
      split; [apply elem_of_lookup_imap; by exists index, (Some (variableId b))|].
      repeat (split; [done|]). destruct b. simpl in *. by subst.
  - split; [intros Hb; by apply elem_of_nil in Hb|].
    intros (_ & _ & _ & _ & [(_ & _ & ?)|(? & ? & _ & _ & ? & _)]);
      discriminate.
Qed.

Lemma elem_of_entries (node : string) (boundVars : list (string * BoundValue))
    (found : list Binding) (b : Binding) :
  b ∈ foldl (λ found '(propertyName, binding),
        found ++ bindings_of_entry targetVariableIds node propertyName binding)
        found boundVars ↔
  b ∈ found ∨
  ∃ propertyName binding,
    (propertyName, binding) ∈ boundVars ∧
    b ∈ bindings_of_entry targetVariableIds node propertyName binding.
Proof.
  revert found. induction boundVars as [|[p x] boundVars IH]; intros found.
  - simpl. split; [by left|]. intros [?|(? & ? & Hin & _)]; [done|].
    by apply elem_of_nil in Hin.
  - simpl foldl. rewrite IH, elem_of_app. clear IH. split.
    + intros [[?|Hb]|(q & y & Hin & Hb)]; [by left| |].
      * right. exists p, x. split; [by left|done].
      * right. exists q, y. split; [by right|done].
    + intros [?|(q & y & Hin & Hb)]; [left; by left|].
      apply elem_of_cons in Hin as [Heq|Hin].
      * injection Heq as -> ->. left; by right.
      * right. by exists q, y.
Qed.

Lemma elem_of_scan_nodes (h : Host) (allNodes : list string)
    (allBindings : list Binding) (b : Binding) :
  b ∈ scan_nodes targetVariableIds h allBindings allNodes ↔
  b ∈ allBindings ∨
  ∃ node, node ∈ allNodes ∧
          b ∈ bindings_of_node targetVariableIds node (the_node h node).
Proof.
  unfold scan_nodes. revert allBindings.
  induction allNodes as [|node allNodes IH]; intros allBindings.
  - simpl. split; [by left|]. intros [?|(? & Hin & _)]; [done|].
    by apply elem_of_nil in Hin.
  - simpl foldl. rewrite IH, elem_of_app. clear IH. split.
    + intros [[?|Hb]|(n & Hin & Hb)]; [by left| |].
      * right. exists node. split; [by left|done].
      * right. exists n. split; [by right|done].
    + intros [?|(n & Hin & Hb)]; [left; by left|].
      apply elem_of_cons in Hin as [->|Hin]; [left; by right|].
      right. by exists n.
Qed.

Lemma elem_of_scan_pages (h : Host) (l : list (nat * list string))
    (allBindings : list Binding) (b : Binding) :
  b ∈ scan_pages targetVariableIds h allBindings l ↔
  b ∈ allBindings ∨
  ∃ p allNodes node,
    (p, allNodes) ∈ l ∧ node ∈ allNodes ∧
    b ∈ bindings_of_node targetVariableIds node (the_node h node).
Proof.
  unfold scan_pages. revert allBindings.
  induction l as [|[p allNodes] l IH]; intros allBindings.
  - simpl. split; [by left|]. intros [?|(? & ? & ? & Hin & _)]; [done|].
    by apply elem_of_nil in Hin.
  - simpl foldl. rewrite IH, elem_of_scan_nodes. clear IH. split.
    + intros [[?|(n & Hin & Hb)]|(q & ns & n & Hin & Hn & Hb)]; [by left| |].
      * right. exists p, allNodes, n. split; [by left|done].
      * right. exists q, ns, n. split; [by right|done].
    + intros [?|(q & ns & n & Hin & Hn & Hb)]; [left; by left|].
      apply elem_of_cons in Hin as [Heq|Hin].
      * injection Heq as -> ->. left; right. by exists n.
      * right. by exists q, ns, n.
Qed.

End Scan.

Lemma run_findAllVariableBindings (variableIds : list string) (h : Host) :
  findAllVariableBindings variableIds h =
  if page_fails h (imap pair (pages (document h)))
  then (Thrown "host error", h)
  else (Normal (scan_pages (list_to_set variableIds) h []
                  (imap pair (pages (document h)))), h).
Proof.
  unfold findAllVariableBindings. rewrite run_bind. simpl.
  apply run_scan_pages.
Qed.

Lemma elem_of_bindings_of_node (variableIds : list string) (h : Host)
    (nodeId : string) (b : Binding) :
  b ∈ bindings_of_node (list_to_set variableIds) nodeId (the_node h nodeId) ↔
  nodeId = node b ∧
  ∃ n boundVars,
    nodes (document h) !! nodeId = Some n ∧
    boundVariables n = Some boundVars ∧
    variableId b ≠ "" ∧ variableId b ∈ variableIds ∧
    ((isArrayBinding b = false ∧ bindingIndex b = None ∧
      (property b, BoundAlias (variableId b)) ∈ boundVars) ∨
     (∃ items index,
        isArrayBinding b = true ∧ bindingIndex b = Some index ∧
        (property b, BoundArray items) ∈ boundVars ∧
        items !! index = Some (Some (variableId b)))).
Proof.
  unfold bindings_of_node, the_node.
  destruct (nodes (document h) !! nodeId) as [n|] eqn:Hn; simpl.
  - destruct (boundVariables n) as [boundVars|] eqn:Hbv.
    + rewrite elem_of_entries. split.
      * intros [Hb|(p & x & Hin & Hb)]; [by apply elem_of_nil in Hb|].
        apply elem_of_bindings_of_entry in Hb
          as (-> & -> & Hne & HT & Hcase).
        apply elem_of_list_to_set in HT.
        split; [done|]. exists n, boundVars. repeat (split; [done|]).
        destruct Hcase as [(? & ? & ->)|(items & index & ? & ? & -> & ?)];
          [by left|right; by exists items, index].
      * intros (-> & n' & boundVars' & Hn' & Hbv' & Hne & HT & Hcase).
        injection Hn' as <-. rewrite Hbv in Hbv'. injection Hbv' as <-.
        right.
        destruct Hcase as [(? & ? & Hin)|(items & index & ? & ? & Hin & ?)].
        -- exists (property b), (BoundAlias (variableId b)).
           split; [done|]. apply elem_of_bindings_of_entry.
           repeat (split; [done|]). split; [by apply elem_of_list_to_set|].
           by left.
        -- exists (property b), (BoundArray items).
           split; [done|]. apply elem_of_bindings_of_entry.
           repeat (split; [done|]). split; [by apply elem_of_list_to_set|].
           right. by exists items, index.
    + split; [intros Hb; by apply elem_of_nil in Hb|].
      intros (_ & n' & boundVars' & Hn' & Hbv' & _).
      injection Hn' as <-. congruence.
  - split; [intros Hb; by apply elem_of_nil in Hb|].
    intros (_ & n' & boundVars' & Hn' & _). discriminate.
Qed.

(** X4.  When [findAllVariableBindings] returns, it returns exactly the
    bindings of the document to the given variables: a record is in the
    result if and only if its node is listed on a page and has, under the
    record's property, either a single alias to the record's variable (then
    the record is not an array binding and has no index) or an array with an
    alias to it at the record's index; the variable is one of those given
    and its identity is not empty.  So nothing is found for an empty list of
    variables. *)
Theorem findAllVariableBindings_exact (variableIds : list string)
    (h h' : Host) (allBindings : list Binding) :
  findAllVariableBindings variableIds h = (Normal allBindings, h') →
  (∀ b, b ∈ allBindings ↔ bound_in variableIds h b) ∧
  (variableIds = [] → allBindings = []).
Proof.
  rewrite run_findAllVariableBindings. intros Hrun.
  destruct (page_fails h _); [discriminate|]. injection Hrun as <- <-.
  assert (∀ b, b ∈ scan_pages (list_to_set variableIds) h []
                     (imap pair (pages (document h))) ↔
               bound_in variableIds h b) as Hexact.
  { intros b. rewrite elem_of_scan_pages. unfold bound_in. split.
    - intros [Hb|(p & allNodes & nodeId & Hin & Hnode & Hb)];
        [by apply elem_of_nil in Hb|].
      apply elem_of_lookup_imap in Hin as (i & x & Heq & Hx).
      injection Heq as <- <-.
      apply elem_of_bindings_of_node in Hb
        as (-> & n & boundVars & Hn & Hbv & Hrest).
      by exists p, allNodes, n, boundVars.
    - intros (p & allNodes & n & boundVars & Hp & Hnode & Hn & Hbv & Hrest).
      right. exists p, allNodes, (node b).
      split; [apply elem_of_lookup_imap; by exists p, allNodes|].
      split; [done|]. apply elem_of_bindings_of_node.
      split; [done|]. by exists n, boundVars. }
  split; [exact Hexact|]. intros ->.
  destruct (scan_pages _ h [] _) as [|b l] eqn:Hscan; [reflexivity|].
  assert (bound_in [] h b) as (? & ? & ? & ? & _ & _ & _ & _ & _ & Hin & _)
    by (apply Hexact; left).
  by apply elem_of_nil in Hin.
Qed.

(** The page of [Sample] holds one binding to [color-base]: entry 0 of the
    fills of the card. *)
Lemma findAllVariableBindings_exact_witness :
  bound_in ["VariableID:1:1"] (Sample.host Sample.reliable)
    (mkBinding "card" "fills" "VariableID:1:1" (Some 0) true) ∧
  ¬ bound_in ["VariableID:1:1"] (Sample.host Sample.reliable)
      (mkBinding "card" "width" "VariableID:1:3" None false).
Proof.
  destruct (findAllVariableBindings_exact ["VariableID:1:1"]
              (Sample.host Sample.reliable) (Sample.host Sample.reliable)
              [mkBinding "card" "fills" "VariableID:1:1" (Some 0) true])
    as [Hexact _]; [vm_compute; reflexivity|].
  split.
  - apply Hexact. left.
  - intros Hb. apply Hexact in Hb.
    apply list_elem_of_singleton in Hb. discriminate.
Defined.

(** X5.  [findAllVariableBindings] raises exactly when loading or searching
    one of the document's pages raises: no such failure is caught, so one
    page that cannot be loaded makes the whole search fail.  Whether it
    returns or raises, the host is left as it was. *)
Theorem findAllVariableBindings_raises (variableIds : list string)
    (h : Host) :
  ((∃ e, fst (findAllVariableBindings variableIds h) = Thrown e) ↔
   ∃ p allNodes,
     pages (document h) !! p = Some allNodes ∧
     (throws h (LoadPage p) = true ∨ throws h (FindAll p) = true)) ∧
  snd (findAllVariableBindings variableIds h) = h.
Proof.
  rewrite run_findAllVariableBindings.
  destruct (page_fails h _) eqn:Hfail; simpl; (split; [|reflexivity]).
  - split; [|by eauto]. intros _.
    apply existsb_exists in Hfail as ([p allNodes] & Hin & Hp).
    apply list_elem_of_In, elem_of_lookup_imap in Hin
      as (i & x & Heq & Hx).
    injection Heq as <- <-. exists p, allNodes. split; [done|].
    by apply orb_true_iff in Hp.
  - split; [intros [e He]; discriminate|].
    intros (p & allNodes & Hp & Hno). exfalso.
    assert (page_fails h (imap pair (pages (document h))) = true) as Hyes.
    { apply existsb_exists. exists (p, allNodes).
      split; [|by apply orb_true_iff].
      apply list_elem_of_In, elem_of_lookup_imap. by exists p, allNodes. }
    congruence.
Qed.

(** * The requests that only read *)

Lemma required_inv (field : option string) (h h' : Host) (s : string) :
  required field h = (Normal s, h') → field = Some s ∧ h' = h.
Proof. destruct field; [|discriminate]. intros [= -> ->]. done. Qed.

Lemma filter_names_lengths (names : gset string) (l : list DesignVariable) :
  length (filter (λ v, name v ∈ names) l) +
  length (filter (λ v, name v ∉ names) l) = length l.
Proof.
  induction l as [|v l IH]; [reflexivity|].
  rewrite !filter_cons.
  destruct (decide (name v ∈ names)); simpl.
  - rewrite decide_False by (intros H; by apply H). simpl. lia.
  - rewrite decide_True by assumption. simpl. lia.
Qed.

(** What [check-duplicates] does when it returns. *)
Lemma on_check_duplicates_run (msg : Message) (h h' : Host) :
  on_check_duplicates msg h = (Normal tt, h') →
  ∃ s d sourceVariables destinationNames,
    sourceCollectionId msg = Some s ∧ destinationCollectionId msg = Some d ∧
    getVariablesInCollection s h = (Normal sourceVariables, h) ∧
    getVariableNamesInCollection d h = (Normal destinationNames, h) ∧
    h' = snd (postMessage (DuplicatesCheckResult
      (map duplicate_row
         (filter (λ v, name v ∈ destinationNames) sourceVariables))
      (map duplicate_row
         (filter (λ v, name v ∉ destinationNames) sourceVariables))
      (length (map duplicate_row
         (filter (λ v, name v ∈ destinationNames) sourceVariables)))
      (length (map duplicate_row
         (filter (λ v, name v ∉ destinationNames) sourceVariables)))) h).
Proof.
  unfold on_check_duplicates. rewrite run_bind.
  destruct (required (sourceCollectionId msg) h) as [[s|e] h1] eqn:Hs;
    [|discriminate].
  apply required_inv in Hs as [Hs ->]. rewrite run_bind.
  destruct (getVariablesInCollection s h) as [[vars|e] h1] eqn:Hvars;
    [|discriminate].
  pose proof (untouched_run _ _ _ _ (getVariablesInCollection_untouched s)
                Hvars) as ->.
  rewrite run_bind.
  destruct (required (destinationCollectionId msg) h) as [[d|e] h1] eqn:Hd;
    [|discriminate].
  apply required_inv in Hd as [Hd ->]. rewrite run_bind.
  destruct (getVariableNamesInCollection d h) as [[names|e] h1] eqn:Hnames;
    [|discriminate].
  pose proof (untouched_run _ _ _ _ (getVariableNamesInCollection_untouched d)
                Hnames) as ->.
  rewrite findDuplicateNames_filter. simpl. intros [= <-].
  by exists s, d, vars, names.
Qed.

(** X6.  When [check-duplicates] returns, it has left the document alone
    and posted one result: the source variables whose name is the name of a
    destination variable, in their order, as duplicates; the others, in
    their order, as movable; and two counts, the lengths of the two lists,
    which add up to the number of source variables. *)
Theorem check_duplicates_response (msg : Message) (h h' : Host) :
  on_check_duplicates msg h = (Normal tt, h') →
  ∃ s d sourceVariables destinationNames,
    sourceCollectionId msg = Some s ∧ destinationCollectionId msg = Some d ∧
    getVariablesInCollection s h = (Normal sourceVariables, h) ∧
    getVariableNamesInCollection d h = (Normal destinationNames, h) ∧
    let duplicatesForUI :=
      map duplicate_row
        (filter (λ v, name v ∈ destinationNames) sourceVariables) in
    let canMoveForUI :=
      map duplicate_row
        (filter (λ v, name v ∉ destinationNames) sourceVariables) in
    posted h' = posted h ++
      [DuplicatesCheckResult duplicatesForUI canMoveForUI
         (length duplicatesForUI) (length canMoveForUI)] ∧
    length duplicatesForUI + length canMoveForUI = length sourceVariables ∧
    emits_only h h'.
Proof.
  intros Hrun.
  destruct (on_check_duplicates_run msg h h' Hrun)
    as (s & d & vars & names & Hs & Hd & Hvars & Hnames & ->).
  exists s, d, vars, names.
  split; [done|]. split; [done|]. split; [done|]. split; [done|]. cbv zeta.
  split; [reflexivity|]. split; [|done].
  rewrite !length_map. apply filter_names_lengths.
Qed.

(** Checking [Brand] against [Tokens] on a host where nothing raises. *)
Lemma check_duplicates_response_witness :
  ∃ h' sourceVariables (destinationNames : gset string),
    on_check_duplicates (Sample.move "brand" "tokens" [])
      (Sample.host Sample.reliable) = (Normal tt, h') ∧
    length (filter (λ v, name v ∈ destinationNames) sourceVariables) +
    length (filter (λ v, name v ∉ destinationNames) sourceVariables) =
      length sourceVariables ∧
    emits_only (Sample.host Sample.reliable) h'.
Proof.
  assert (fst (on_check_duplicates (Sample.move "brand" "tokens" [])
                 (Sample.host Sample.reliable)) = Normal tt) as Hfst
    by (vm_compute; reflexivity).
  destruct (on_check_duplicates (Sample.move "brand" "tokens" [])
              (Sample.host Sample.reliable)) as [[[]|e] h'] eqn:Hrun;
    [|discriminate].
  destruct (check_duplicates_response _ _ _ Hrun)
    as (s & d & vars & names & _ & _ & _ & _ & _ & Hlen & Hemit).
  exists h', vars, names. split; [reflexivity|].
  rewrite !length_map in Hlen. by split.
Defined.

Lemma filter_all {A} (P : A → Prop) `{!∀ x, Decision (P x)} (l : list A) :
  Forall P l → filter P l = l.
Proof.
  induction 1 as [|x l Hx Hl IH]; [reflexivity|].
  by rewrite filter_cons, decide_True, IH.
Qed.

Lemma filter_none {A} (P : A → Prop) `{!∀ x, Decision (P x)} (l : list A) :
  Forall (λ x, ¬ P x) l → filter P l = [].
Proof.
  induction 1 as [|x l Hx Hl IH]; [reflexivity|].
  by rewrite filter_cons, decide_False, IH.
Qed.

(** X7.  Checking a collection against itself reports every one of its
    variables as a duplicate and none as movable. *)
Theorem check_duplicates_self (msg : Message) (h h' : Host) :
  sourceCollectionId msg = destinationCollectionId msg →
  on_check_duplicates msg h = (Normal tt, h') →
  ∃ s sourceVariables,
    sourceCollectionId msg = Some s ∧
    getVariablesInCollection s h = (Normal sourceVariables, h) ∧
    posted h' = posted h ++
      [DuplicatesCheckResult (map duplicate_row sourceVariables) []
         (length sourceVariables) 0].
Proof.
  intros Hsame Hrun.
  destruct (on_check_duplicates_run msg h h' Hrun)
    as (s & d & vars & names & Hs & Hd & Hvars & Hnames & ->).
  assert (d = s) as -> by congruence.
  exists s, vars. split; [done|]. split; [done|].
  unfold getVariableNamesInCollection in Hnames.
  rewrite run_bind, Hvars in Hnames. injection Hnames as <-.
  assert (Forall (λ v, name v ∈
                       foldl (λ names variable, {[name variable]} ∪ names)
                         (∅ : gset string) vars) vars) as Hall.
  { apply Forall_forall. intros v Hv. apply names_foldl. right. by exists v. }
  rewrite (filter_all _ _ Hall), filter_none.
  - simpl. by rewrite length_map.
  - eapply Forall_impl; [exact Hall|]. intros v Hv Hn. by apply Hn.
Qed.

Lemma check_duplicates_self_witness :
  ∃ h' sourceVariables,
    on_check_duplicates (Sample.move "tokens" "tokens" [])
      (Sample.host Sample.reliable) = (Normal tt, h') ∧
    posted h' = posted (Sample.host Sample.reliable) ++
      [DuplicatesCheckResult (map duplicate_row sourceVariables) []
         (length sourceVariables) 0].
Proof.
  assert (fst (on_check_duplicates (Sample.move "tokens" "tokens" [])
                 (Sample.host Sample.reliable)) = Normal tt) as Hfst
    by (vm_compute; reflexivity).
  destruct (on_check_duplicates (Sample.move "tokens" "tokens" [])
              (Sample.host Sample.reliable)) as [[[]|e] h'] eqn:Hrun;
    [|discriminate].
  destruct (check_duplicates_self (Sample.move "tokens" "tokens" []) _ _
              eq_refl Hrun)
    as (s & vars & _ & _ & Hposted).
  by exists h', vars.
Defined.

(** ** A check followed by a move *)

Lemma same_document_host_call (c : HostCall) :
  related same_document (host_call c).
Proof. apply related_host_call. intros h g [_ Ht]. by rewrite Ht. Qed.

Lemma same_document_getVariableCollectionByIdAsync collectionId :
  related same_document (getVariableCollectionByIdAsync collectionId).
Proof.
  unfold getVariableCollectionByIdAsync.
  apply related_bind; [apply same_document_host_call|]. intros _.
  apply (related_read _ (λ h, collections (document h) !! collectionId)
           (λ r, mret r)).
  - intros h g [Hd _]. by rewrite Hd.
  - intros r. apply related_ret.
Qed.

Lemma same_document_getVariableByIdAsync variableId :
  related same_document (getVariableByIdAsync variableId).
Proof.
  unfold getVariableByIdAsync.
  apply related_bind; [apply same_document_host_call|]. intros _.
  apply (related_read _ (λ h, variables (document h) !! variableId)
           (λ r, mret r)).
  - intros h g [Hd _]. by rewrite Hd.
  - intros r. apply related_ret.
Qed.

Lemma same_document_getVariablesInCollection collectionId :
  related same_document (getVariablesInCollection collectionId).
Proof.
  unfold getVariablesInCollection.
  pose proof same_document_getVariableCollectionByIdAsync.
  pose proof same_document_getVariableByIdAsync.
  related_tac.
Qed.

Lemma same_document_getVariableNamesInCollection collectionId :
  related same_document (getVariableNamesInCollection collectionId).
Proof.
  unfold getVariableNamesInCollection.
  pose proof same_document_getVariablesInCollection. related_tac.
Qed.

Lemma truthy_field_Some (field : option string) (s : string) :
  truthy_field field = Some s → field = Some s.
Proof.
  destruct field as [x|]; [|discriminate]. simpl.
  by destruct (truthy x); [intros [= ->]|].
Qed.

(** A request that passes the checks has both collection identities and a
    movable variable. *)
Lemma on_move_variables_resolution (msg : Message) (h : Host) :
  (∃ e, rejects (on_move_variables msg) h e) ∨
  (∃ err, on_move_variables msg h = (Thrown err, h)) ∨
  (∃ s d destinationCollection,
     truthy_field (sourceCollectionId msg) = Some s ∧
     truthy_field (destinationCollectionId msg) = Some d ∧
     canMove (resolution msg h) ≠ [] ∧
     on_move_variables msg h =
     migrate (default [] (selectedVariableIds msg))
       (duplicates (resolution msg h)) (canMove (resolution msg h))
       destinationCollection h).
Proof.
  unfold resolution, resolved_selection, source_variables,
    destination_names, on_move_variables.
  destruct (truthy_field (sourceCollectionId msg)) as [s|] eqn:Hs;
    [|left; eexists; apply move_error_rejects].
  destruct (truthy_field (destinationCollectionId msg)) as [d|] eqn:Hd;
    [|left; eexists; apply move_error_rejects].
  destruct (decide (s = d)); [left; eexists; apply move_error_rejects|].
  destruct (decide (length (default [] (selectedVariableIds msg)) = 0));
    [left; eexists; apply move_error_rejects|].
  unfold rejects. rewrite run_bind.
  destruct (getVariableCollectionByIdAsync s h) as [[sc|err] h1] eqn:E1;
    apply untouched_run in E1 as ->; auto with frame;
    [|right; left; by eexists].
  rewrite run_bind.
  destruct (getVariableCollectionByIdAsync d h) as [[dc|err] h1] eqn:E2;
    apply untouched_run in E2 as ->; auto with frame;
    [|right; left; by eexists].
  destruct sc as [sc|]; [|left; eexists; apply move_error_rejects].
  destruct dc as [dc|]; [|left; eexists; apply move_error_rejects].
  rewrite run_bind.
  destruct (getVariablesInCollection s h) as [[vars|err] h1] eqn:E3;
    apply untouched_run in E3 as ->; auto with frame;
    [|right; left; by eexists].
  destruct (decide (length _ = 0));
    [left; eexists; apply move_error_rejects|].
  rewrite run_bind.
  destruct (getVariableNamesInCollection d h) as [[names|err] h1] eqn:E4;
    apply untouched_run in E4 as ->; auto with frame;
    [|right; left; by eexists].
  destruct (decide (length _ = 0)) as [|Hsafe];
    [left; eexists; apply move_error_rejects|].
  right; right. exists s, d, dc. split; [done|]. split; [done|].
  split; [|reflexivity]. intros Hnil. apply Hsafe. by rewrite Hnil.
Qed.

(** X8.  When [check-duplicates] has answered that no variable of the source
    can move, a [move-variables] request for the same two collections,
    whatever it selects, changes nothing in the document: it answers with an
    error, or ends with the error a host lookup raised, and never with a
    completion response. *)
Theorem check_then_move (check move : Message) (h h1 : Host)
    (duplicatesForUI canMoveForUI : list PreviewRow) (duplicateCount : nat) :
  on_check_duplicates check h = (Normal tt, h1) →
  posted h1 = posted h ++
    [DuplicatesCheckResult duplicatesForUI canMoveForUI duplicateCount 0] →
  sourceCollectionId move = sourceCollectionId check →
  destinationCollectionId move = destinationCollectionId check →
  document (snd (on_move_variables move h1)) = document h1 ∧
  (posted (snd (on_move_variables move h1)) = posted h1 ∨
   ∃ e, posted (snd (on_move_variables move h1)) =
        posted h1 ++ [MoveError e]).
Proof.
  intros Hrun Hposted Hsrc Hdst.
  destruct (on_check_duplicates_run check h h1 Hrun)
    as (s & d & vars & names & Hs & Hd & Hvars & Hnames & Hh1).
  assert (filter (λ v, name v ∉ names) vars = []) as Hnone.
  { rewrite Hh1 in Hposted. simpl in Hposted.
    apply app_inv_head in Hposted. injection Hposted as _ _ _ Hlen.
    rewrite length_map in Hlen. by apply nil_length_inv. }
  assert (same_document h1 h) as Hsame by (by rewrite Hh1).
  destruct (on_move_variables_resolution move h1)
    as [(e & h2 & -> & (Hdoc & _) & Hp & _)|[(err & ->)|
        (s' & d' & dest & Hs' & Hd' & Hsafe & _)]].
  - split; [exact Hdoc|]. right. by exists e.
  - split; [done|by left].
  - exfalso. apply Hsafe.
    unfold resolution, resolved_selection, source_variables,
      destination_names. rewrite Hs', Hd'.
    apply truthy_field_Some in Hs', Hd'.
    assert (s' = s) as -> by congruence.
    assert (d' = d) as -> by congruence.
    destruct (same_document_getVariablesInCollection s h1 h Hsame)
      as [Hfst _].
    rewrite Hvars in Hfst.
    destruct (getVariablesInCollection s h1) as [r hx]. simpl in Hfst.
    subst r.
    destruct (same_document_getVariableNamesInCollection d h1 h Hsame)
      as [Hfst _].
    rewrite Hnames in Hfst.
    destruct (getVariableNamesInCollection d h1) as [r hy]. simpl in Hfst.
    subst r. rewrite findDuplicateNames_filter. simpl.
    apply filter_none, Forall_forall. intros v Hv Hfree.
    apply list_elem_of_filter in Hv as [_ Hv].
    assert (v ∈ filter (λ v, name v ∉ names) vars) as Hin
      by (by apply list_elem_of_filter).
    rewrite Hnone in Hin. by apply elem_of_nil in Hin.
Qed.

(** [Tokens] checked against [Brand]: its only variable, [spacing], is taken
    there, and the move that follows is refused. *)
Lemma check_then_move_witness :
  ∃ h1,
    on_check_duplicates (Sample.move "tokens" "brand" [])
      (Sample.host Sample.reliable) = (Normal tt, h1) ∧
    document (snd (on_move_variables
                     (Sample.move "tokens" "brand" ["VariableID:2:1"]) h1)) =
    document h1 ∧
    (posted (snd (on_move_variables
                    (Sample.move "tokens" "brand" ["VariableID:2:1"]) h1)) =
     posted h1 ∨
     ∃ e, posted (snd (on_move_variables
                         (Sample.move "tokens" "brand" ["VariableID:2:1"])
                         h1)) = posted h1 ++ [MoveError e]).
Proof.
  assert (fst (on_check_duplicates (Sample.move "tokens" "brand" [])
                 (Sample.host Sample.reliable)) = Normal tt) as Hfst
    by (vm_compute; reflexivity).
  assert (posted (snd (on_check_duplicates (Sample.move "tokens" "brand" [])
                         (Sample.host Sample.reliable))) =
          posted (Sample.host Sample.reliable) ++
          [DuplicatesCheckResult
             [mkRow "VariableID:2:1" "spacing" "NUMBER" ""] [] 1 0])
    as Hposted by (vm_compute; reflexivity).
  destruct (on_check_duplicates (Sample.move "tokens" "brand" [])
              (Sample.host Sample.reliable)) as [[[]|e] h1] eqn:Hrun;
    [|discriminate].
  exists h1. split; [reflexivity|].
  exact (check_then_move (Sample.move "tokens" "brand" [])
           (Sample.move "tokens" "brand" ["VariableID:2:1"])
           (Sample.host Sample.reliable) h1 _ _ _ Hrun Hposted eq_refl
           eq_refl).
Defined.

(** ** The preview of a collection *)

Lemma getVariablesInCollection_absent (collectionId : string) (h h' : Host)
    (variables : list DesignVariable) :
  getVariablesInCollection collectionId h = (Normal variables, h') →
  collections (document h) !! collectionId = None → variables = [].
Proof.
  rewrite getVariablesInCollection_run.
  destruct (throws h (GetVariableCollectionById collectionId));
    [discriminate|].
  intros Hrun Hnone. rewrite Hnone in Hrun. by injection Hrun as <- _.
Qed.

(** X9.  When [get-variables-preview] returns, it has left the document
    alone and posted one preview: one row per variable that
    [getVariablesInCollection] returned, in the same order, and their
    number.  No row shows the type [FLOAT].  For a collection that is not in
    the document the preview is empty and the count is 0. *)
Theorem variables_preview_response (msg : Message) (h h' : Host) :
  on_get_variables_preview msg h = (Normal tt, h') →
  ∃ c variables,
    collectionId msg = Some c ∧
    getVariablesInCollection c h = (Normal variables, h) ∧
    posted h' = posted h ++
      [VariablesPreview (map preview_row variables) (length variables)] ∧
    map row_id (map preview_row variables) = map id variables ∧
    (∀ row, row ∈ map preview_row variables → row_type row ≠ "FLOAT") ∧
    (collections (document h) !! c = None → variables = []) ∧
    emits_only h h'.
Proof.
  unfold on_get_variables_preview. rewrite run_bind.
  destruct (required (collectionId msg) h) as [[c|e] h1] eqn:Hc;
    [|discriminate].
  apply required_inv in Hc as [Hc ->]. rewrite run_bind.
  destruct (getVariablesInCollection c h) as [[vars|e] h1] eqn:Hvars;
    [|discriminate].
  pose proof (untouched_run _ _ _ _ (getVariablesInCollection_untouched c)
                Hvars) as ->.
  simpl. intros [= <-]. exists c, vars. split; [done|]. split; [done|].
  split; [by rewrite length_map|].
  split; [rewrite map_map; by apply map_ext|].
  split; [|split; [|done]].
  - intros row Hrow. apply list_elem_of_In, in_map_iff in Hrow
      as (v & <- & _).
    simpl. unfold getDisplayTypeName.
    destruct (decide (resolvedType v = "FLOAT")); [discriminate|done].
  - by apply (getVariablesInCollection_absent c h h).
Qed.

Lemma variables_preview_response_witness :
  ∃ h' variables,
    on_get_variables_preview
      (mkMessage "get-variables-preview" (Some "tokens") None None None)
      (Sample.host Sample.reliable) = (Normal tt, h') ∧
    posted h' = posted (Sample.host Sample.reliable) ++
      [VariablesPreview (map preview_row variables) (length variables)] ∧
    ∀ row, row ∈ map preview_row variables → row_type row ≠ "FLOAT".
Proof.
  assert (fst (on_get_variables_preview
                 (mkMessage "get-variables-preview" (Some "tokens") None None
                    None) (Sample.host Sample.reliable)) = Normal tt) as Hfst
    by (vm_compute; reflexivity).
  destruct (on_get_variables_preview
              (mkMessage "get-variables-preview" (Some "tokens") None None
                 None) (Sample.host Sample.reliable))
    as [[[]|e] h'] eqn:Hrun; [|discriminate].
  destruct (variables_preview_response _ _ _ Hrun)
    as (c & vars & _ & _ & Hposted & _ & Htypes & _).
  by exists h', vars.
Defined.

(** ** Which requests change the document *)

Lemma required_emits (field : option string) :
  preserves emits_only (required field).
Proof. unfold required. frame_tac. Qed.

Lemma getAllCollections_untouched : preserves untouched getAllCollections.
Proof. unfold getAllCollections. preserves_tac. Qed.

Lemma on_get_collections_emits : preserves emits_only on_get_collections.
Proof.
  unfold on_get_collections. pose proof getAllCollections_untouched.
  frame_tac.
Qed.

Lemma on_get_variables_preview_emits (msg : Message) :
  preserves emits_only (on_get_variables_preview msg).
Proof.
  unfold on_get_variables_preview. pose proof required_emits. frame_tac.
Qed.

Lemma on_check_duplicates_emits (msg : Message) :
  preserves emits_only (on_check_duplicates msg).
Proof.
  unfold on_check_duplicates. pose proof required_emits. frame_tac.
Qed.

Lemma closePlugin_emits : preserves emits_only closePlugin.
Proof. by intros h. Qed.

(** X10.  Only a [move-variables] request can change the document: a
    message of any other type leaves the document, the arrays the plugin
    holds and the host's behaviour as they were, whether its handler returns
    or raises.  A message whose type is none of the five the handler knows
    is ignored: the handler returns and nothing at all has changed. *)
Theorem only_move_variables_mutates (msg : Message) (h : Host) :
  (type msg ≠ "move-variables" → emits_only h (snd (on_message msg h))) ∧
  (type msg ∉ ["get-collections"; "get-variables-preview";
               "check-duplicates"; "move-variables"; "close-plugin"] →
   on_message msg h = (Normal tt, h)).
Proof.
  split.
  - intros Hmove. revert h. change (preserves emits_only (on_message msg)).
    unfold on_message.
    pose proof on_get_collections_emits.
    pose proof on_get_variables_preview_emits.
    pose proof on_check_duplicates_emits.
    pose proof closePlugin_emits.
    repeat first
      [ done
      | apply (preserves_ret emits_only)
      | lazymatch goal with
        | |- preserves _ (if decide ?P then _ else _) => destruct (decide P)
        end
      | apply (preserves_bind emits_only); [|intros ?] ].
  - intros Hnone. unfold on_message.
    rewrite !decide_False; [reflexivity|..];
      intros Heq; apply Hnone; rewrite Heq; set_solver.
Qed.

(** A [check-duplicates] request and a message of an unknown type. *)
Lemma only_move_variables_mutates_witness :
  emits_only (Sample.host Sample.reliable)
    (snd (on_message
            (mkMessage "check-duplicates" None (Some "brand") (Some "tokens")
               None) (Sample.host Sample.reliable))) ∧
  on_message (mkMessage "resize" None None None None)
    (Sample.host Sample.reliable) = (Normal tt, Sample.host Sample.reliable).
Proof.
  split.
  - apply (only_move_variables_mutates
             (mkMessage "check-duplicates" None (Some "brand") (Some "tokens")
                None)). discriminate.
  - apply (only_move_variables_mutates
             (mkMessage "resize" None None None None)).
    intros Hin. repeat (apply elem_of_cons in Hin as [Heq|Hin];
                          [discriminate|]).
    by apply elem_of_nil in Hin.
Defined.

(** * The counters of Phases 3 and 4 *)

Lemma phase3_step_counts (idMapping : list (string * string)) (acc : Rebound)
    (binding : Binding) (h : Host) :
  ∃ acc' h',
    phase3_step idMapping acc binding h = (Normal acc', h') ∧
    rebindSuccessCount acc' + rebindErrorCount acc' =
      S (rebindSuccessCount acc + rebindErrorCount acc).
Proof.
  unfold phase3_step.
  destruct (JsObject.get idMapping (variableId binding)) as [newVariable|];
    [|eexists _, _; split; [reflexivity|simpl; lia]].
  rewrite run_bind.
  destruct (rebindVariable_returns (node binding) (property binding)
              newVariable (bindingIndex binding) (isArrayBinding binding) h)
    as ([] & h1 & ->); eexists _, _; (split; [reflexivity|simpl; lia]).
Qed.

Lemma phase3_loop_counts (idMapping : list (string * string))
    (allBindings : list Binding) (acc : Rebound) (h : Host) :
  ∃ rebound h',
    for_of allBindings (phase3_step idMapping) acc h = (Normal rebound, h') ∧
    rebindSuccessCount rebound + rebindErrorCount rebound =
      length allBindings + (rebindSuccessCount acc + rebindErrorCount acc).
Proof.
  revert acc h. induction allBindings as [|b l IH]; intros acc h.
  - exists acc, h. split; [reflexivity|simpl; lia].
  - destruct (phase3_step_counts idMapping acc b h)
      as (acc1 & h1 & Hrun1 & Hcount1).
    destruct (IH acc1 h1) as (rebound & h' & Hrun & Hcount).
    exists rebound, h'. rewrite run_for_of_cons, Hrun1.
    split; [exact Hrun|]. simpl. lia.
Qed.

(** X11.  Phase 3 raises exactly when the search for the bindings raises,
    with the same error and before anything is rebound.  Otherwise it
    returns, and every binding found is counted once, as rebound or as
    failed: the two counters add up to the number of bindings found. *)
Theorem phase3_counts (idMapping : list (string * string)) (h : Host) :
  match fst (findAllVariableBindings (JsObject.keys idMapping) h) with
  | Normal allBindings =>
      ∃ rebound h',
        phase3 idMapping h = (Normal rebound, h') ∧
        rebindSuccessCount rebound + rebindErrorCount rebound =
          length allBindings
  | Thrown e => phase3 idMapping h = (Thrown e, h)
  end.
Proof.
  unfold phase3. rewrite run_bind.
  pose proof (findAllVariableBindings_untouched (JsObject.keys idMapping) h)
    as Hsame.
  destruct (findAllVariableBindings (JsObject.keys idMapping) h)
    as [[allBindings|e] h1]; simpl in *; unfold untouched in Hsame; subst h1;
    [|reflexivity].
  rewrite run_bind. simpl.
  lazymatch goal with
  | |- context [for_of allBindings _ ?acc ?h0] =>
      destruct (phase3_loop_counts idMapping allBindings acc h0)
        as (rebound & h' & Hrun & Hcount)
  end.
  exists rebound, h'. split; [exact Hrun|]. simpl in Hcount. lia.
Qed.

Lemma size_removed (k : string) (v : DesignVariable) (h : Host) :
  variables (document h) !! k = Some v →
  S (size (variables (document (removed k h)))) =
  size (variables (document h)).
Proof.
  intros Hk. simpl.
  rewrite <- (insert_delete_id (variables (document h)) k v Hk) at 2.
  by rewrite map_size_insert_None by apply lookup_delete_eq.
Qed.

Lemma well_formed_removed (k : string) (h : Host) :
  well_formed (document h) → well_formed (document (removed k h)).
Proof.
  intros Hwf j v Hj. simpl in Hj.
  destruct (decide (j = k)) as [->|Hne];
    [by rewrite lookup_delete_eq in Hj|].
  rewrite lookup_delete_ne in Hj by done. by apply Hwf.
Qed.

Lemma phase4_loop_size (l : list string) (deleteCount : nat) (h : Host) :
  well_formed (document h) →
  ∃ n h',
    for_of l phase4_step deleteCount h = (Normal n, h') ∧
    size (variables (document h')) + n =
      size (variables (document h)) + deleteCount.
Proof.
  revert deleteCount h. induction l as [|k l IH]; intros n0 h Hwf.
  - by exists n0, h.
  - rewrite run_for_of_cons, phase4_step_run.
    destruct (throws h (GetVariableById k)).
    { destruct (IH n0 (delete_failed k "host error" h) Hwf)
        as (n & h' & Hrun & Hsize). by exists n, h'. }
    destruct (variables (document h) !! k) as [v|] eqn:Hk;
      [|destruct (IH n0 h Hwf) as (n & h' & Hrun & Hsize); by exists n, h'].
    rewrite (Hwf k v Hk).
    destruct (throws h (Remove k)).
    { destruct (IH n0 (delete_failed k "host error" h) Hwf)
        as (n & h' & Hrun & Hsize). by exists n, h'. }
    destruct (IH (S n0) (removed k h) (well_formed_removed k h Hwf))
      as (n & h' & Hrun & Hsize).
    exists n, h'. split; [exact Hrun|].
    pose proof (size_removed k v h Hk). lia.
Qed.

(** X12.  Phase 4 always returns, and its counter is exactly the number of
    variables that left the document: in a document that stores every
    variable under its own identity, the number of variables afterwards
    plus the count is the number before. *)
Theorem phase4_count (idMapping : list (string * string)) (h : Host) :
  well_formed (document h) →
  ∃ deleteCount h',
    phase4 idMapping h = (Normal deleteCount, h') ∧
    size (variables (document h')) + deleteCount =
      size (variables (document h)).
Proof.
  intros Hwf.
  destruct (phase4_loop_size (JsObject.keys idMapping) 0 h Hwf)
    as (n & h' & Hrun & Hsize).
  exists n, h'. split; [exact Hrun|lia].
Qed.

(** Deleting two of the six variables of [Sample], one of which the host
    refuses to remove. *)
Lemma phase4_count_witness :
  ∃ deleteCount h',
    phase4 [("VariableID:1:1", "a"); ("VariableID:1:2", "b")]
      (Sample.host (λ c, match c with
                         | Remove v => bool_decide (v = "VariableID:1:2")
                         | _ => false
                         end)) = (Normal deleteCount, h') ∧
    size (variables (document h')) + deleteCount = 6.
Proof.
  apply (phase4_count [("VariableID:1:1", "a"); ("VariableID:1:2", "b")]
           (Sample.host _)).
  apply sample_well_formed.
Defined.

(** * What a failure leaves behind *)

Lemma page_fails_lookup (h : Host) (p : nat) (allNodes : list string) :
  pages (document h) !! p = Some allNodes →
  throws h (LoadPage p) = true ∨ throws h (FindAll p) = true →
  page_fails h (imap pair (pages (document h))) = true.
Proof.
  intros Hp Hno. apply existsb_exists. exists (p, allNodes).
  split; [|by apply orb_true_iff].
  apply list_elem_of_In, elem_of_lookup_imap. by exists p, allNodes.
Qed.

Lemma rebind_and_delete_page_failure (idMapping : list (string * string))
    (h : Host) (p : nat) (allNodes : list string) :
  pages (document h) !! p = Some allNodes →
  throws h (LoadPage p) = true ∨ throws h (FindAll p) = true →
  ∃ h', rebind_and_delete idMapping h = (Thrown "host error", h') ∧
        emits_only h h' ∧ posted h' = posted h ∧
        notifications h' = notifications h.
Proof.
  intros Hp Hno. unfold rebind_and_delete. rewrite run_bind. simpl.
  rewrite run_bind. unfold phase3. rewrite run_bind.
  rewrite run_findAllVariableBindings.
  rewrite (page_fails_lookup _ p allNodes) by done.
  by eexists.
Qed.

(** X13.  When a page of the document cannot be loaded or searched, the
    migration does not complete: it raises after Phases 1 and 2, so the new
    variables may have been created, but no binding is rewritten, no
    variable is deleted and no completion response is posted. *)
Theorem migrate_page_failure (selectedVariableIds : list string)
    (duplicates safeToMove : list DesignVariable)
    (destinationCollection : VariableCollection) (h : Host) (p : nat)
    (allNodes : list string) :
  pages (document h) !! p = Some allNodes →
  throws h (LoadPage p) = true ∨ throws h (FindAll p) = true →
  ∃ e h',
    migrate selectedVariableIds duplicates safeToMove destinationCollection h
      = (Thrown e, h') ∧
    posted h' = posted h ∧
    nodes (document h') = nodes (document h) ∧
    ∀ k, is_Some (variables (document h) !! k) →
         is_Some (variables (document h') !! k).
Proof.
  intros Hp Hno.
  destruct (create_and_copy_spec selectedVariableIds duplicates safeToMove
              destinationCollection h)
    as (created & copied & h1 & h2' & h2 & Hrun12 & Hinv & Ht1 & Hn1 & Hpg1
        & _ & Hp1 & _ & _ & _ & Hrun2 & Hemit & Hp2 & _).
  pose proof (phase2_values safeToMove destinationCollection
                (idMapping created) h1) as Hvo.
  rewrite Hrun2 in Hvo. simpl in Hvo.
  pose proof Hvo as (_ & _ & _ & Hpg2 & Hn2 & Ht2 & _ & _ & Hpo2 & _).
  pose proof Hemit as (Hd & Ht & _).
  destruct (rebind_and_delete_page_failure (idMapping created) h2 p allNodes)
    as (h' & Hrun34 & (Hd' & _) & Hpo' & _).
  { by rewrite Hd, Hpg2, Hpg1. }
  { by rewrite Ht, Ht2, Ht1. }
  exists "host error", h'. unfold migrate.
  rewrite run_bind, Hrun12. simpl. rewrite run_bind, Hrun34.
  split; [reflexivity|]. split; [congruence|].
  split; [by rewrite Hd', Hd, Hn2, Hn1|].
  intros k Hk. rewrite Hd', Hd.
  apply (values_only_is_Some h1 h2' k Hvo).
  destruct Hk as [v Hk]. destruct Hinv as (Hgrow & _).
  exists v. by apply Hgrow.
Qed.

(** The page of [Sample] cannot be loaded. *)
Lemma migrate_page_failure_witness :
  ∃ e h',
    migrate ["VariableID:1:1"] [] [Sample.color_base] Sample.tokens
      (Sample.host (λ c, match c with LoadPage _ => true | _ => false end))
      = (Thrown e, h') ∧
    posted h' = [] ∧
    is_Some (variables (document h') !! "VariableID:1:1").
Proof.
  destruct (migrate_page_failure ["VariableID:1:1"] [] [Sample.color_base]
              Sample.tokens
              (Sample.host (λ c, match c with
                                 | LoadPage _ => true
                                 | _ => false
                                 end)) 0 ["card"] eq_refl (or_introl eq_refl))
    as (e & h' & Hrun & Hposted & _ & Hkept).
  exists e, h'. split; [exact Hrun|]. split; [exact Hposted|].
  apply Hkept. by eexists.
Defined.

(** X14.  When creating the variable succeeds but copying its metadata
    raises, Phase 1 counts the variable as failed and records no mapping for
    it, yet the new variable stays in the document: under an identity that
    was free, with the original's name and type, in the destination
    collection. *)
Theorem phase1_orphan (destinationCollection : VariableCollection)
    (acc : Created) (originalVariable : DesignVariable) (h : Host)
    (e : string) :
  throws h (CreateVariable (name originalVariable)
              (coll_id destinationCollection)
              (resolvedType originalVariable)) = false →
  fst (createVariableInCollection originalVariable destinationCollection h) =
    Thrown e →
  ∃ h' newVariable shell,
    phase1_step destinationCollection acc originalVariable h =
      (Normal (mkCreated (idMapping acc) (createSuccessCount acc)
                 (S (createErrorCount acc))), h') ∧
    variables (document h) !! newVariable = None ∧
    variables (document h') !! newVariable = Some shell ∧
    name shell = name originalVariable ∧
    resolvedType shell = resolvedType originalVariable ∧
    variableCollectionId shell = coll_id destinationCollection.
Proof.
  intros Hcreate Hraise. rewrite phase1_step_run.
  rewrite createVariableInCollection_unfold, run_bind in Hraise |- *.
  rewrite createVariable_run in Hraise |- * by assumption.
  simpl in Hraise |- *.
  set (newId := new_variable_id (dom (variables (document h)))) in *.
  set (h1 := set_document _ h) in *.
  pose proof (copy_metadata_metadata originalVariable newId h1) as Hmeta.
  destruct (copy_metadata originalVariable newId h1) as [[r|e'] h2] eqn:Hrun;
    [discriminate|].
  simpl in Hmeta.
  assert (erase_metadata <$> variables (document h2) !! newId =
          Some (erase_metadata (new_shell newId (name originalVariable)
                  (resolvedType originalVariable)
                  (coll_id destinationCollection)))) as Hshell.
  { rewrite <- lookup_fmap, Hmeta, lookup_fmap. unfold h1. simpl.
    by rewrite lookup_insert_eq. }
  destruct (variables (document h2) !! newId) as [shell|] eqn:Hnew;
    [|discriminate].
  eexists _, newId, shell. split; [reflexivity|].
  split; [apply not_elem_of_dom, new_variable_id_fresh|].
  split; [exact Hnew|].
  simpl in Hshell. injection Hshell. by intros.
Qed.

(** The host refuses to set [hiddenFromPublishing]. *)
Lemma phase1_orphan_witness :
  ∃ h' newVariable shell,
    phase1_step Sample.tokens (mkCreated [] 0 0) Sample.color_base
      (Sample.host (λ c, match c with
                         | SetHiddenFromPublishing _ _ => true
                         | _ => false
                         end)) = (Normal (mkCreated [] 0 1), h') ∧
    variables (document h') !! newVariable = Some shell ∧
    name shell = "color-base".
Proof.
  destruct (phase1_orphan Sample.tokens (mkCreated [] 0 0) Sample.color_base
              (Sample.host (λ c, match c with
                                 | SetHiddenFromPublishing _ _ => true
                                 | _ => false
                                 end)) "host error")
    as (h' & newVariable & shell & Hrun & _ & Hnew & Hname & _);
    [reflexivity|vm_compute; reflexivity|].
  by exists h', newVariable, shell.
Defined.

(** * What a completed migration leaves in the destination *)

Lemma migrate_runs selectedVariableIds duplicates safeToMove
    destinationCollection (h0 h4 : Host) :
  migrate selectedVariableIds duplicates safeToMove destinationCollection h0
    = (Normal tt, h4) →
  ∃ created copied h2 rebound deleteCount h4',
    create_and_copy selectedVariableIds duplicates safeToMove
      destinationCollection h0 = (Normal (created, copied), h2) ∧
    rebind_and_delete (idMapping created) h2 =
      (Normal (rebound, deleteCount), h4') ∧
    document h4 = document h4'.
Proof.
  unfold migrate. intros Hrun. rewrite run_bind in Hrun.
  destruct (create_and_copy _ _ _ _ h0) as [[[created copied]|e] h2];
    [|discriminate].
  simpl in Hrun. rewrite run_bind in Hrun.
  destruct (rebind_and_delete (idMapping created) h2)
    as [[[rebound deleteCount]|e] h4'] eqn:Hrun34; [|discriminate].
  simpl in Hrun. injection Hrun as <-.
  by exists created, copied, h2, rebound, deleteCount, h4'.
Qed.

(** X15.  After a migration that completed, every entry of the mapping
    leads to a variable that is in the document: under an identity that was
    free before, in the destination collection, with the name and the type
    of the selected variable it was made for.  Phase 4 deletes none of the
    new variables.  The document is one that stores every variable under
    its own identity and holds the selected variables. *)
Theorem moved_variables_arrive (selectedVariableIds : list string)
    (duplicates safeToMove : list DesignVariable)
    (destinationCollection : VariableCollection) (h0 h4 : Host) :
  well_formed (document h0) →
  (∀ o, o ∈ safeToMove → variables (document h0) !! id o = Some o) →
  migrate selectedVariableIds duplicates safeToMove destinationCollection h0
    = (Normal tt, h4) →
  ∃ created copied h2,
    create_and_copy selectedVariableIds duplicates safeToMove
      destinationCollection h0 = (Normal (created, copied), h2) ∧
    ∀ oldVariableId newVariable,
      JsObject.get (idMapping created) oldVariableId = Some newVariable →
      variables (document h0) !! newVariable = None ∧
      ∃ originalVariable shell,
        originalVariable ∈ safeToMove ∧
        id originalVariable = oldVariableId ∧
        variables (document h4) !! newVariable = Some shell ∧
        id shell = newVariable ∧
        name shell = name originalVariable ∧
        resolvedType shell = resolvedType originalVariable ∧
        variableCollectionId shell = coll_id destinationCollection.
Proof.
  intros Hwf Hlive Hrun.
  destruct (migrate_runs _ _ _ _ _ _ Hrun)
    as (created & copied & h2 & rebound & deleteCount & h4r & Hrun12 & Hrun34
        & Hd4).
  exists created, copied, h2. split; [exact Hrun12|].
  destruct (create_and_copy_spec selectedVariableIds duplicates safeToMove
              destinationCollection h0)
    as (created' & copied' & h1 & h2' & h2x & Hrun12' & Hinv & _ & _ & _ & _
        & _ & _ & _ & Hdom & Hrun2 & Hemit & _).
  rewrite Hrun12 in Hrun12'. injection Hrun12' as <- <- <-.
  pose proof (phase2_values safeToMove destinationCollection
                (idMapping created) h1) as Hvo.
  rewrite Hrun2 in Hvo. simpl in Hvo.
  destruct (rebind_and_delete_spec _ _ _ _ _ Hrun34)
    as (h3 & h4' & Hv3 & _ & _ & _ & Hrun4 & Hd4' & _).
  assert (well_formed (document h3)) as Hwf3.
  { unfold well_formed. rewrite Hv3, (values_only_emits _ _ Hemit).
    eapply values_only_well_formed; [exact Hvo|].
    by eapply shells_created_well_formed. }
  pose proof (phase4_removes (idMapping created) h3 Hwf3) as [_ Hrem].
  rewrite Hrun4 in Hrem. simpl in Hrem.
  intros k s Hks.
  destruct Hinv as (_ & _ & Hmap & _).
  destruct (Hmap k s Hks) as (Hfree & o & shell & Ho & Hid & Hshell & Hof).
  split; [exact Hfree|].
  assert (s ∉ JsObject.keys (idMapping created)) as Hnokey.
  { intros Hkey. apply Hdom in Hkey.
    apply list_elem_of_In, in_map_iff in Hkey as (o' & Hid' & Ho').
    apply list_elem_of_In in Ho'.
    rewrite <- Hid', (Hlive o' Ho') in Hfree. discriminate. }
  pose proof (values_only_lookup h1 h2' s Hvo) as Herase.
  rewrite Hshell in Herase.
  destruct (variables (document h2') !! s) as [shell'|] eqn:Hs2;
    [|discriminate].
  simpl in Herase. injection Herase as Hi Hn Ht Hde Hh Hsc Hcs Hc.
  destruct Hof as (Hsid & Hsname & Hstype & _ & Hscoll).
  exists o, shell'. split; [exact Ho|]. split; [exact Hid|].
  split.
  { rewrite Hd4, Hd4'.
    destruct (Hrem s) as [->|[Hin _]]; [|done].
    by rewrite Hv3, (values_only_emits _ _ Hemit). }
  repeat split; congruence.
Qed.

(** Moving [color-base] and [color-alias] of [Sample] to [Tokens]. *)
Lemma moved_variables_arrive_witness :
  ∃ h4 created copied h2,
    migrate ["VariableID:1:1"; "VariableID:1:2"] []
      [Sample.color_base; Sample.color_alias] Sample.tokens
      (Sample.host Sample.reliable) = (Normal tt, h4) ∧
    create_and_copy ["VariableID:1:1"; "VariableID:1:2"] []
      [Sample.color_base; Sample.color_alias] Sample.tokens
      (Sample.host Sample.reliable) = (Normal (created, copied), h2) ∧
    ∀ oldVariableId newVariable,
      JsObject.get (idMapping created) oldVariableId = Some newVariable →
      ∃ shell, variables (document h4) !! newVariable = Some shell ∧
               variableCollectionId shell = "tokens".
Proof.
  assert (fst (migrate ["VariableID:1:1"; "VariableID:1:2"] []
                 [Sample.color_base; Sample.color_alias] Sample.tokens
                 (Sample.host Sample.reliable)) = Normal tt) as Hfst
    by (vm_compute; reflexivity).
  destruct (migrate ["VariableID:1:1"; "VariableID:1:2"] []
              [Sample.color_base; Sample.color_alias] Sample.tokens
              (Sample.host Sample.reliable)) as [[[]|e] h4] eqn:Hrun;
    [|discriminate].
  assert (∀ o, o ∈ [Sample.color_base; Sample.color_alias] →
            variables (document (Sample.host Sample.reliable)) !! id o =
            Some o) as Hlive.
  { intros o Ho. apply elem_of_cons in Ho as [->|Ho]; [reflexivity|].
    apply list_elem_of_singleton in Ho as ->. reflexivity. }
  destruct (moved_variables_arrive ["VariableID:1:1"; "VariableID:1:2"] []
              [Sample.color_base; Sample.color_alias] Sample.tokens
              (Sample.host Sample.reliable) h4
              (sample_well_formed Sample.reliable) Hlive Hrun)
    as (created & copied & h2 & Hrun12 & Harrive).
  exists h4, created, copied, h2. split; [reflexivity|].
  split; [exact Hrun12|].
  intros k s Hks.
  destruct (Harrive k s Hks) as (_ & o & shell & _ & _ & Hshell & _ & _ & _
                                   & Hcoll).
  exists shell. split; [exact Hshell|exact Hcoll].
Defined.

(** * The metadata of a new variable *)

Section Metadata.
Variables (h0 : Host) (newVariable : string).
Hypothesis accepted : ∀ c, metadata_call c = true → throws h0 c = false.

Lemma setter_step (c : HostCall) (f : DesignVariable → DesignVariable)
    (h : Host) (v : DesignVariable) :
  metadata_call c = true → throws h = throws h0 →
  variables (document h) !! newVariable = Some v →
  ∃ h', (host_call c;; update_variable newVariable f) h = (Normal tt, h') ∧
        throws h' = throws h0 ∧
        variables (document h') !! newVariable = Some (f v).
Proof.
  intros Hc Ht Hv. rewrite run_bind, run_host_call, Ht, (accepted c Hc).
  eexists. split; [reflexivity|]. split; [exact Ht|]. simpl.
  by rewrite lookup_alter_eq, Hv.
Qed.

Lemma codeSyntax_loop (o : list (string * string)) (platforms : list string)
    (h : Host) (v : DesignVariable) :
  throws h = throws h0 →
  variables (document h) !! newVariable = Some v →
  ∃ h',
    for_of platforms (λ _ platform,
      match JsObject.get o platform with
      | Some syntax => setVariableCodeSyntax newVariable platform syntax
      | None => mret tt
      end) tt h = (Normal tt, h') ∧
    throws h' = throws h0 ∧
    variables (document h') !! newVariable =
      Some (foldl (λ v platform,
                     match JsObject.get o platform with
                     | Some syntax => with_codeSyntax platform syntax v
                     | None => v
                     end) v platforms).
Proof.
  revert h v. induction platforms as [|k ks IH]; intros h v Ht Hv.
  - by exists h.
  - rewrite run_for_of_cons. cbv beta. simpl foldl.
    destruct (JsObject.get o k) as [syntax|].
    + destruct (setter_step (SetVariableCodeSyntax newVariable k syntax)
                  (with_codeSyntax k syntax) h v eq_refl Ht Hv)
        as (h1 & Hrun1 & Ht1 & Hv1).
      unfold setVariableCodeSyntax. rewrite Hrun1. by apply IH.
    + simpl. by apply IH.
Qed.

End Metadata.

Lemma foldl_with_codeSyntax (o : list (string * string))
    (platforms : list string) (v : DesignVariable) :
  foldl (λ v platform,
           match JsObject.get o platform with
           | Some syntax => with_codeSyntax platform syntax v
           | None => v
           end) v platforms =
  mkVariable (id v) (name v) (resolvedType v) (description v)
    (hiddenFromPublishing v) (scopes v)
    (foldl (λ cs platform,
              match JsObject.get o platform with
              | Some syntax => JsObject.set cs platform syntax
              | None => cs
              end) (codeSyntax v) platforms)
    (valuesByMode v) (variableCollectionId v).
Proof.
  revert v. induction platforms as [|k ks IH]; intros v; simpl.
  - by destruct v.
  - rewrite IH. by destruct (JsObject.get o k).
Qed.

Lemma get_app_fresh {V} (o1 o2 : list (string * V)) (k : string) (v : V) :
  k ∉ JsObject.keys o1 → JsObject.get (o1 ++ (k, v) :: o2) k = Some v.
Proof.
  induction o1 as [|[k' v'] o1 IH]; simpl; intros Hk.
  - by rewrite decide_True.
  - apply not_elem_of_cons in Hk as [Hne Hk].
    rewrite decide_False by done. by apply IH.
Qed.

Lemma set_fresh {V} (o : list (string * V)) (k : string) (v : V) :
  k ∉ JsObject.keys o → JsObject.set o k v = o ++ [(k, v)].
Proof.
  induction o as [|[k' v'] o IH]; simpl; intros Hk; [reflexivity|].
  apply not_elem_of_cons in Hk as [Hne Hk].
  rewrite decide_False by done. by rewrite IH.
Qed.

(** Assigning the entries of an object, key by key in the order of its
    keys, to an empty object rebuilds the object. *)
Lemma rebuild_object {V} (o1 o2 : list (string * V)) :
  NoDup (JsObject.keys (o1 ++ o2)) →
  foldl (λ cs k,
           match JsObject.get (o1 ++ o2) k with
           | Some x => JsObject.set cs k x
           | None => cs
           end) o1 (JsObject.keys o2) = o1 ++ o2.
Proof.
  revert o1. induction o2 as [|[k v] o2 IH]; intros o1 Hnd; simpl.
  - by rewrite app_nil_r.
  - assert (k ∉ JsObject.keys o1) as Hk.
    { unfold JsObject.keys in *. rewrite map_app in Hnd. simpl in Hnd.
      apply NoDup_app in Hnd as (_ & Hdisj & _). intros Hin.
      apply (Hdisj k Hin). by left. }
    rewrite get_app_fresh, set_fresh by done.
    replace (o1 ++ (k, v) :: o2) with ((o1 ++ [(k, v)]) ++ o2) in *
      by (by rewrite <- app_assoc).
    by apply IH.
Qed.

(** The run of [createVariableInCollection] on a host that accepts its
    calls. *)
Lemma createVariableInCollection_accepted
    (originalVariable : DesignVariable)
    (destinationCollection : VariableCollection) (h : Host) :
  (∀ c, metadata_call c = true → throws h c = false) →
  ∃ newVariable h',
    createVariableInCollection originalVariable destinationCollection h =
      (Normal newVariable, h') ∧
    variables (document h) !! newVariable = None ∧
    variables (document h') !! newVariable =
      Some (foldl (λ v platform,
                     match JsObject.get (codeSyntax originalVariable) platform
                     with
                     | Some syntax => with_codeSyntax platform syntax v
                     | None => v
                     end)
              (with_scopes
                 (if decide (0 < length (scopes originalVariable))
                  then scopes originalVariable else ["ALL_SCOPES"])
                 (with_hiddenFromPublishing
                    (hiddenFromPublishing originalVariable)
                    (with_description (description originalVariable)
                       (new_shell newVariable (name originalVariable)
                          (resolvedType originalVariable)
                          (coll_id destinationCollection)))))
              (JsObject.keys (codeSyntax originalVariable))).
Proof.
  intros Hok.
  rewrite createVariableInCollection_unfold, run_bind.
  rewrite createVariable_run by (by apply Hok). simpl.
  set (newId := new_variable_id (dom (variables (document h)))).
  set (h1 := set_document _ h).
  set (shell := new_shell newId (name originalVariable)
                  (resolvedType originalVariable)
                  (coll_id destinationCollection)).
  assert (throws h1 = throws h) as Ht1 by reflexivity.
  assert (variables (document h1) !! newId = Some shell) as Hv1
    by (unfold h1; simpl; by rewrite lookup_insert_eq).
  unfold copy_metadata. rewrite run_bind.
  assert (∃ h2 v2,
            (if decide (description originalVariable = "") then mret tt
             else set_description newId (description originalVariable)) h1 =
              (Normal tt, h2) ∧
            throws h2 = throws h ∧
            variables (document h2) !! newId = Some v2 ∧
            v2 = with_description (description originalVariable) shell)
    as (h2 & v2 & -> & Ht2 & Hv2 & ->).
  { destruct (decide (description originalVariable = "")) as [Hd|Hd].
    - exists h1, shell. rewrite Hd. by repeat split.
    - destruct (setter_step h newId Hok
                  (SetDescription newId (description originalVariable))
                  (with_description (description originalVariable)) h1 shell
                  eq_refl Ht1 Hv1) as (h2 & Hrun & Ht2 & Hv2).
      by exists h2, (with_description (description originalVariable) shell). }
  rewrite run_bind.
  destruct (setter_step h newId Hok
              (SetHiddenFromPublishing newId
                 (hiddenFromPublishing originalVariable))
              (with_hiddenFromPublishing
                 (hiddenFromPublishing originalVariable)) h2 _ eq_refl Ht2 Hv2)
    as (h3 & Hrun3 & Ht3 & Hv3).
  unfold set_hiddenFromPublishing. rewrite Hrun3. rewrite run_bind.
  assert (∃ h4 v4,
            (if decide (0 < length (scopes originalVariable))
             then set_scopes newId (scopes originalVariable)
             else mret tt) h3 = (Normal tt, h4) ∧
            throws h4 = throws h ∧
            variables (document h4) !! newId = Some v4 ∧
            v4 = with_scopes
                   (if decide (0 < length (scopes originalVariable))
                    then scopes originalVariable else ["ALL_SCOPES"])
                   (with_hiddenFromPublishing
                      (hiddenFromPublishing originalVariable)
                      (with_description (description originalVariable)
                         shell)))
    as (h4 & v4 & -> & Ht4 & Hv4 & ->).
  { destruct (decide (0 < length (scopes originalVariable))).
    - destruct (setter_step h newId Hok
                  (SetScopes newId (scopes originalVariable))
                  (with_scopes (scopes originalVariable)) h3 _ eq_refl Ht3 Hv3)
        as (h4 & Hrun & Ht4 & Hv4).
      by eexists h4, _.
    - by eexists h3, _. }
  rewrite run_bind.
  destruct (codeSyntax_loop h newId Hok (codeSyntax originalVariable)
              (JsObject.keys (codeSyntax originalVariable)) h4 _ Ht4 Hv4)
    as (h5 & -> & Ht5 & Hv5).
  exists newId, h5. split; [reflexivity|].
  split; [apply not_elem_of_dom, new_variable_id_fresh|exact Hv5].
Qed.

(** X16.  On a host that accepts the calls it makes,
    [createVariableInCollection] returns a new variable that carries the
    original's name, type, description, publishing flag and code syntax,
    and no values.  The scopes are the original's when it has any; an
    original with an empty list of scopes gets the scopes the host gives a
    new variable. *)
Theorem createVariableInCollection_metadata
    (originalVariable : DesignVariable)
    (destinationCollection : VariableCollection) (h : Host) :
  (∀ c, metadata_call c = true → throws h c = false) →
  NoDup (JsObject.keys (codeSyntax originalVariable)) →
  ∃ newVariable h',
    createVariableInCollection originalVariable destinationCollection h =
      (Normal newVariable, h') ∧
    variables (document h) !! newVariable = None ∧
    variables (document h') !! newVariable =
      Some (shell_with_metadata newVariable originalVariable
              destinationCollection).
Proof.
  intros Hok Hnd.
  destruct (createVariableInCollection_accepted originalVariable
              destinationCollection h Hok)
    as (newVariable & h' & Hrun & Hfree & Hnew).
  exists newVariable, h'. split; [exact Hrun|]. split; [exact Hfree|].
  rewrite Hnew, foldl_with_codeSyntax. simpl.
  pose proof (rebuild_object [] (codeSyntax originalVariable) Hnd) as Hre.
  simpl in Hre. by rewrite Hre.
Qed.

(** [color-alias] of [Sample], which has one scope and one code syntax. *)
Lemma createVariableInCollection_metadata_witness :
  ∃ newVariable h',
    createVariableInCollection Sample.color_alias Sample.tokens
      (Sample.host Sample.reliable) = (Normal newVariable, h') ∧
    variables (document h') !! newVariable =
      Some (mkVariable newVariable "color-alias" "COLOR" "" false
              ["ALL_FILLS"] [("WEB", "var(--alias)")] [] "tokens").
Proof.
  destruct (createVariableInCollection_metadata Sample.color_alias
              Sample.tokens (Sample.host Sample.reliable))
    as (newVariable & h' & Hrun & _ & Hnew).
  - reflexivity.
  - apply NoDup_singleton.
  - by exists newVariable, h'.
Defined.

(** * When the migration completes *)

Lemma page_fails_false (h : Host) :
  (∀ p allNodes, pages (document h) !! p = Some allNodes →
     throws h (LoadPage p) = false ∧ throws h (FindAll p) = false) →
  page_fails h (imap pair (pages (document h))) = false.
Proof.
  intros Hok. apply not_true_is_false. intros Hfail.
  apply existsb_exists in Hfail as ([p allNodes] & Hin & Hp).
  apply list_elem_of_In, elem_of_lookup_imap in Hin as (i & x & Heq & Hx).
  injection Heq as <- <-. destruct (Hok p allNodes Hx) as [Hl Hf].
  rewrite Hl, Hf in Hp. discriminate.
Qed.

Lemma rebind_and_delete_returns (idMapping : list (string * string))
    (h : Host) :
  page_fails h (imap pair (pages (document h))) = false →
  ∃ rebound deleteCount h',
    rebind_and_delete idMapping h = (Normal (rebound, deleteCount), h').
Proof.
  intros Hok. unfold rebind_and_delete. rewrite run_bind. simpl.
  rewrite run_bind. unfold phase3. rewrite run_bind.
  rewrite run_findAllVariableBindings. simpl pages. simpl throws.
  unfold page_fails in *. simpl throws. rewrite Hok.
  rewrite run_bind. simpl.
  lazymatch goal with
  | |- context [for_of ?l (phase3_step idMapping) ?acc ?g] =>
      destruct (phase3_loop_counts idMapping l acc g)
        as (rebound & h3 & -> & _)
  end.
  rewrite run_bind. simpl. rewrite run_bind. simpl. rewrite run_bind.
  lazymatch goal with
  | |- context [phase4 idMapping ?g] =>
      destruct (phase4_returns idMapping g) as (n & h4 & -> & _)
  end.
  rewrite run_bind. simpl. by eexists _, _, _.
Qed.

Lemma create_and_copy_pages selectedVariableIds duplicates safeToMove
    destinationCollection (h : Host) :
  ∃ created copied h2,
    create_and_copy selectedVariableIds duplicates safeToMove
      destinationCollection h = (Normal (created, copied), h2) ∧
    pages (document h2) = pages (document h) ∧ throws h2 = throws h.
Proof.
  destruct (create_and_copy_spec selectedVariableIds duplicates safeToMove
              destinationCollection h)
    as (created & copied & h1 & h2' & h2 & Hrun12 & _ & Ht1 & _ & Hpg1
        & _ & _ & _ & _ & _ & Hrun2 & Hemit & _).
  pose proof (phase2_values safeToMove destinationCollection
                (idMapping created) h1) as Hvo.
  rewrite Hrun2 in Hvo. simpl in Hvo.
  destruct Hvo as (_ & _ & _ & Hpg2 & _ & Ht2 & _).
  destruct Hemit as (Hd & Ht & _).
  exists created, copied, h2. split; [exact Hrun12|].
  split; [by rewrite Hd, Hpg2, Hpg1|by rewrite Ht, Ht2, Ht1].
Qed.

Lemma migrate_returns selectedVariableIds duplicates safeToMove
    destinationCollection (h : Host) :
  (∀ p allNodes,
     pages (document h) !! p = Some allNodes →
     throws h (LoadPage p) = false ∧ throws h (FindAll p) = false) →
  ∃ h', migrate selectedVariableIds duplicates safeToMove
          destinationCollection h = (Normal tt, h').
Proof.
  intros Hok.
  destruct (create_and_copy_pages selectedVariableIds duplicates safeToMove
              destinationCollection h)
    as (created & copied & h2 & Hrun12 & Hpages & Hthrows).
  destruct (rebind_and_delete_returns (idMapping created) h2)
    as (rebound & deleteCount & h4 & Hrun34).
  { apply page_fails_false. rewrite Hpages, Hthrows. exact Hok. }
  unfold migrate. rewrite run_bind, Hrun12. simpl.
  rewrite run_bind, Hrun34. simpl. by eexists.
Qed.

(** X17.  The migration completes exactly when every page of the document
    can be loaded and searched: Phases 1, 2 and 4 catch every failure of a
    single variable and go on, and so does the rebinding of a single
    binding; only the search for the bindings can end the migration with an
    error. *)
Theorem migrate_completes (selectedVariableIds : list string)
    (duplicates safeToMove : list DesignVariable)
    (destinationCollection : VariableCollection) (h : Host) :
  (∃ h', migrate selectedVariableIds duplicates safeToMove
           destinationCollection h = (Normal tt, h')) ↔
  ∀ p allNodes,
    pages (document h) !! p = Some allNodes →
    throws h (LoadPage p) = false ∧ throws h (FindAll p) = false.
Proof.
  split; [|apply migrate_returns].
  intros [h' Hrun] p allNodes Hp.
  destruct (create_and_copy_pages selectedVariableIds duplicates safeToMove
              destinationCollection h)
    as (created & copied & h2 & Hrun12 & Hpages & Hthrows).
  unfold migrate in Hrun. rewrite run_bind, Hrun12 in Hrun. simpl in Hrun.
  rewrite run_bind in Hrun.
  destruct (throws h (LoadPage p)) eqn:Hl;
    [|destruct (throws h (FindAll p)) eqn:Hf; [|done]]; exfalso.
  - destruct (rebind_and_delete_page_failure (idMapping created) h2 p
                allNodes) as (hx & Hrun34 & _);
      [by rewrite Hpages|left; by rewrite Hthrows|].
    rewrite Hrun34 in Hrun. discriminate.
  - destruct (rebind_and_delete_page_failure (idMapping created) h2 p
                allNodes) as (hx & Hrun34 & _);
      [by rewrite Hpages|right; by rewrite Hthrows|].
    rewrite Hrun34 in Hrun. discriminate.
Qed.

(** * A value that cannot be written *)

Lemma copy_value_literal originalVariable newVariable idMapping
    destinationMode (originalValue : Value) :
  is_literal originalValue = true →
  copy_value originalVariable newVariable idMapping destinationMode
    originalValue =
  setValueForMode newVariable (modeId destinationMode) originalValue.
Proof. by destruct originalValue. Qed.

Lemma setValueForMode_raises (h : Host) (newVariable m : string) (x : Value) :
  throws h (SetValueForMode newVariable m x) = true →
  setValueForMode newVariable m x h = (Thrown "host error", h).
Proof.
  intros Hno. unfold setValueForMode. by rewrite run_bind, run_host_call, Hno.
Qed.

(** The iterations before position [i] write only at the modes before
    position [i]. *)
Lemma copy_prefix_writes originalVariable newVariable
    (destinationModes : list Mode) idMapping (i : nat) :
  preserves
    (writes_within (λ variable m,
       variable = newVariable ∧
       ∃ j destinationMode,
         j < i ∧ destinationModes !! j = Some destinationMode ∧
         m = modeId destinationMode))
    (for_of (seq 0 i) (λ _ j,
       copyVariableValues_at originalVariable newVariable destinationModes
         idMapping j) tt).
Proof.
  apply preserves_for_of_in; [apply _|].
  intros [] j Hj. apply elem_of_seq in Hj as [_ Hj].
  unfold copyVariableValues_at.
  destruct (destinationModes !! j) as [dm|] eqn:Hdm;
    [|apply (preserves_ret _)].
  destruct (JsObject.keys (valuesByMode originalVariable) !! j);
    [|apply (preserves_ret _)].
  destruct (JsObject.get _ _); [|apply (preserves_ret _)].
  apply copy_value_writes. split; [reflexivity|].
  exists j, dm. split; [lia|done].
Qed.

Lemma copy_prefix_values originalVariable newVariable
    (destinationModes : list Mode) idMapping (i : nat) :
  preserves values_only
    (for_of (seq 0 i) (λ _ j,
       copyVariableValues_at originalVariable newVariable destinationModes
         idMapping j) tt).
Proof.
  apply (preserves_for_of values_only). intros [] j.
  apply copyVariableValues_at_values.
Qed.

(** X18.  When the host refuses to write a value that is not an alias,
    [copyVariableValues] raises there and copies nothing further: the new
    variable's value at that mode, and at every later mode of the
    destination, is as it was before the copy.  Phase 2 catches the error
    and counts the variable as failed. *)
Theorem copy_stops_at_refused_write (originalVariable : DesignVariable)
    (newVariable : string) (destinationCollection : VariableCollection)
    (idMapping : list (string * string)) (acc : Copied) (h : Host) (i : nat)
    (destinationMode : Mode) (k : string) (originalValue : Value) :
  NoDup (JsObject.keys (valuesByMode originalVariable)) →
  NoDup (map modeId (modes destinationCollection)) →
  modes destinationCollection !! i = Some destinationMode →
  valuesByMode originalVariable !! i = Some (k, originalValue) →
  is_literal originalValue = true →
  throws h (SetValueForMode newVariable (modeId destinationMode)
              originalValue) = true →
  JsObject.get idMapping (id originalVariable) = Some newVariable →
  ∃ e h' h'',
    copyVariableValues originalVariable newVariable destinationCollection
      idMapping h = (Thrown e, h') ∧
    (∀ j laterMode,
       i ≤ j → modes destinationCollection !! j = Some laterMode →
       value_of h' newVariable (modeId laterMode) =
       value_of h newVariable (modeId laterMode)) ∧
    phase2_step destinationCollection idMapping acc originalVariable h =
      (Normal (mkCopied (valueSuccessCount acc) (S (valueErrorCount acc))),
       h'') ∧
    document h'' = document h'.
Proof.
  intros Hkeys Hmodes Hdm Hv Hlit Hno Hidm.
  pose proof (lookup_lt_Some _ _ _ Hdm) as Hi.
  assert (∃ e h',
            copyVariableValues originalVariable newVariable
              destinationCollection idMapping h = (Thrown e, h') ∧
            ∀ j laterMode,
              i ≤ j → modes destinationCollection !! j = Some laterMode →
              value_of h' newVariable (modeId laterMode) =
              value_of h newVariable (modeId laterMode))
    as (e & h' & Hrun & Hlater).
  { unfold copyVariableValues.
    replace (length (modes destinationCollection))
      with (i + S (length (modes destinationCollection) - S i)) by lia.
    rewrite seq_app, run_for_of_app. simpl seq.
    pose proof (copy_prefix_writes originalVariable newVariable
                  (modes destinationCollection) idMapping i h) as Hw.
    pose proof (copy_prefix_values originalVariable newVariable
                  (modes destinationCollection) idMapping i h) as Hvo.
    destruct (for_of (seq 0 i) _ tt h) as [[[]|e] h1]; simpl in Hw, Hvo.
    - rewrite run_for_of_cons.
      rewrite (copyVariableValues_at_paired _ _ _ _ i destinationMode k
                 originalValue) by done.
      rewrite copy_value_literal by done.
      rewrite setValueForMode_raises.
      2:{ destruct Hvo as (_ & _ & _ & _ & _ & -> & _). exact Hno. }
      exists "host error", h1. split; [reflexivity|].
      intros j later Hj Hlater. apply Hw.
      intros [_ (j' & dm' & Hj' & Hdm' & Heq)].
      assert (j = j'); [|lia].
      eapply (NoDup_lookup (map modeId (modes destinationCollection)));
        [exact Hmodes| |]; rewrite list_lookup_fmap.
      + by rewrite Hlater.
      + by rewrite Hdm', Heq.
    - exists e, h1. split; [reflexivity|].
      intros j later Hj Hlater. apply Hw.
      intros [_ (j' & dm' & Hj' & Hdm' & Heq)].
      assert (j = j'); [|lia].
      eapply (NoDup_lookup (map modeId (modes destinationCollection)));
        [exact Hmodes| |]; rewrite list_lookup_fmap.
      + by rewrite Hlater.
      + by rewrite Hdm', Heq. }
  exists e, h'. eexists. split; [exact Hrun|]. split; [exact Hlater|].
  rewrite phase2_step_run, Hidm, Hrun. done.
Qed.

(** The host refuses every value for the second mode of [Tokens]. *)
Lemma copy_stops_at_refused_write_witness :
  ∃ e h' h'',
    copyVariableValues Sample.spacing "VariableID:2:1" Sample.tokens
      [("VariableID:1:3", "VariableID:2:1")]
      (Sample.host (λ c, match c with
                         | SetValueForMode _ m _ => bool_decide (m = "2:1")
                         | _ => false
                         end)) = (Thrown e, h') ∧
    phase2_step Sample.tokens [("VariableID:1:3", "VariableID:2:1")]
      (mkCopied 0 0) Sample.spacing
      (Sample.host (λ c, match c with
                         | SetValueForMode _ m _ => bool_decide (m = "2:1")
                         | _ => false
                         end)) = (Normal (mkCopied 0 1), h'').
Proof.
  destruct (copy_stops_at_refused_write Sample.spacing "VariableID:2:1"
              Sample.tokens [("VariableID:1:3", "VariableID:2:1")]
              (mkCopied 0 0)
              (Sample.host (λ c, match c with
                                 | SetValueForMode _ m _ =>
                                     bool_decide (m = "2:1")
                                 | _ => false
                                 end))
              1 Sample.tokens_mode2 "1:1" (VNumber 4))
    as (e & h' & h'' & Hrun & _ & Hstep & _).
  - apply (bool_decide_unpack _). vm_compute. reflexivity.
  - apply (bool_decide_unpack _). vm_compute. reflexivity.
  - reflexivity.
  - reflexivity.
  - reflexivity.
  - reflexivity.
  - reflexivity.
  - by exists e, h', h''.
Defined.

(** X19.  When an alias to a variable that is not being moved cannot be
    resolved or written because the host raises (at the lookup, at the
    creation of the alias, or at the write), the copy catches the error,
    logs it and goes on: the step returns, the document is as it was, and
    the console has one more error entry. *)
Theorem unmoved_alias_failure_swallowed (originalVariable : DesignVariable)
    (newVariable : string) (idMapping : list (string * string))
    (destinationMode : Mode) (r : string) (h : Host) :
  JsObject.get idMapping r = None →
  (throws h (GetVariableById r) = true ∨
   ∃ referencedVariable,
     variables (document h) !! r = Some referencedVariable ∧
     (throws h (CreateVariableAlias (id referencedVariable)) = true ∨
      throws h (SetValueForMode newVariable (modeId destinationMode)
                  (VariableAlias (id referencedVariable))) = true)) →
  ∃ h',
    copy_value originalVariable newVariable idMapping destinationMode
      (VariableAlias r) h = (Normal tt, h') ∧
    document h' = document h ∧
    console h' = console h ++
      [(LevelError, ["  Error resolving alias for"; name originalVariable;
                     "host error"])].
Proof.
  intros Hidm Hno. unfold copy_value. rewrite Hidm.
  rewrite run_try_catch, run_bind, run_getVariableByIdAsync.
  destruct (throws h (GetVariableById r)) eqn:Hget; [by eexists|].
  destruct Hno as [?|(rv & Hr & Hno)]; [discriminate|]. rewrite Hr.
  rewrite run_bind. unfold createVariableAlias at 1.
  rewrite run_bind, run_host_call.
  destruct (throws h (CreateVariableAlias (id rv))) eqn:Halias;
    [by eexists|].
  destruct Hno as [?|Hset]; [discriminate|]. simpl.
  rewrite run_bind, setValueForMode_raises by exact Hset. by eexists.
Qed.

(** [linked] of [Sample] aliases [spacing] of [Tokens]; the host refuses
    to create aliases. *)
Lemma unmoved_alias_failure_swallowed_witness :
  ∃ h',
    copy_value Sample.linked "VariableID:0" [] Sample.tokens_mode
      (VariableAlias "VariableID:2:1")
      (Sample.host (λ c, match c with
                         | CreateVariableAlias _ => true
                         | _ => false
                         end)) = (Normal tt, h') ∧
    document h' = Sample.doc.
Proof.
  destruct (unmoved_alias_failure_swallowed Sample.linked "VariableID:0" []
              Sample.tokens_mode "VariableID:2:1"
              (Sample.host (λ c, match c with
                                 | CreateVariableAlias _ => true
                                 | _ => false
                                 end)) eq_refl)
    as (h' & Hrun & Hdoc & _).
  - right. exists Sample.tokens_spacing. split; [reflexivity|by left].
  - by exists h'.
Defined.

(** * A migration on a host where nothing raises *)

Lemma keys_set_fresh {V} (o : list (string * V)) (k : string) (v : V) :
  k ∉ JsObject.keys o →
  JsObject.keys (JsObject.set o k v) = JsObject.keys o ++ [k].
Proof.
  intros Hk. rewrite set_fresh by done. unfold JsObject.keys.
  by rewrite map_app.
Qed.

Lemma phase1_loop_reliable (destinationCollection : VariableCollection)
    (l : list DesignVariable) (acc : Created) (h : Host) :
  (∀ c, throws h c = false) →
  NoDup (JsObject.keys (idMapping acc) ++ map id l) →
  ∃ created h1,
    for_of l (phase1_step destinationCollection) acc h =
      (Normal created, h1) ∧
    createSuccessCount created = createSuccessCount acc + length l ∧
    createErrorCount created = createErrorCount acc ∧
    JsObject.keys (idMapping created) =
      JsObject.keys (idMapping acc) ++ map id l.
Proof.
  revert acc h. induction l as [|o l IH]; intros acc h Hok Hnd.
  - exists acc, h. split; [reflexivity|]. split; [simpl; lia|].
    split; [reflexivity|]. simpl. by rewrite app_nil_r.
  - rewrite run_for_of_cons, phase1_step_run.
    destruct (createVariableInCollection_accepted o destinationCollection h)
      as (newVariable & hc & Hrun & _); [intros c _; apply Hok|].
    pose proof (createVariableInCollection_spec o destinationCollection h)
      as [(_ & _ & Ht & _) _].
    rewrite Hrun in Ht |- *. simpl in Ht.
    assert (id o ∉ JsObject.keys (idMapping acc)) as Hfresh.
    { apply NoDup_app in Hnd as (_ & Hdisj & _). intros Hin.
      apply (Hdisj _ Hin). simpl. by left. }
    destruct (IH (mkCreated (JsObject.set (idMapping acc) (id o) newVariable)
                    (S (createSuccessCount acc)) (createErrorCount acc))
                (snd (console_log ["  Created:"; name o] hc)))
      as (created & h1 & Hloop & Hs & He & Hk).
    { intros c. simpl. rewrite Ht. apply Hok. }
    { simpl. rewrite keys_set_fresh by done. rewrite <- app_assoc.
      exact Hnd. }
    exists created, h1. split; [exact Hloop|]. simpl in *.
    split; [lia|]. split; [exact He|].
    rewrite Hk, keys_set_fresh by done. by rewrite <- app_assoc.
Qed.

Lemma phase4_loop_reliable (l : list string) (deleteCount : nat) (h : Host) :
  (∀ c, throws h c = false) → well_formed (document h) → NoDup l →
  (∀ k, k ∈ l → is_Some (variables (document h) !! k)) →
  ∃ h',
    for_of l phase4_step deleteCount h = (Normal (deleteCount + length l), h')
    ∧ ∀ k, variables (document h') !! k =
           if decide (k ∈ l) then None else variables (document h) !! k.
Proof.
  revert deleteCount h.
  induction l as [|k l IH]; intros n h Hok Hwf Hnd Hlive.
  - exists h. split; [simpl; by rewrite Nat.add_0_r|].
    intros k. rewrite decide_False; [done|]. by intros ?%elem_of_nil.
  - rewrite run_for_of_cons, phase4_step_run, Hok.
    destruct (Hlive k) as [v Hk]; [by left|]. rewrite Hk, (Hwf k v Hk), Hok.
    apply NoDup_cons in Hnd as [Hnotin Hnd].
    destruct (IH (S n) (removed k h)) as (h' & Hrun & Hvars).
    + intros c. apply Hok.
    + by apply well_formed_removed.
    + exact Hnd.
    + intros k' Hk'. simpl. rewrite lookup_delete_ne by (intros ->; done).
      apply Hlive. by right.
    + exists h'. split; [rewrite Hrun; simpl; f_equal; f_equal; lia|].
      intros k'. rewrite Hvars. simpl.
      destruct (decide (k' ∈ l)) as [Hin|Hout].
      * rewrite decide_True; [done|by right].
      * destruct (decide (k' = k)) as [->|Hne].
        -- rewrite decide_True by left. apply lookup_delete_eq.
        -- rewrite decide_False, lookup_delete_ne; [done|done|].
           intros [?|?]%elem_of_cons; done.
Qed.

Lemma create_and_copy_reliable selectedVariableIds duplicates safeToMove
    destinationCollection (h : Host) :
  (∀ c, throws h c = false) → NoDup (map id safeToMove) →
  ∃ created copied h2,
    create_and_copy selectedVariableIds duplicates safeToMove
      destinationCollection h = (Normal (created, copied), h2) ∧
    createSuccessCount created = length safeToMove ∧
    createErrorCount created = 0 ∧
    JsObject.keys (idMapping created) = map id safeToMove.
Proof.
  intros Hok Hnd. unfold create_and_copy.
  repeat (rewrite run_bind; simpl). unfold phase1.
  lazymatch goal with
  | |- context [for_of safeToMove (phase1_step destinationCollection) ?acc
                  ?g] =>
      destruct (phase1_loop_reliable destinationCollection safeToMove acc g)
        as (created & h1 & Hrun1 & Hs & He & Hk);
      [intros c; apply Hok|exact Hnd|rewrite Hrun1]
  end.
  repeat (rewrite run_bind; simpl).
  lazymatch goal with
  | |- context [phase2 safeToMove destinationCollection (idMapping created)
                  ?g] =>
      destruct (phase2_returns safeToMove destinationCollection
                  (idMapping created) g) as (copied & h2' & Hrun2);
      rewrite Hrun2
  end.
  eexists created, copied, _. split; [reflexivity|]. by simpl in *.
Qed.

(** X20.  On a host where no call raises, moving variables with distinct
    identities that are in a document storing every variable under its own
    identity completes with nothing failed: the response reports every
    movable variable as created and as deleted, and no creation error; the
    originals are gone from the document. *)
Theorem reliable_migration (selectedVariableIds : list string)
    (duplicates safeToMove : list DesignVariable)
    (destinationCollection : VariableCollection) (h : Host) :
  (∀ c, throws h c = false) →
  well_formed (document h) →
  NoDup (map id safeToMove) →
  (∀ o, o ∈ safeToMove → variables (document h) !! id o = Some o) →
  ∃ h' rebindSuccessCount rebindErrorCount,
    migrate selectedVariableIds duplicates safeToMove destinationCollection h
      = (Normal tt, h') ∧
    posted h' = posted h ++
      [MoveComplete (length safeToMove) 0 (length duplicates)
         rebindSuccessCount rebindErrorCount (length safeToMove)
         (coll_name destinationCollection)] ∧
    ∀ o, o ∈ safeToMove → variables (document h') !! id o = None.
Proof.
  intros Hok Hwf Hnd Hlive.
  destruct (create_and_copy_reliable selectedVariableIds duplicates
              safeToMove destinationCollection h Hok Hnd)
    as (created & copied & h2 & Hrun12 & Hs & He & Hkeys).
  destruct (create_and_copy_spec selectedVariableIds duplicates safeToMove
              destinationCollection h)
    as (created' & copied' & h1 & h2' & h2x & Hrun12' & Hinv & Ht1 & _ & Hpg1
        & _ & Hp1 & _ & _ & _ & Hrun2 & Hemit & Hp2 & _).
  rewrite Hrun12 in Hrun12'. injection Hrun12' as <- <- <-.
  pose proof (phase2_values safeToMove destinationCollection
                (idMapping created) h1) as Hvo.
  rewrite Hrun2 in Hvo. simpl in Hvo.
  pose proof Hvo as (_ & _ & _ & Hpg2 & _ & Ht2 & _ & _ & Hpo2 & _).
  pose proof Hemit as (Hd & Ht & _).
  assert (∀ c, throws h2 c = false) as Hok2
    by (intros c; rewrite Ht, Ht2, Ht1; apply Hok).
  destruct (rebind_and_delete_returns (idMapping created) h2)
    as (rebound & deleteCount & h4 & Hrun34).
  { apply page_fails_false. intros p allNodes _. by rewrite !Hok2. }
  destruct (rebind_and_delete_spec _ _ _ _ _ Hrun34)
    as (h3 & h4' & Hv3 & Ht3 & _ & _ & Hrun4 & Hd4 & _).
  assert (well_formed (document h3)) as Hwf3.
  { unfold well_formed. rewrite Hv3, Hd.
    eapply values_only_well_formed; [exact Hvo|].
    by eapply shells_created_well_formed. }
  destruct (phase4_loop_reliable (JsObject.keys (idMapping created)) 0 h3)
    as (hx & Hrun4' & Hgone).
  { intros c. rewrite Ht3. apply Hok2. }
  { exact Hwf3. }
  { by rewrite Hkeys. }
  { intros k Hk. rewrite Hv3, Hd.
    apply (values_only_is_Some h1 h2' k Hvo).
    rewrite Hkeys in Hk.
    apply list_elem_of_In, in_map_iff in Hk as (o & <- & Ho).
    apply list_elem_of_In in Ho. destruct Hinv as (Hgrow & _).
    exists o. apply Hgrow. by apply Hlive. }
  unfold phase4 in Hrun4. rewrite Hrun4' in Hrun4.
  injection Hrun4 as <- <-.
  pose proof (rebind_and_delete_posts_nothing (idMapping created) h2)
    as Hp34.
  rewrite Hrun34 in Hp34. unfold posts_nothing in Hp34. simpl in Hp34.
  eexists _, (rebindSuccessCount rebound), (rebindErrorCount rebound).
  unfold migrate. rewrite run_bind, Hrun12. simpl.
  rewrite run_bind, Hrun34. simpl.
  split; [reflexivity|]. simpl.
  split.
  - rewrite Hs, He, Hkeys, length_map. f_equal. congruence.
  - intros o Ho. rewrite Hd4, Hgone, decide_True; [done|].
    rewrite Hkeys. apply list_elem_of_In, in_map, list_elem_of_In, Ho.
Qed.

(** Moving [color-base] and [color-alias] of [Sample] to [Tokens]. *)
Lemma reliable_migration_witness :
  ∃ h' rebindSuccessCount rebindErrorCount,
    migrate ["VariableID:1:1"; "VariableID:1:2"] []
      [Sample.color_base; Sample.color_alias] Sample.tokens
      (Sample.host Sample.reliable) = (Normal tt, h') ∧
    posted h' =
      [MoveComplete 2 0 0 rebindSuccessCount rebindErrorCount 2 "Tokens"] ∧
    variables (document h') !! "VariableID:1:1" = None.
Proof.
  assert (∀ o, o ∈ [Sample.color_base; Sample.color_alias] →
            variables (document (Sample.host Sample.reliable)) !! id o =
            Some o) as Hlive.
  { intros o Ho. apply elem_of_cons in Ho as [->|Ho]; [reflexivity|].
    apply list_elem_of_singleton in Ho as ->. reflexivity. }
  destruct (reliable_migration ["VariableID:1:1"; "VariableID:1:2"] []
              [Sample.color_base; Sample.color_alias] Sample.tokens
              (Sample.host Sample.reliable) (λ _, eq_refl)
              (sample_well_formed Sample.reliable))
    as (h' & rs & re & Hrun & Hposted & Hgone).
  - apply (bool_decide_unpack _). vm_compute. reflexivity.
  - exact Hlive.
  - exists h', rs, re. split; [exact Hrun|]. split; [exact Hposted|].
    apply (Hgone Sample.color_base). left.
Defined.

(** * One request, one answer *)

(** X21.  A [move-variables] request posts at most one message: nothing,
    when a host lookup or the search for the bindings raised; one error
    response; or one completion response.  It never posts an error and a
    completion, and never two of either. *)
Theorem move_variables_answers_once (msg : Message) (h : Host) :
  posted (snd (on_move_variables msg h)) = posted h ∨
  (∃ e, posted (snd (on_move_variables msg h)) = posted h ++ [MoveError e]) ∨
  ∃ successCount errorCount skippedCount rebindSuccessCount rebindErrorCount
    deletedCount destinationName,
    posted (snd (on_move_variables msg h)) = posted h ++
      [MoveComplete successCount errorCount skippedCount rebindSuccessCount
         rebindErrorCount deletedCount destinationName].
Proof.
  destruct (on_move_variables_posts msg h)
    as [Hp|[(e & Hp)|(s & e & rs & re & d & name & Hp & _)]].
  - by left.
  - right; left. by exists e.
  - right; right. by eexists _, _, _, _, _, _, _.
Qed.

(** * A request on a host whose lookups succeed *)

(** X22.  When no lookup of a collection or a variable raises and every
    page can be loaded and searched, a [move-variables] request always
    returns and posts exactly one message: an error response or a
    completion response. *)
Theorem move_variables_returns (msg : Message) (h : Host) :
  (∀ c, throws h (GetVariableCollectionById c) = false) →
  (∀ v, throws h (GetVariableById v) = false) →
  (∀ p, throws h (LoadPage p) = false ∧ throws h (FindAll p) = false) →
  ∃ h',
    on_move_variables msg h = (Normal tt, h') ∧
    ((∃ e, posted h' = posted h ++ [MoveError e]) ∨
     ∃ successCount errorCount skippedCount rebindSuccessCount
       rebindErrorCount deletedCount destinationName,
       posted h' = posted h ++
         [MoveComplete successCount errorCount skippedCount
            rebindSuccessCount rebindErrorCount deletedCount
            destinationName]).
Proof.
  intros Hcoll Hvar Hpage.
  assert (∀ c, ∃ variables,
            getVariablesInCollection c h = (Normal variables, h)) as Hread.
  { intros c. rewrite getVariablesInCollection_run, Hcoll.
    destruct (collections (document h) !! c) as [collection|];
      [|by eexists].
    destruct (existsb _ (variableIds collection)) eqn:Hex; [|by eexists].
    apply existsb_exists in Hex as (i & _ & Hno).
    rewrite Hvar in Hno. discriminate. }
  assert (∀ notification e,
            ∃ h', move_error notification e h = (Normal tt, h') ∧
                  ((∃ e, posted h' = posted h ++ [MoveError e]) ∨
                   ∃ successCount errorCount skippedCount rebindSuccessCount
                     rebindErrorCount deletedCount destinationName,
                     posted h' = posted h ++
                       [MoveComplete successCount errorCount skippedCount
                          rebindSuccessCount rebindErrorCount deletedCount
                          destinationName])) as Herror.
  { intros n e. eexists. split; [reflexivity|]. left. by exists e. }
  unfold on_move_variables.
  destruct (truthy_field (sourceCollectionId msg)) as [s|]; [|apply Herror].
  destruct (truthy_field (destinationCollectionId msg)) as [d|];
    [|apply Herror].
  destruct (decide (s = d)); [apply Herror|].
  destruct (decide (length (default [] (selectedVariableIds msg)) = 0));
    [apply Herror|].
  rewrite run_bind, run_getVariableCollectionByIdAsync, Hcoll.
  rewrite run_bind, run_getVariableCollectionByIdAsync, Hcoll.
  destruct (collections (document h) !! s) as [sc|]; [|apply Herror].
  destruct (collections (document h) !! d) as [dc|]; [|apply Herror].
  rewrite run_bind. destruct (Hread s) as [vars ->].
  destruct (decide (length _ = 0)); [apply Herror|].
  rewrite run_bind. unfold getVariableNamesInCollection.
  rewrite run_bind. destruct (Hread d) as [dvars ->].
  cbv beta iota. rewrite run_ret.
  destruct (decide (length _ = 0)); [apply Herror|].
  lazymatch goal with
  | |- ∃ h', migrate ?sel ?dups ?safe ?dest h = _ ∧ _ =>
      destruct (migrate_returns sel dups safe dest h) as [h' Hrun];
      [intros p allNodes _; apply Hpage|];
      destruct (migrate_response sel dups safe dest h h' Hrun)
        as (created & rebound & deleteCount & Hp & _)
  end.
  exists h'. split; [exact Hrun|]. right. by eexists _, _, _, _, _, _, _.
Qed.

(** Two requests on the document of [Sample], on a host where nothing
    raises: one is refused, one completes. *)
Lemma move_variables_returns_witness :
  (∃ h', on_move_variables (Sample.move "brand" "brand" ["VariableID:1:1"])
           (Sample.host Sample.reliable) = (Normal tt, h')) ∧
  (∃ h', on_move_variables (Sample.move "brand" "tokens" ["VariableID:1:1"])
           (Sample.host Sample.reliable) = (Normal tt, h')).
Proof.
  split.
  - destruct (move_variables_returns
                (Sample.move "brand" "brand" ["VariableID:1:1"])
                (Sample.host Sample.reliable))
      as (h' & Hrun & _); [done|done|done|by exists h'].
  - destruct (move_variables_returns
                (Sample.move "brand" "tokens" ["VariableID:1:1"])
                (Sample.host Sample.reliable))
      as (h' & Hrun & _); [done|done|done|].
    exists h'. exact Hrun.
Defined.

(** * The order of the selection *)

Lemma migrate_selection selectedVariableIds selectedVariableIds'
    duplicates safeToMove destinationCollection :
  length selectedVariableIds = length selectedVariableIds' →
  migrate selectedVariableIds duplicates safeToMove destinationCollection =
  migrate selectedVariableIds' duplicates safeToMove destinationCollection.
Proof. intros Hlen. unfold migrate, create_and_copy. by rewrite Hlen. Qed.

(** X23.  The order in which the variables are selected does not matter:
    two [move-variables] requests for the same collections whose selections
    are permutations of each other do exactly the same, to the document and
    to everything the plugin emits.  The variables are processed in the
    order of the source collection. *)
Theorem selection_order_irrelevant (msg msg' : Message)
    (selected selected' : list string) (h : Host) :
  sourceCollectionId msg' = sourceCollectionId msg →
  destinationCollectionId msg' = destinationCollectionId msg →
  selectedVariableIds msg = Some selected →
  selectedVariableIds msg' = Some selected' →
  selected ≡ₚ selected' →
  on_move_variables msg' h = on_move_variables msg h.
Proof.
  intros Hs Hd Hsel Hsel' Hperm. unfold on_move_variables.
  cbv zeta. rewrite Hs, Hd, Hsel, Hsel'.
  change (default [] (Some selected')) with selected'.
  change (default [] (Some selected)) with selected.
  assert (length selected' = length selected) as Hlen
    by (by rewrite Hperm).
  assert ((list_to_set selected' : gset string) = list_to_set selected)
    as Hset by (apply set_eq; intros i; by rewrite !elem_of_list_to_set, Hperm).
  destruct (truthy_field (sourceCollectionId msg)) as [s|]; [|reflexivity].
  destruct (truthy_field (destinationCollectionId msg)) as [d|];
    [|reflexivity].
  destruct (decide (s = d)); [reflexivity|]. rewrite Hlen.
  destruct (decide (length selected = 0)); [reflexivity|].
  rewrite !(run_bind (getVariableCollectionByIdAsync s)).
  destruct (getVariableCollectionByIdAsync s h) as [[sc|e] h1];
    [|reflexivity].
  rewrite !(run_bind (getVariableCollectionByIdAsync d)).
  destruct (getVariableCollectionByIdAsync d h1) as [[dc|e] h2];
    [|reflexivity].
  destruct sc as [sc|], dc as [dc|]; try reflexivity.
  rewrite !(run_bind (getVariablesInCollection s)).
  destruct (getVariablesInCollection s h2) as [[vars|e] h3]; [|reflexivity].
  rewrite Hset.
  destruct (decide (length _ = 0)); [reflexivity|].
  rewrite !(run_bind (getVariableNamesInCollection d)).
  destruct (getVariableNamesInCollection d h3) as [[names|e] h4];
    [|reflexivity].
  destruct (decide (length _ = 0)); [reflexivity|].
  by rewrite (migrate_selection selected' selected) by exact Hlen.
Qed.

Lemma selection_order_irrelevant_witness :
  on_move_variables
    (Sample.move "brand" "tokens" ["VariableID:1:2"; "VariableID:1:1"])
    (Sample.host Sample.reliable) =
  on_move_variables
    (Sample.move "brand" "tokens" ["VariableID:1:1"; "VariableID:1:2"])
    (Sample.host Sample.reliable).
Proof.
  apply (selection_order_irrelevant
           (Sample.move "brand" "tokens" ["VariableID:1:1"; "VariableID:1:2"])
           (Sample.move "brand" "tokens" ["VariableID:1:2"; "VariableID:1:1"])
           ["VariableID:1:1"; "VariableID:1:2"]
           ["VariableID:1:2"; "VariableID:1:1"]);
    [reflexivity|reflexivity|reflexivity|reflexivity|apply perm_swap].
Defined.
